(** * Incremental calendar synchronisation: a shallow embedding

    The development follows the TypeScript sources of the webhook-driven
    synchronisation engine:

    - [Db]                 (database.ts, class DatabaseService): user tokens,
      connection status and the sync-token store;
    - [Auth]               (auth.ts, class AuthService): acquisition of an
      authenticated client;
    - [MemoryCalendarSync] (memoryCalendarSync.ts): the downstream sink;
    - [WebhookHandler]     (webhookHandler.ts): orchestrator, incremental
      fetch, classifier and full sync;
    - [Dispatcher]         (webhookHandler.ts, processWebhookAsync): the
      in-flight registry, as a transition system over promises;
    - [Access]             (auth.ts, validateUserAccess): the access probe;
    - [Endpoint]           (webhookHandler.ts, handleCalendarWebhook) and
      [HttpTransport]      (http.ts, handleWebhookRequest and
      handleFullSync): the entry points.

    Asynchronous methods are embedded in a reader-state-exception monad over
    a [World] that holds the database tables and the chronological trace of
    every interaction with an external collaborator.  The collaborators
    themselves (PostgreSQL pool, Google APIs, the memory-vault HTTP service,
    the clock) are oracles gathered in an [Env]; the n-th call of a kind is
    answered by the oracle of that kind at index n.

    Part I holds the embedding, Part II the vocabulary of the properties,
    Part III concrete scenarios, Part IV the theorems about the
    synchronisation protocol and Part V further properties of the services
    and endpoints. *)

From Stdlib Require Import ZArith Ascii String DecimalString List Bool Lia.
From stdpp Require Import base option list gmap strings.
Import ListNotations.

Open Scope string_scope.

(** * Part I: the embedding *)

(** ** JavaScript values *)

Module Js.

(** A property typed [T | null | undefined]. *)
Inductive opt (A : Type) : Type :=
| Undefined
| Null
| Val (a : A).
Arguments Undefined {A}.
Arguments Null {A}.
Arguments Val {A} a.

#[global] Instance opt_eq_dec {A} `{EqDecision A} : EqDecision (opt A).
Proof. solve_decision. Defined.

(** [a === b] on such properties: no coercion, so [null] and [undefined]
    differ and strings are compared by content. *)
Definition strict_eq {A} `{EqDecision A} (a b : opt A) : bool :=
  bool_decide (a = b).

(** Truthiness of a string: only the empty string is falsy. *)
Definition truthy_string (s : string) : bool := negb (String.eqb s "").

(** [a || undefined] for an optional string: the string when truthy. *)
Definition or_undefined (a : opt string) : option string :=
  match a with
  | Val s => if truthy_string s then Some s else None
  | _ => None
  end.

(** [a || dflt] for an optional string. *)
Definition or_else (a : opt string) (dflt : string) : string :=
  match or_undefined a with
  | Some s => s
  | None => dflt
  end.

(** Interpolation [${a}] inside a template literal. *)
Definition interpolate (a : opt string) : string :=
  match a with
  | Undefined => "undefined"
  | Null => "null"
  | Val s => s
  end.

(** [s.includes(sub)]. *)
Fixpoint includes (s sub : string) : bool :=
  String.prefix sub s ||
  match s with
  | EmptyString => false
  | String _ s' => includes s' sub
  end.

(** A thrown value, as far as the handlers inspect it: [error.code] and
    [error.message]. *)
Inductive code : Type :=
| NoCode
| NumCode (n : Z)
| StrCode (s : string).

#[global] Instance code_eq_dec : EqDecision code.
Proof. solve_decision. Defined.

Record error : Type := Error {
  err_code : code;
  err_message : opt string
}.

#[global] Instance error_eq_dec : EqDecision error.
Proof. solve_decision. Defined.

(** [new Error(msg)]. *)
Definition new_Error (msg : string) : error :=
  {| err_code := NoCode; err_message := Val msg |}.

(** A [Date]: the clock reading it was created from and the number of
    calendar days later added with [setDate(getDate() + n)].  The shift is
    kept symbolic: its length in milliseconds depends on the local
    time zone. *)
Record date : Type := Date {
  clock_ms : Z;
  day_shift : Z
}.

#[global] Instance date_eq_dec : EqDecision date.
Proof. solve_decision. Defined.

Definition setDate_plus (d : date) (n : Z) : date :=
  {| clock_ms := clock_ms d; day_shift := (day_shift d + n)%Z |}.

End Js.

(** ** Data exchanged with the collaborators *)

(** [calendar_v3.Schema$Event], restricted to the properties the
    synchronisation engine reads itself. *)
Record Event : Type := {
  id : Js.opt string;
  status : Js.opt string;
  created : Js.opt string;
  updated : Js.opt string;
  summary : Js.opt string
}.

#[global] Instance Event_eq_dec : EqDecision Event.
Proof. solve_decision. Defined.

Inductive ChangeType : Type :=
| created_
| updated_
| deleted_.

#[global] Instance ChangeType_eq_dec : EqDecision ChangeType.
Proof. solve_decision. Defined.

Definition ChangeType_to_string (c : ChangeType) : string :=
  match c with
  | created_ => "created"
  | updated_ => "updated"
  | deleted_ => "deleted"
  end.

Record CalendarChange : Type := {
  event : Event;
  changeType : ChangeType
}.

#[global] Instance CalendarChange_eq_dec : EqDecision CalendarChange.
Proof. solve_decision. Defined.

Record GoogleWebhookHeaders : Type := {
  resourceId : string;
  resourceUri : string;
  channelId : string;
  channelToken : option string;
  channelExpiration : option string
}.

#[global] Instance GoogleWebhookHeaders_eq_dec : EqDecision GoogleWebhookHeaders.
Proof. solve_decision. Defined.

(** [calendar_v3.Params$Resource$Events$List], the properties set by the
    three call sites. *)
Record ListParams : Type := {
  calendarId : string;
  showDeleted : option bool;
  singleEvents : option bool;
  maxResults : Z;
  syncToken : option string;
  timeMin : option Js.date;
  timeMax : option Js.date;
  orderBy : option string;
  pageToken : option string
}.

#[global] Instance ListParams_eq_dec : EqDecision ListParams.
Proof. solve_decision. Defined.

(** [response.data] of [calendar.events.list]. *)
Record EventsData : Type := {
  items : option (list Event);
  nextSyncToken : Js.opt string;
  nextPageToken : Js.opt string
}.

(** [response.data.items] of [calendar.calendarList.list]: the calendar
    ids, when the property is present. *)
Record CalendarListData : Type := {
  calendar_items : option (list string)
}.

(** OAuth credentials returned by [refreshAccessToken]. *)
Record Credentials : Type := {
  cred_access_token : Js.opt string;
  cred_refresh_token : Js.opt string;
  expiry_date : option Z
}.

(** An [OAuth2Client] with the credentials set on it. *)
Record OAuth2Client : Type := {
  client_access_token : Js.opt string;
  client_refresh_token : Js.opt string
}.

(** [MemoryEntry]; of [metadata] the model keeps the properties that are
    copied from the event by the synchronisation engine. *)
Record Metadata : Type := {
  event_id : Js.opt string;
  change_type : string;
  last_modified : string;
  metadata_status : string
}.

#[global] Instance Metadata_eq_dec : EqDecision Metadata.
Proof. solve_decision. Defined.

Record MemoryEntry : Type := {
  content : string;
  title : string;
  memory_type : string;
  source : string;
  tags : list string;
  metadata : Metadata;
  is_private : bool
}.

#[global] Instance MemoryEntry_eq_dec : EqDecision MemoryEntry.
Proof. solve_decision. Defined.

Inductive Method : Type :=
| GET
| POST
| PUT
| DELETE.

#[global] Instance Method_eq_dec : EqDecision Method.
Proof. solve_decision. Defined.

(** The JSON bodies sent to the vault: the POST body carries the whole
    entry and the user id, the PUT body leaves out [memory_type], [source]
    and [is_private]. *)
Inductive Body : Type :=
| NoBody
| StoreBody (entry : MemoryEntry) (user_id : string)
| UpdateBody (body_content body_title : string) (body_tags : list string)
    (body_metadata : Metadata) (user_id : string).

#[global] Instance Body_eq_dec : EqDecision Body.
Proof. solve_decision. Defined.

Record HttpRequest : Type := {
  url : string;
  method : Method;
  body : Body
}.

#[global] Instance HttpRequest_eq_dec : EqDecision HttpRequest.
Proof. solve_decision. Defined.

(** A memory returned by the vault's search. *)
Record Memory : Type := {
  memory_id : string
}.

(** The value of [await response.json()], as far as the sink reads it:
    [null] (any property access throws), or an object whose [memories]
    property is absent or an array. *)
Inductive Json : Type :=
| JsonNull
| JsonObject (memories : option (list Memory)).

(** ** Results *)

(** The way a promise of a collaborator settles, and the result of a
    library function that may throw. *)
Inductive Settled (A : Type) : Type :=
| Resolves (a : A)
| Rejects (e : Js.error).
Arguments Resolves {A} a.
Arguments Rejects {A} e.

(** The outcome of an asynchronous method of the engine: a value, a thrown
    error, or [Diverges] when a loop of the model ran out of fuel. *)
Inductive Result (A : Type) : Type :=
| Ok (a : A)
| Throw (e : Js.error)
| Diverges.
Arguments Ok {A} a.
Arguments Throw {A} e.
Arguments Diverges {A}.

Definition settle_result {A} (s : Settled A) : Result A :=
  match s with
  | Resolves a => Ok a
  | Rejects e => Throw e
  end.

Record HttpResponse : Type := {
  ok : bool;
  json : Settled Json
}.

(** ** Database tables *)

(** A row of [users]. *)
Record UserRow : Type := {
  access_token : option string;
  refresh_token : option string;
  token_expires_at : option Z;
  email : string
}.

(** [UserTokens]: a row whose [access_token] is not NULL. *)
Record UserTokens : Type := {
  tok_access_token : string;
  tok_refresh_token : option string;
  tok_token_expires_at : option Z;
  tok_email : string
}.

(** The columns of [user_calendar_connections] written by the engine. *)
Record ConnectionRow : Type := {
  sync_status : string;
  last_sync_at : option Js.date
}.

#[global] Instance ConnectionRow_eq_dec : EqDecision ConnectionRow.
Proof. solve_decision. Defined.

(** [Partial<CalendarConnection>], for the two properties ever passed. *)
Record ConnectionUpdates : Type := {
  upd_sync_status : option string;
  upd_last_sync_at : option Js.date
}.

#[global] Instance ConnectionUpdates_eq_dec : EqDecision ConnectionUpdates.
Proof. solve_decision. Defined.

(** ** Effects and worlds *)

(** The SQL statements issued through [pool.query]. *)
Inductive Query : Type :=
| SelectUserTokens (userId : string)
| UpdateUserTokens (userId accessToken : string) (refreshToken : option string)
    (expiresAt : option Z)
| UpdateConnection (userId : string) (updates : ConnectionUpdates)
| SelectSyncToken (userId calendarId : string)
| UpsertSyncToken (userId calendarId : string) (token : option string).

#[global] Instance Query_eq_dec : EqDecision Query.
Proof. solve_decision. Defined.

(** One entry of the trace.  [EQuery q succeeded] records a statement and
    whether the pool executed it; [EApplied] records a completed call of
    [processCalendarChange] and the boolean it returned. *)
Inductive Effect : Type :=
| EQuery (q : Query) (succeeded : bool)
| ERefreshAccessToken (refreshToken : string)
| ECalendarList
| EEventsList (p : ListParams)
| EFetch (req : HttpRequest)
| ESleep (ms : Z)
| ENewDate (d : Js.date)
| EApplied (userId : string) (ev : Event) (c : ChangeType) (success : bool).

#[global] Instance Effect_eq_dec : EqDecision Effect.
Proof. solve_decision. Defined.

Record World : Type := {
  users : gmap string UserRow;
  connections : gmap string ConnectionRow;
  sync_tokens : gmap (string * string) (option string);
  trace : list Effect
}.

(** The environment.  Each oracle receives the number of earlier calls of
    its kind.  [query_error] answers [None] when the pool executes the
    statement and [Some e] when it rejects with [e].  The last three are
    the library and presentation functions the engine calls without
    looking inside. *)
Record Env : Type := {
  query_error : nat -> Query -> option Js.error;
  refreshAccessToken : nat -> string -> Settled Credentials;
  calendarList_list : nat -> Settled CalendarListData;
  events_list : nat -> ListParams -> Settled EventsData;
  http_fetch : nat -> HttpRequest -> Settled HttpResponse;
  Date_now : nat -> Z;
  decodeURIComponent : string -> Settled string;
  generateMemoryContent : Event -> Settled string;
  generateEventTags : Event -> Settled (list string)
}.

Definition is_query (e : Effect) : bool :=
  match e with EQuery _ _ => true | _ => false end.
Definition is_refresh (e : Effect) : bool :=
  match e with ERefreshAccessToken _ => true | _ => false end.
Definition is_calendar_list (e : Effect) : bool :=
  match e with ECalendarList => true | _ => false end.
Definition is_events_list (e : Effect) : bool :=
  match e with EEventsList _ => true | _ => false end.
Definition is_fetch (e : Effect) : bool :=
  match e with EFetch _ => true | _ => false end.
Definition is_sleep (e : Effect) : bool :=
  match e with ESleep _ => true | _ => false end.
Definition is_new_date (e : Effect) : bool :=
  match e with ENewDate _ => true | _ => false end.

(** Number of entries of one kind. *)
Definition count (kind : Effect -> bool) (tr : list Effect) : nat :=
  length (List.filter kind tr).

Definition log (e : Effect) (w : World) : World :=
  {| users := users w; connections := connections w;
     sync_tokens := sync_tokens w; trace := trace w ++ [e] |}.

(** ** The monad *)

Definition M (A : Type) : Type := Env -> World -> Result A * World.

#[global] Instance M_ret : MRet M := fun A a _ w => (Ok a, w).

#[global] Instance M_bind : MBind M := fun A B k m env w =>
  match m env w with
  | (Ok a, w') => k a env w'
  | (Throw e, w') => (Throw e, w')
  | (Diverges, w') => (Diverges, w')
  end.

Definition throw {A} (e : Js.error) : M A := fun _ w => (Throw e, w).

Definition diverge {A} : M A := fun _ w => (Diverges, w).

(** A pure computation that may throw. *)
Definition lift {A} (r : Settled A) : M A := fun _ w => (settle_result r, w).

Definition ask : M Env := fun env w => (Ok env, w).

(** [try { m } catch (error) { handler error }]. *)
Definition try_catch {A} (m : M A) (handler : Js.error -> M A) : M A :=
  fun env w =>
    match m env w with
    | (Throw e, w') => handler e env w'
    | r => r
    end.

(** *** Calls to the collaborators *)

(** [new Date()]. *)
Definition new_Date : M Js.date := fun env w =>
  let d := Js.Date (Date_now env (count is_new_date (trace w))) 0 in
  (Ok d, log (ENewDate d) w).

(** [await new Promise(resolve => setTimeout(resolve, ms))]. *)
Definition sleep (ms : Z) : M unit := fun _ w => (Ok tt, log (ESleep ms) w).

(** [await this.pool.query(...)]: when the pool executes the statement its
    effect on the tables, [run], happens and its rows, [rows], are read from
    the tables before the statement. *)
Definition pool_query {A} (q : Query) (run : World -> World) (rows : World -> A)
  : M A := fun env w =>
  match query_error env (count is_query (trace w)) q with
  | Some e => (Throw e, log (EQuery q false) w)
  | None => (Ok (rows w), log (EQuery q true) (run w))
  end.

(** [await calendar.events.list(params)], giving [response.data]. *)
Definition calendar_events_list (p : ListParams) : M EventsData := fun env w =>
  (settle_result (events_list env (count is_events_list (trace w)) p),
   log (EEventsList p) w).

(** [await calendar.calendarList.list()]. *)
Definition calendar_calendarList_list : M CalendarListData := fun env w =>
  (settle_result (calendarList_list env (count is_calendar_list (trace w))),
   log ECalendarList w).

(** [await client.refreshAccessToken()]. *)
Definition client_refreshAccessToken (refreshToken : string) : M Credentials :=
  fun env w =>
  (settle_result (refreshAccessToken env (count is_refresh (trace w)) refreshToken),
   log (ERefreshAccessToken refreshToken) w).

(** [await fetch(url, init)]. *)
Definition fetch (req : HttpRequest) : M HttpResponse := fun env w =>
  (settle_result (http_fetch env (count is_fetch (trace w)) req),
   log (EFetch req) w).

(** ** DatabaseService *)

Module Db.

Definition user_tokens_of_row (row : UserRow) : option UserTokens :=
  match access_token row with
  | Some a =>
      Some {| tok_access_token := a;
              tok_refresh_token := refresh_token row;
              tok_token_expires_at := token_expires_at row;
              tok_email := email row |}
  | None => None
  end.

(** [getUserTokens]: the row of the user when its access token is not
    NULL; a database error is logged and thrown again. *)
Definition getUserTokens (userId : string) : M (option UserTokens) :=
  try_catch
    (pool_query (SelectUserTokens userId) (fun w => w)
       (fun w => users w !! userId ≫= user_tokens_of_row))
    (fun error => throw error).

Definition set_user_tokens (accessToken : string) (refreshToken : option string)
    (expiresAt : option Z) (row : UserRow) : UserRow :=
  {| access_token := Some accessToken;
     refresh_token := refreshToken;
     token_expires_at := expiresAt;
     email := email row |}.

(** [updateUserTokens]. *)
Definition updateUserTokens (userId accessToken : string)
    (refreshToken : option string) (expiresAt : option Z) : M unit :=
  try_catch
    (pool_query (UpdateUserTokens userId accessToken refreshToken expiresAt)
       (fun w =>
          {| users := alter (set_user_tokens accessToken refreshToken expiresAt)
                        userId (users w);
             connections := connections w;
             sync_tokens := sync_tokens w;
             trace := trace w |})
       (fun _ => tt))
    (fun error => throw error).

Definition apply_updates (updates : ConnectionUpdates) (row : ConnectionRow)
  : ConnectionRow :=
  {| sync_status := default (sync_status row) (upd_sync_status updates);
     last_sync_at :=
       match upd_last_sync_at updates with
       | Some d => Some d
       | None => last_sync_at row
       end |}.

(** [updateCalendarConnection]: an UPDATE of the user's row (no row, no
    change); a database error is logged and thrown again. *)
Definition updateCalendarConnection (userId : string)
    (updates : ConnectionUpdates) : M unit :=
  try_catch
    (pool_query (UpdateConnection userId updates)
       (fun w =>
          {| users := users w;
             connections := alter (apply_updates updates) userId (connections w);
             sync_tokens := sync_tokens w;
             trace := trace w |})
       (fun _ => tt))
    (fun error => throw error).

(** [getSyncToken]: the stored token, [None] for SQL NULL, for a missing
    row and for a database error. *)
Definition getSyncToken (userId calendarId : string) : M (option string) :=
  try_catch
    (pool_query (SelectSyncToken userId calendarId) (fun w => w)
       (fun w => default None (sync_tokens w !! (userId, calendarId))))
    (fun _ => mret None).

(** [updateSyncToken]: INSERT .. ON CONFLICT DO UPDATE; a database error is
    logged and answered with [false]. *)
Definition updateSyncToken (userId calendarId : string)
    (token : option string) : M bool :=
  try_catch
    (pool_query (UpsertSyncToken userId calendarId token)
       (fun w =>
          {| users := users w;
             connections := connections w;
             sync_tokens := <[(userId, calendarId) := token]> (sync_tokens w);
             trace := trace w |})
       (fun _ => true))
    (fun _ => mret false).

End Db.

(** ** AuthService *)

Module Auth.

(** [refreshUserToken]. *)
Definition refreshUserToken (userId refreshToken : string)
  : M (option OAuth2Client) :=
  try_catch
    (credentials ← client_refreshAccessToken refreshToken;
     match Js.or_undefined (cred_access_token credentials) with
     | Some accessToken =>
         let expiresAt :=
           match expiry_date credentials with
           | Some t => if (t =? 0)%Z then None else Some t
           | None => None
           end in
         Db.updateUserTokens userId accessToken
           (Some (Js.or_else (cred_refresh_token credentials) refreshToken))
           expiresAt;;
         mret (Some {| client_access_token := cred_access_token credentials;
                       client_refresh_token := cred_refresh_token credentials |})
     | None => mret None
     end)
    (fun _ =>
       now ← new_Date;
       Db.updateCalendarConnection userId
         {| upd_sync_status := Some "error"; upd_last_sync_at := Some now |};;
       mret None).

(** [getAuthenticatedClient]: every error is caught and answered with
    [None] (JavaScript [null]). *)
Definition getAuthenticatedClient (userId : string) : M (option OAuth2Client) :=
  try_catch
    (tokens ← Db.getUserTokens userId;
     match tokens with
     | None => mret None
     | Some t =>
         if negb (Js.truthy_string (tok_access_token t)) then mret None
         else
           expired ←
             match tok_token_expires_at t with
             | None => mret false
             | Some expires =>
                 now ← new_Date;
                 mret (expires <=? Js.clock_ms now)%Z
             end;
           if (expired : bool) then
             match tok_refresh_token t with
             | Some r =>
                 if Js.truthy_string r then refreshUserToken userId r
                 else mret None
             | None => mret None
             end
           else
             mret (Some {| client_access_token := Js.Val (tok_access_token t);
                           client_refresh_token :=
                             match tok_refresh_token t with
                             | Some r => Js.Val r
                             | None => Js.Null
                             end |})
     end)
    (fun _ => mret None).

End Auth.

(** ** MemoryCalendarSync *)

Module MemoryCalendarSync.

(** The vault URL of the instance built by [WebhookHandler]: the default
    constructor argument, which has no trailing slash to strip. *)
Definition memoryVaultUrl : string := "http://localhost:8000".

Definition TypeError_null_property : Js.error :=
  Js.new_Error "Cannot read properties of null (reading 'memories')".

(** [convertEventToMemory]. *)
Definition convertEventToMemory (ev : Event) (c : ChangeType) : M MemoryEntry :=
  env ← ask;
  memoryContent ← lift (generateMemoryContent env ev);
  eventTags ← lift (generateEventTags env ev);
  mret {| content := memoryContent;
          title := "Calendar Event: " +:+ Js.or_else (summary ev) "Untitled Event";
          memory_type := "CALENDAR_EVENT";
          source := "GOOGLE_CALENDAR";
          tags := eventTags;
          metadata :=
            {| event_id := id ev;
               change_type := ChangeType_to_string c;
               last_modified := Js.or_else (updated ev) "";
               metadata_status := Js.or_else (status ev) "" |};
          is_private := true |}.

Definition search_url (userId : string) (eventId : Js.opt string) : string :=
  memoryVaultUrl +:+ "/memories/search?user_id=" +:+ userId
    +:+ "&query=event_id:" +:+ Js.interpolate eventId +:+ "&limit=1".

Definition memory_url (m : Memory) : string :=
  memoryVaultUrl +:+ "/memories/" +:+ memory_id m.

(** [storeInMemoryVault]. *)
Definition storeInMemoryVault (userId : string) (memoryEntry : MemoryEntry)
  : M bool :=
  try_catch
    (response ← fetch {| url := memoryVaultUrl +:+ "/memories";
                         method := POST;
                         body := StoreBody memoryEntry userId |};
     if ok response then mret true else mret false)
    (fun _ => mret false).

(** [updateInMemoryVault]. *)
Definition updateInMemoryVault (userId : string) (memoryEntry : MemoryEntry)
  : M bool :=
  try_catch
    (searchResponse ←
       fetch {| url := search_url userId (event_id (metadata memoryEntry));
                method := GET; body := NoBody |};
     updated ←
       (if ok searchResponse then
          searchResult ← lift (json searchResponse);
          match searchResult with
          | JsonNull => throw TypeError_null_property
          | JsonObject (Some (existingMemory :: _)) =>
              updateResponse ←
                fetch {| url := memory_url existingMemory;
                         method := PUT;
                         body := UpdateBody (content memoryEntry)
                                   (title memoryEntry) (tags memoryEntry)
                                   (metadata memoryEntry) userId |};
              mret (ok updateResponse)
          | JsonObject _ => mret false
          end
        else mret false);
     if (updated : bool) then mret true
     else storeInMemoryVault userId memoryEntry)
    (fun _ => mret false).

(** [removeFromMemoryVault]. *)
Definition removeFromMemoryVault (userId : string) (eventId : Js.opt string)
  : M bool :=
  try_catch
    (searchResponse ←
       fetch {| url := search_url userId eventId;
                method := GET; body := NoBody |};
     if ok searchResponse then
       searchResult ← lift (json searchResponse);
       match searchResult with
       | JsonNull => throw TypeError_null_property
       | JsonObject (Some (existingMemory :: _)) =>
           deleteResponse ←
             fetch {| url := memory_url existingMemory;
                      method := DELETE; body := NoBody |};
           if ok deleteResponse then mret true else mret false
       | JsonObject _ => mret true
       end
     else mret false)
    (fun _ => mret false).

(** The body of [processCalendarChange], before the call is recorded. *)
Definition processCalendarChange_body (userId : string) (calendarEvent : Event)
    (c : ChangeType) : M bool :=
  try_catch
    (match c with
     | deleted_ => removeFromMemoryVault userId (id calendarEvent)
     | updated_ =>
         memoryEntry ← convertEventToMemory calendarEvent c;
         updateInMemoryVault userId memoryEntry
     | created_ =>
         memoryEntry ← convertEventToMemory calendarEvent c;
         storeInMemoryVault userId memoryEntry
     end)
    (fun _ => mret false).

Definition record_applied (userId : string) (ev : Event) (c : ChangeType)
    (success : bool) : M unit :=
  fun _ w => (Ok tt, log (EApplied userId ev c success) w).

(** [processCalendarChange]; the completed call is entered in the trace. *)
Definition processCalendarChange (userId : string) (calendarEvent : Event)
    (c : ChangeType) : M bool :=
  success ← processCalendarChange_body userId calendarEvent c;
  record_applied userId calendarEvent c success;;
  mret success.

End MemoryCalendarSync.

(** ** WebhookHandler *)

Module WebhookHandler.

(** [WebhookHandler.determineChangeType]. *)
Definition determineChangeType (ev : Event) : ChangeType :=
  if Js.strict_eq (status ev) (Js.Val "cancelled") then deleted_
  else if Js.strict_eq (created ev) (updated ev) then created_
  else updated_.

(** *** The resource locator *)

(** The rest of [s] after the literal [p], when [s] starts with it. *)
Fixpoint strip_prefix (p s : string) : option string :=
  match p, s with
  | EmptyString, _ => Some s
  | String a p', String b s' =>
      if Ascii.eqb a b then strip_prefix p' s' else None
  | String _ _, EmptyString => None
  end.

(** The longest prefix without a slash, and the rest: what [[^\/]+] takes,
    since the next thing to match is a slash. *)
Fixpoint span_no_slash (s : string) : string * string :=
  match s with
  | EmptyString => (EmptyString, EmptyString)
  | String c s' =>
      if Ascii.eqb c "/"%char then (EmptyString, s)
      else let '(seg, rest) := span_no_slash s' in (String c seg, rest)
  end.

(** A match of [calendars\/([^\/]+)\/events] starting at the head of [s]:
    the captured group. *)
Definition match_here (s : string) : option string :=
  match strip_prefix "calendars/" s with
  | Some t =>
      let '(seg, rest) := span_no_slash t in
      if Js.truthy_string seg && String.prefix "/events" rest then Some seg
      else None
  | None => None
  end.

(** [resourceUri.match(/calendars\/([^\/]+)\/events/)]: the group of the
    leftmost match. *)
Fixpoint regex_match (s : string) : option string :=
  match match_here s with
  | Some seg => Some seg
  | None =>
      match s with
      | EmptyString => None
      | String _ s' => regex_match s'
      end
  end.

(** [extractCalendarIdFromResourceUri]. *)
Definition extractCalendarIdFromResourceUri (resourceUri : string) : M string :=
  env ← ask;
  match regex_match resourceUri with
  | Some seg => lift (decodeURIComponent env seg)
  | None => mret "primary"
  end.

(** *** Incremental fetch *)

Definition maxRetries : nat := 3.

Definition incremental_params (calendarId : string) (syncToken : option string)
    (timeMin : option Js.date) : ListParams :=
  {| calendarId := calendarId;
     showDeleted := Some true;
     singleEvents := Some true;
     maxResults := 250;
     syncToken := syncToken;
     timeMin := timeMin;
     timeMax := None;
     orderBy := None;
     pageToken := None |}.

Definition to_change (ev : Event) : CalendarChange :=
  {| event := ev; changeType := determineChangeType ev |}.

(** The [try] block of [fetchIncrementalChanges]: one attempt. *)
Definition fetch_attempt (userId : string) (headers : GoogleWebhookHeaders)
  : M (list CalendarChange) :=
  authClient ← Auth.getAuthenticatedClient userId;
  match authClient with
  | None =>
      throw (Js.new_Error
               ("Failed to get authenticated client for user " +:+ userId))
  | Some _ =>
      calendarId ← extractCalendarIdFromResourceUri (resourceUri headers);
      lastSyncToken ← Db.getSyncToken userId calendarId;
      listParams ←
        match lastSyncToken with
        | Some tok =>
            if Js.truthy_string tok
            then mret (incremental_params calendarId (Some tok) None)
            else
              thirtyDaysAgo ← new_Date;
              mret (incremental_params calendarId None
                      (Some (Js.setDate_plus thirtyDaysAgo (-30))))
        | None =>
            thirtyDaysAgo ← new_Date;
            mret (incremental_params calendarId None
                    (Some (Js.setDate_plus thirtyDaysAgo (-30))))
        end;
      response ← calendar_events_list listParams;
      match Js.or_undefined (nextSyncToken response) with
      | Some tok => Db.updateSyncToken userId calendarId (Some tok);; mret tt
      | None => mret tt
      end;;
      mret (map to_change (default [] (items response)))
  end.

(** The test of the [catch] block: [error.code === 410 || (error.message &&
    error.message.includes('Sync token is no longer valid'))]. *)
Definition sync_token_rejected (error : Js.error) : bool :=
  bool_decide (Js.err_code error = Js.NumCode 410) ||
  match Js.err_message error with
  | Js.Val m => Js.truthy_string m && Js.includes m "Sync token is no longer valid"
  | _ => false
  end.

(** [Math.pow(2, attempt) * 1000]. *)
Definition backoff_delay (attempt : nat) : Z := (2 ^ Z.of_nat attempt * 1000)%Z.

(** The [while (attempt < maxRetries)] loop.  [fuel] bounds the number of
    iterations of the model. *)
Fixpoint fetch_loop (fuel : nat) (userId : string)
    (headers : GoogleWebhookHeaders) (attempt : nat) : M (list CalendarChange) :=
  if (attempt <? maxRetries)%nat then
    match fuel with
    | O => diverge
    | S fuel' =>
        try_catch (fetch_attempt userId headers)
          (fun error =>
             let attempt := S attempt in
             retry_now ←
               (if sync_token_rejected error then
                  calendarId ←
                    extractCalendarIdFromResourceUri (resourceUri headers);
                  Db.updateSyncToken userId calendarId None;;
                  mret (attempt <? maxRetries)%nat
                else mret false);
             if (retry_now : bool) then fetch_loop fuel' userId headers attempt
             else if (maxRetries <=? attempt)%nat then throw error
             else
               sleep (backoff_delay attempt);;
               fetch_loop fuel' userId headers attempt)
    end
  else mret [].

(** [fetchIncrementalChanges]. *)
Definition fetchIncrementalChanges (userId : string)
    (headers : GoogleWebhookHeaders) : M (list CalendarChange) :=
  fetch_loop maxRetries userId headers 0.

(** *** Orchestration of one webhook *)

(** [scheduleFullSync]. *)
Definition scheduleFullSync (userId : string) : M unit :=
  try_catch
    (now ← new_Date;
     Db.updateCalendarConnection userId
       {| upd_sync_status := Some "scheduled_full_sync";
          upd_last_sync_at := Some now |})
    (fun _ => mret tt).

(** The [for (const change of changes)] loop of [doProcessWebhook]. *)
Fixpoint apply_changes (userId : string) (changes : list CalendarChange)
    (successCount : nat) : M nat :=
  match changes with
  | [] => mret successCount
  | change :: rest =>
      success ← MemoryCalendarSync.processCalendarChange userId
                  (event change) (changeType change);
      apply_changes userId rest
        (if (success : bool) then S successCount else successCount)
  end.

(** The [try] block of [doProcessWebhook]. *)
Definition doProcessWebhook_try (userId : string)
    (headers : GoogleWebhookHeaders) : M unit :=
  changes ← fetchIncrementalChanges userId headers;
  if (length changes =? 0)%nat then mret tt
  else
    successCount ← apply_changes userId changes 0;
    now ← new_Date;
    Db.updateCalendarConnection userId
      {| upd_sync_status :=
           Some (if (successCount =? length changes)%nat
                 then "synced" else "partial_sync");
         upd_last_sync_at := Some now |}.

(** The [catch] block of [doProcessWebhook]. *)
Definition doProcessWebhook_catch (userId : string) : M unit :=
  now ← new_Date;
  Db.updateCalendarConnection userId
    {| upd_sync_status := Some "error"; upd_last_sync_at := Some now |};;
  scheduleFullSync userId.

(** [doProcessWebhook]. *)
Definition doProcessWebhook (userId : string) (headers : GoogleWebhookHeaders)
  : M unit :=
  try_catch (doProcessWebhook_try userId headers)
    (fun _ => doProcessWebhook_catch userId).

(** *** Full sync *)

Definition page_params (calendarId : string) (pastDate futureDate : Js.date)
    (pageToken : option string) : ListParams :=
  {| calendarId := calendarId;
     showDeleted := None;
     singleEvents := Some true;
     maxResults := 250;
     syncToken := None;
     timeMin := Some pastDate;
     timeMax := Some futureDate;
     orderBy := Some "startTime";
     pageToken := pageToken |}.

Definition refresh_params (calendarId : string) : ListParams :=
  {| calendarId := calendarId;
     showDeleted := None;
     singleEvents := None;
     maxResults := 1;
     syncToken := None;
     timeMin := None;
     timeMax := None;
     orderBy := None;
     pageToken := None |}.

(** The [for (const event of events)] loop of [performFullSync]. *)
Fixpoint apply_created (userId : string) (events : list Event) : M unit :=
  match events with
  | [] => mret tt
  | ev :: rest =>
      MemoryCalendarSync.processCalendarChange userId ev created_;;
      apply_created userId rest
  end.

(** The [do .. while (pageToken)] loop.  [fuel] bounds the number of pages
    the model follows. *)
Fixpoint page_loop (fuel : nat) (userId calendarId : string)
    (pastDate futureDate : Js.date) (pageToken : option string) : M unit :=
  match fuel with
  | O => diverge
  | S fuel' =>
      response ←
        calendar_events_list (page_params calendarId pastDate futureDate pageToken);
      apply_created userId (default [] (items response));;
      match Js.or_undefined (nextPageToken response) with
      | Some tok =>
          page_loop fuel' userId calendarId pastDate futureDate (Some tok)
      | None => mret tt
      end
  end.

(** The [try] block around one calendar. *)
Definition sync_calendar_try (fuel : nat) (userId calendarId : string) : M unit :=
  pastDate ← new_Date;
  futureDate ← new_Date;
  page_loop fuel userId calendarId
    (Js.setDate_plus pastDate (-30)) (Js.setDate_plus futureDate 365) None;;
  syncResponse ← calendar_events_list (refresh_params calendarId);
  match Js.or_undefined (nextSyncToken syncResponse) with
  | Some tok => Db.updateSyncToken userId calendarId (Some tok);; mret tt
  | None => mret tt
  end.

(** One iteration of [for (const calendarItem of calendarList.data.items)]. *)
Definition sync_calendar (fuel : nat) (userId calendarId : string) : M unit :=
  try_catch (sync_calendar_try fuel userId calendarId) (fun _ => mret tt).

Fixpoint sync_calendars (fuel : nat) (userId : string)
    (calendarIds : list string) : M unit :=
  match calendarIds with
  | [] => mret tt
  | calendarId :: rest =>
      sync_calendar fuel userId calendarId;;
      sync_calendars fuel userId rest
  end.

(** The variable [totalSynced] of [performFullSync] counts the calls of
    [processCalendarChange] that returned [true]; it is only printed.  The
    model reads it off the trace. *)
Definition totalSynced (tr : list Effect) : nat :=
  count (fun e => match e with EApplied _ _ _ true => true | _ => false end) tr.

(** [performFullSync]. *)
Definition performFullSync (fuel : nat) (userId : string) : M bool :=
  try_catch
    (authClient ← Auth.getAuthenticatedClient userId;
     match authClient with
     | None =>
         throw (Js.new_Error
                  ("Failed to get authenticated client for user " +:+ userId))
     | Some _ =>
         calendarList ← calendar_calendarList_list;
         match calendar_items calendarList with
         | None => mret true
         | Some calendarIds =>
             sync_calendars fuel userId calendarIds;;
             now ← new_Date;
             Db.updateCalendarConnection userId
               {| upd_sync_status := Some "synced";
                  upd_last_sync_at := Some now |};;
             mret true
         end
     end)
    (fun _ =>
       now ← new_Date;
       Db.updateCalendarConnection userId
         {| upd_sync_status := Some "error"; upd_last_sync_at := Some now |};;
       mret false).

End WebhookHandler.

(** ** The in-flight registry *)

(** [processWebhookAsync] suspends at [await processingPromise], so calls
    for several triggers interleave.  The handler is a transition system:
    a trigger runs the method up to its [await]; a run of
    [doProcessWebhook] settles its promise; a suspended call resumes once
    the promise it awaits is settled and executes the [finally] block.
    Nothing can run between the [has] test and the [set] of one call,
    because [doProcessWebhook] returns its promise without yielding to
    another trigger.  The effects of a run on the world are taken at the
    moment its promise settles. *)

Module Dispatcher.

Inductive PromiseState : Type :=
| Pending
| Fulfilled
| Rejected (e : Js.error).

#[global] Instance PromiseState_eq_dec : EqDecision PromiseState.
Proof. solve_decision. Defined.

(** A promise returned by [doProcessWebhook], with the arguments of the
    call. *)
Record Run : Type := {
  run_userId : string;
  run_headers : GoogleWebhookHeaders;
  run_state : PromiseState
}.

(** [processingQueue] maps a key to a promise; promises are named by their
    position in [promises].  [suspended] holds the calls of
    [processWebhookAsync] waiting at the [await]: the key they will delete
    and the promise they wait for. *)
Record Handler : Type := {
  processingQueue : gmap string nat;
  promises : list Run;
  suspended : list (string * nat);
  world : World
}.

Inductive Action : Type :=
| Trigger (userId : string) (headers : GoogleWebhookHeaders)
| Settle (p : nat)
| Resume (key : string) (p : nat).

Definition processingKey (userId : string) (headers : GoogleWebhookHeaders)
  : string :=
  userId +:+ "_" +:+ channelId headers.

Definition init (w : World) : Handler :=
  {| processingQueue := ∅; promises := []; suspended := []; world := w |}.

(** [processWebhookAsync], from its entry to the [await]. *)
Definition processWebhookAsync (h : Handler) (userId : string)
    (headers : GoogleWebhookHeaders) : Handler :=
  let key := processingKey userId headers in
  match processingQueue h !! key with
  | Some _ => h
  | None =>
      let processingPromise := length (promises h) in
      {| processingQueue := <[key := processingPromise]> (processingQueue h);
         promises := promises h ++
                     [{| run_userId := userId; run_headers := headers;
                         run_state := Pending |}];
         suspended := (key, processingPromise) :: suspended h;
         world := world h |}
  end.

(** A pending run of [doProcessWebhook] completes: its promise is fulfilled,
    or rejected with the error it threw. *)
Definition settle (env : Env) (h : Handler) (p : nat) : Handler :=
  match promises h !! p with
  | Some {| run_userId := userId; run_headers := headers; run_state := Pending |} =>
      match WebhookHandler.doProcessWebhook userId headers env (world h) with
      | (Ok _, w') =>
          {| processingQueue := processingQueue h;
             promises := <[p := {| run_userId := userId; run_headers := headers;
                                   run_state := Fulfilled |}]> (promises h);
             suspended := suspended h;
             world := w' |}
      | (Throw e, w') =>
          {| processingQueue := processingQueue h;
             promises := <[p := {| run_userId := userId; run_headers := headers;
                                   run_state := Rejected e |}]> (promises h);
             suspended := suspended h;
             world := w' |}
      | (Diverges, _) => h
      end
  | _ => h
  end.

Definition settled (h : Handler) (p : nat) : bool :=
  match promises h !! p with
  | Some {| run_state := Fulfilled |} => true
  | Some {| run_state := Rejected _ |} => true
  | _ => false
  end.

(** The [finally] block of a suspended call whose promise is settled. *)
Definition resume (h : Handler) (key : string) (p : nat) : Handler :=
  if bool_decide ((key, p) ∈ suspended h) && settled h p then
    {| processingQueue := delete key (processingQueue h);
       promises := promises h;
       suspended := List.filter (fun f => negb (bool_decide (f = (key, p))))
                      (suspended h);
       world := world h |}
  else h.

Definition step (env : Env) (h : Handler) (a : Action) : Handler :=
  match a with
  | Trigger userId headers => processWebhookAsync h userId headers
  | Settle p => settle env h p
  | Resume key p => resume h key p
  end.

(** The handler after a schedule of actions. *)
Definition run (env : Env) (h : Handler) (schedule : list Action) : Handler :=
  fold_left (step env) schedule h.

(** The runs in flight for a pair (userId, channelId): the pending
    promises of [doProcessWebhook] calls made for that pair. *)
Definition in_flight (h : Handler) (userId channel : string) : list nat :=
  List.filter
    (fun p =>
       match promises h !! p with
       | Some r =>
           bool_decide (run_userId r = userId) &&
           bool_decide (channelId (run_headers r) = channel) &&
           bool_decide (run_state r = Pending)
       | None => false
       end)
    (seq 0 (length (promises h))).

(** The key under which a run is registered. *)
Definition key_of (r : Run) : string :=
  processingKey (run_userId r) (run_headers r).

(** What holds of the handler between any two actions: the registry holds
    exactly the suspended calls; a suspended call waits for a promise of a
    run made for its key; every pending run has its suspended call. *)
Record Inv (h : Handler) : Prop := {
  registry_suspended : forall key p,
    processingQueue h !! key = Some p <-> In (key, p) (suspended h);
  suspended_run : forall key p,
    In (key, p) (suspended h) ->
    exists r, promises h !! p = Some r /\ key_of r = key;
  pending_suspended : forall p r,
    promises h !! p = Some r -> run_state r = Pending ->
    In (key_of r, p) (suspended h)
}.

End Dispatcher.

(** ** AuthService: the access probe *)

Module Access.

(** [validateUserAccess]: the token is tested with one call of
    [calendarList.list].  The call asks for a single result; the trace
    entry of the model does not record that argument, and the answer of
    the provider is not looked at. *)
Definition validateUserAccess (userId : string) : M bool :=
  try_catch
    (client ← Auth.getAuthenticatedClient userId;
     match client with
     | None => mret false
     | Some _ =>
         calendar_calendarList_list;;
         mret true
     end)
    (fun _ => mret false).

End Access.

(** ** The HTTP endpoints *)

(** The entry points of the engine: the webhook endpoint of
    [WebhookHandler] and the full-sync endpoint of the HTTP transport. *)

Module Endpoint.

(** What [res.status(code).send(text)] sends. *)
Record Response : Type := {
  status_code : Z;
  sent : string
}.

(** [handleCalendarWebhook], for a request that carries the Google headers
    [headers]; [userId] is [req.params.userId].  The response is sent
    before [processWebhookAsync] is called, and the promise of that call is
    not awaited: the method returns once the call has reached its [await].
    Nothing in the [try] block throws synchronously, so the [catch] block,
    which sends the same acknowledgement, is never entered. *)
Definition handleCalendarWebhook (h : Dispatcher.Handler)
    (userId : option string) (headers : GoogleWebhookHeaders)
  : Response * Dispatcher.Handler :=
  match userId with
  | Some u =>
      if negb (Js.truthy_string u)
      then ({| status_code := 400; sent := "Bad Request: userId required" |}, h)
      else ({| status_code := 200; sent := "OK" |},
            Dispatcher.processWebhookAsync h u headers)
  | None =>
      ({| status_code := 400; sent := "Bad Request: userId required" |}, h)
  end.

End Endpoint.

Module HttpTransport.

(** [s.split('/')]. *)
Fixpoint split_slash (s : string) : list string :=
  match s with
  | EmptyString => [EmptyString]
  | String c s' =>
      if Ascii.eqb c "/"%char then EmptyString :: split_slash s'
      else
        match split_slash s' with
        | part :: rest => String c part :: rest
        | [] => [String c EmptyString]
        end
  end.

(** [url.pathname.split('/').filter(Boolean)]. *)
Definition pathParts (pathname : string) : list string :=
  List.filter Js.truthy_string (split_slash pathname).

(** Where [handleWebhookRequest] sends a request: the handler it calls
    with the user id it passes, or the response it writes itself. *)
Inductive Route : Type :=
| NotFound
| WebhookRegister
| WebhookUnregister
| CalendarWebhook (userId : string)
| FullSync (userId : string)
| UserIdRequired
| EndpointNotFound.

(** The dispatch of [handleWebhookRequest] on [url.pathname], taken as it
    is.  The handlers of [register] and [unregister] belong to the webhook
    service; they are named, not followed. *)
Definition handleWebhookRequest (pathname : string) : Route :=
  let pathParts := pathParts pathname in
  if (length pathParts <? 2)%nat then NotFound
  else
    match pathParts !! 1 with
    | None => NotFound
    | Some action =>
        if String.eqb action "register" then WebhookRegister
        else if String.eqb action "unregister" then WebhookUnregister
        else if String.eqb action "calendar" then
          match pathParts !! 2 with
          | Some userId => CalendarWebhook userId
          | None => UserIdRequired
          end
        else if String.eqb action "full-sync" then
          match pathParts !! 2 with
          | Some userId => FullSync userId
          | None => UserIdRequired
          end
        else EndpointNotFound
    end.

(** The JSON bodies of the full-sync endpoint. *)
Inductive FullSyncBody : Type :=
| FullSyncCompleted (user_id : string)
| FullSyncFailed (user_id : string)
| InternalServerError.

(** [res.writeHead(code, ..)] followed by [res.end(JSON.stringify(body))]. *)
Record FullSyncResponse : Type := {
  code : Z;
  reply : FullSyncBody
}.

(** [handleFullSync]. *)
Definition handleFullSync (fuel : nat) (userId : string) : M FullSyncResponse :=
  try_catch
    (success ← WebhookHandler.performFullSync fuel userId;
     if (success : bool)
     then mret {| code := 200; reply := FullSyncCompleted userId |}
     else mret {| code := 500; reply := FullSyncFailed userId |})
    (fun _ => mret {| code := 500; reply := InternalServerError |}).

End HttpTransport.

(** * Part II: the vocabulary of the properties *)

Open Scope list_scope.

(** Every run of the computation relates the world it starts in to the
    world it ends in by [R]. *)
Definition respects {A} (R : relation World) (m : M A) : Prop :=
  forall env w, R w (snd (m env w)).

(** The computation returns a value, whatever the collaborators answer. *)
Definition total {A} (m : M A) : Prop :=
  forall env w, exists a, fst (m env w) = Ok a.

(** The computation does not run out of fuel. *)
Definition terminates {A} (m : M A) : Prop :=
  forall env w, fst (m env w) <> Diverges.

(** The presentation layer throws on the event. *)
Definition converter_throws (env : Env) (ev : Event) : Prop :=
  (exists e, generateMemoryContent env ev = Rejects e) \/
  (exists text e, generateMemoryContent env ev = Resolves text /\
                  generateEventTags env ev = Rejects e).

(** An event id as it reads inside a URL: the id itself, or the name of
    the missing value. *)
Definition id_text (eventId : Js.opt string) : string :=
  match eventId with
  | Js.Undefined => "undefined"
  | Js.Null => "null"
  | Js.Val s => s
  end.

(** The lookup of the memory of an event in the vault: a GET, without a
    body, of the search endpoint, keyed by the user id and the event id and
    limited to one result. *)
Definition search_request (userId : string) (eventId : Js.opt string)
  : HttpRequest :=
  {| url := "http://localhost:8000/memories/search?user_id=" +:+ userId
              +:+ "&query=event_id:" +:+ id_text eventId +:+ "&limit=1";
     method := GET; body := NoBody |}.

(** [appends allowed w w']: the trace of [w'] is the trace of [w] followed
    by entries that all satisfy [allowed]. *)
Definition appends (allowed : Effect -> bool) : relation World :=
  fun w w' => exists sfx, trace w' = trace w ++ sfx /\ forallb allowed sfx = true.

(** The sync-token store is unchanged. *)
Definition same_sync_tokens : relation World :=
  fun w w' => sync_tokens w' = sync_tokens w.

(** No table changes. *)
Definition same_tables : relation World :=
  fun w w' =>
    users w' = users w /\ connections w' = connections w /\
    sync_tokens w' = sync_tokens w.

(** The executed upsert of a sync token. *)
Definition set_sync_token (userId calendarId : string) (token : option string)
    (w : World) : World :=
  {| users := users w;
     connections := connections w;
     sync_tokens := <[(userId, calendarId) := token]> (sync_tokens w);
     trace := trace w |}.

(** The executed update of a user's connection row. *)
Definition update_connection (userId : string) (updates : ConnectionUpdates)
    (w : World) : World :=
  {| users := users w;
     connections := alter (Db.apply_updates updates) userId (connections w);
     sync_tokens := sync_tokens w;
     trace := trace w |}.

(** The pool executes statement [q] when it is issued in world [w]. *)
Definition executes (env : Env) (w : World) (q : Query) : Prop :=
  query_error env (count is_query (trace w)) q = None.

(** The query that opens every attempt: the read of the user's tokens. *)
Definition is_select_user_tokens (e : Effect) : bool :=
  match e with EQuery (SelectUserTokens _) _ => true | _ => false end.

(** What [getAuthenticatedClient] may do after it has read the tokens. *)
Definition refresh_effect (e : Effect) : bool :=
  match e with
  | EQuery (UpdateUserTokens _ _ _ _) _ => true
  | EQuery (UpdateConnection _ _) _ => true
  | ENewDate _ => true
  | ERefreshAccessToken _ => true
  | _ => false
  end.

(** The calendar id of a resource locator. *)
Definition calendar_id_of (env : Env) (resourceUri : string) : Settled string :=
  match WebhookHandler.regex_match resourceUri with
  | Some seg => decodeURIComponent env seg
  | None => Resolves "primary"
  end.

(** The request parameters chosen from the stored token. *)
Definition choose_params (calendarId : string) (lastSyncToken : option string)
  : M ListParams :=
  match lastSyncToken with
  | Some tok =>
      if Js.truthy_string tok
      then mret (WebhookHandler.incremental_params calendarId (Some tok) None)
      else
        thirtyDaysAgo ← new_Date;
        mret (WebhookHandler.incremental_params calendarId None
                (Some (Js.setDate_plus thirtyDaysAgo (-30))))
  | None =>
      thirtyDaysAgo ← new_Date;
      mret (WebhookHandler.incremental_params calendarId None
              (Some (Js.setDate_plus thirtyDaysAgo (-30))))
  end.

(** The list call of an attempt and what follows it. *)
Definition request_changes (userId calendarId : string) (listParams : ListParams)
  : M (list CalendarChange) :=
  response ← calendar_events_list listParams;
  match Js.or_undefined (nextSyncToken response) with
  | Some tok => Db.updateSyncToken userId calendarId (Some tok);; mret tt
  | None => mret tt
  end;;
  mret (map WebhookHandler.to_change (default [] (items response))).

(** The error of an attempt without an authenticated client. *)
Definition auth_failure (userId : string) : Js.error :=
  Js.new_Error ("Failed to get authenticated client for user " +:+ userId).

(** A stored token is used when it is a non-empty string. *)
Definition usable_token (stored : option string) : option string :=
  match stored with
  | Some tok => if Js.truthy_string tok then Some tok else None
  | None => None
  end.

(** The request of a calendar with the usable token [tok]: up to 250
    changes since the token was handed out, deleted events included,
    recurring events expanded, and no time window. *)
Definition token_request (calId tok : string) : ListParams :=
  {| calendarId := calId;
     showDeleted := Some true;
     singleEvents := Some true;
     maxResults := 250;
     syncToken := Some tok;
     timeMin := None;
     timeMax := None;
     orderBy := None;
     pageToken := None |}.

(** The first request of a calendar without a usable token: everything
    since 30 days before the clock reading [now]. *)
Definition initial_window_params (calId : string) (now : Z) : ListParams :=
  {| calendarId := calId;
     showDeleted := Some true;
     singleEvents := Some true;
     maxResults := 250;
     syncToken := None;
     timeMin := Some {| Js.clock_ms := now; Js.day_shift := -30 |};
     timeMax := None;
     orderBy := None;
     pageToken := None |}.

(** What an attempt does before it asks the provider, after its first
    query. *)
Definition prelude_effect (e : Effect) : bool :=
  refresh_effect e ||
  match e with EQuery (SelectSyncToken _ _) _ => true | _ => false end.

(** The parameters of the list call of an attempt started in [w]: the
    calendar of the resource locator, with the stored token when the token
    is usable and was read, with the initial window otherwise. *)
Definition attempt_params (env : Env) (u : string) (h : GoogleWebhookHeaders)
    (w : World) (p : ListParams) : Prop :=
  exists calId, calendar_id_of env (resourceUri h) = Resolves calId /\
    ((exists tok, usable_token (default None (sync_tokens w !! (u, calId))) = Some tok /\
                  p = token_request calId tok) \/
     (exists now, p = initial_window_params calId now)).

(** The ways an attempt started in [w] can end. *)
Inductive attempt_outcome (env : Env) (u : string) (h : GoogleWebhookHeaders)
    (w : World) : Result (list CalendarChange) -> World -> Prop :=
| attempt_unasked e w1 b pre :
    trace w1 = trace w ++ EQuery (SelectUserTokens u) b :: pre ->
    forallb prelude_effect pre = true ->
    sync_tokens w1 = sync_tokens w ->
    attempt_outcome env u h w (Throw e) w1
| attempt_refused e w1 b pre p :
    trace w1 = trace w ++ EQuery (SelectUserTokens u) b :: pre ++ [EEventsList p] ->
    forallb prelude_effect pre = true ->
    sync_tokens w1 = sync_tokens w ->
    attempt_params env u h w p ->
    events_list env (count is_events_list (trace w)) p = Rejects e ->
    attempt_outcome env u h w (Throw e) w1
| attempt_served data w1 b pre p :
    trace w1 = trace w ++ EQuery (SelectUserTokens u) b :: pre ++ [EEventsList p] ->
    forallb prelude_effect pre = true ->
    sync_tokens w1 = sync_tokens w ->
    attempt_params env u h w p ->
    events_list env (count is_events_list (trace w)) p = Resolves data ->
    Js.or_undefined (nextSyncToken data) = None ->
    attempt_outcome env u h w
      (Ok (map WebhookHandler.to_change (default [] (items data)))) w1
| attempt_served_token data tok stored w1 b pre p :
    trace w1 = trace w ++ EQuery (SelectUserTokens u) b :: pre ++
               [EEventsList p; EQuery (UpsertSyncToken u (calendarId p) (Some tok)) stored] ->
    forallb prelude_effect pre = true ->
    sync_tokens w1 =
      (if stored then <[(u, calendarId p) := Some tok]> (sync_tokens w)
       else sync_tokens w) ->
    attempt_params env u h w p ->
    events_list env (count is_events_list (trace w)) p = Resolves data ->
    Js.or_undefined (nextSyncToken data) = Some tok ->
    attempt_outcome env u h w
      (Ok (map WebhookHandler.to_change (default [] (items data)))) w1.

(** The entries an attempt may add. *)
Definition attempt_effect (e : Effect) : bool :=
  match e with
  | EQuery _ _ | ENewDate _ | ERefreshAccessToken _ | EEventsList _ => true
  | _ => false
  end.

(** The durations of the sleeps of a trace, in order. *)
Definition sleeps (tr : list Effect) : list Z :=
  flat_map (fun e => match e with ESleep ms => [ms] | _ => [] end) tr.

(** The completed calls of [processCalendarChange] in a trace, in order. *)
Definition applications (tr : list Effect)
  : list (string * Event * ChangeType * bool) :=
  flat_map (fun e => match e with
                     | EApplied u ev c b => [(u, ev, c, b)]
                     | _ => []
                     end) tr.

(** The [UpdateConnection] statements of a trace, in order, with the flag
    telling whether the database executed them. *)
Definition status_updates (tr : list Effect)
  : list (string * ConnectionUpdates * bool) :=
  flat_map (fun e => match e with
                     | EQuery (UpdateConnection u upd) b => [(u, upd, b)]
                     | _ => []
                     end) tr.

(** The number of [true] in a list of results. *)
Definition count_true (l : list bool) : nat := length (List.filter (fun b => b) l).

(** The calls made for [changes] when their results are [results]. *)
Definition applied (u : string) (changes : list CalendarChange)
    (results : list bool) : list (string * Event * ChangeType * bool) :=
  map (fun cb : CalendarChange * bool =>
         (u, event (fst cb), changeType (fst cb), snd cb))
      (combine changes results).

(** What applying changes adds to the trace. *)
Definition sink_effect (e : Effect) : bool :=
  match e with
  | EFetch _ | EApplied _ _ _ _ => true
  | _ => false
  end.

(** The update carrying status [s] and the clock reading [now]. *)
Definition status_update (s : string) (now : Z) : ConnectionUpdates :=
  {| upd_sync_status := Some s; upd_last_sync_at := Some (Js.Date now 0) |}.

(** The next reading of the clock in world [w]. *)
Definition clock (env : Env) (w : World) : Z :=
  Date_now env (count is_new_date (trace w)).

Definition after_new_Date (env : Env) (w : World) : World :=
  log (ENewDate (Js.Date (clock env w) 0)) w.

(** The world after [new Date()] and a status update that the database
    executed. *)
Definition written (env : Env) (u s : string) (w : World) : World :=
  let upd := status_update s (clock env w) in
  log (EQuery (UpdateConnection u upd) true)
    (update_connection u upd (after_new_Date env w)).

(** The world after [new Date()] and a status update that the database
    rejected. *)
Definition unwritten (env : Env) (u s : string) (w : World) : World :=
  log (EQuery (UpdateConnection u (status_update s (clock env w))) false)
    (after_new_Date env w).

(** The status update with status [s] issued in [w] is executed. *)
Definition write_executes (env : Env) (u s : string) (w : World) : Prop :=
  executes env (after_new_Date env w)
    (UpdateConnection u (status_update s (clock env w))).

(** The database executes the status update with status [s] issued in
    [w]. *)
Definition write_executed (env : Env) (u s : string) (w : World) : bool :=
  match query_error env (count is_query (trace (after_new_Date env w)))
          (UpdateConnection u (status_update s (clock env w))) with
  | None => true
  | Some _ => false
  end.

(** The status updates of the failure handler started in [w], each with
    whether the database executed it: "error" and, after an executed
    "error", the marker "scheduled_full_sync". *)
Definition failure_updates (env : Env) (u : string) (w : World)
  : list (string * ConnectionUpdates * bool) :=
  (u, status_update "error" (clock env w), write_executed env u "error" w) ::
  (if write_executed env u "error" w then
     [(u, status_update "scheduled_full_sync"
            (clock env (written env u "error" w)),
       write_executed env u "scheduled_full_sync" (written env u "error" w))]
   else []).

(** The status written after the changes were applied. *)
Definition outcome_status (successCount total : nat) : string :=
  if (successCount =? total)%nat then "synced" else "partial_sync".

(** The list requests of a trace, in order. *)
Definition list_requests (tr : list Effect) : list ListParams :=
  flat_map (fun e => match e with EEventsList p => [p] | _ => [] end) tr.


(** The calls of [processCalendarChange] that upsert [events] as created,
    with their results. *)
Definition upserted (u : string) (events : list Event) (results : list bool)
  : list (string * Event * ChangeType * bool) :=
  map (fun eb : Event * bool => (u, fst eb, created_, snd eb))
      (combine events results).

(** The request for one page of the events of a calendar that start
    between [past] and [future]: up to 250 events, recurring events
    expanded, ordered by start time, from page token [tok] on. *)
Definition page_request (calId : string) (past future : Js.date)
    (tok : option string) : ListParams :=
  {| calendarId := calId;
     showDeleted := None;
     singleEvents := Some true;
     maxResults := 250;
     syncToken := None;
     timeMin := Some past;
     timeMax := Some future;
     orderBy := Some "startTime";
     pageToken := tok |}.

(** The request for a single result of a calendar, sent for the sync token
    of its answer. *)
Definition anchor_request (calId : string) : ListParams :=
  {| calendarId := calId;
     showDeleted := None;
     singleEvents := None;
     maxResults := 1;
     syncToken := None;
     timeMin := None;
     timeMax := None;
     orderBy := None;
     pageToken := None |}.



(** From its [bound]-th list call on, the provider hands out no page
    token. *)
Definition paging_ends (env : Env) (bound : nat) : Prop :=
  forall n p data, bound <= n -> events_list env n p = Resolves data ->
                   Js.or_undefined (nextPageToken data) = None.

(** The request for the first page of a calendar. *)
Definition is_first_page (p : ListParams) : bool :=
  (maxResults p =? 250)%Z &&
  match pageToken p with None => true | Some _ => false end.

(** ** Further vocabulary *)

(** *** Credentials *)

(** The client built from stored tokens. *)
Definition client_of_tokens (t : UserTokens) : OAuth2Client :=
  {| client_access_token := Js.Val (tok_access_token t);
     client_refresh_token :=
       match tok_refresh_token t with
       | Some r => Js.Val r
       | None => Js.Null
       end |}.

(** The client that carries refreshed credentials. *)
Definition client_of_credentials (c : Credentials) : OAuth2Client :=
  {| client_access_token := cred_access_token c;
     client_refresh_token := cred_refresh_token c |}.

(** The stored tokens of a user, as [getUserTokens] sees them. *)
Definition stored_tokens (w : World) (u : string) : option UserTokens :=
  users w !! u ≫= Db.user_tokens_of_row.

(** The access token is usable as it is at clock reading [now]: it is not
    empty and has no expiry date or one later than [now]. *)
Definition token_valid (t : UserTokens) (now : Z) : Prop :=
  Js.truthy_string (tok_access_token t) = true /\
  match tok_token_expires_at t with
  | None => True
  | Some expires => (now < expires)%Z
  end.

(** The access token is not empty and its expiry date is not later than
    the clock reading [now]. *)
Definition token_expired (t : UserTokens) (now : Z) : Prop :=
  Js.truthy_string (tok_access_token t) = true /\
  exists expires, tok_token_expires_at t = Some expires /\ (expires <= now)%Z.

(** The world after [getUserTokens] was executed. *)
Definition tokens_read (u : string) (w : World) : World :=
  log (EQuery (SelectUserTokens u) true) w.

(** The world after [getUserTokens] was executed and, when the tokens
    carry an expiry date, the clock was read. *)
Definition after_token_check (env : Env) (u : string) (t : UserTokens)
    (w : World) : World :=
  match tok_token_expires_at t with
  | None => tokens_read u w
  | Some _ => after_new_Date env (tokens_read u w)
  end.

(** What [getAuthenticatedClient] adds to the trace when it neither
    refreshes nor writes. *)
Definition token_check_effect (e : Effect) : bool :=
  is_select_user_tokens e || is_new_date e.

(** The user has no credentials to build a client from: the tokens cannot
    be read, there are none, the access token is empty, or it is expired
    and there is no refresh token. *)
Definition no_credentials (env : Env) (u : string) (w : World) : Prop :=
  ~ executes env w (SelectUserTokens u) \/
  stored_tokens w u = None \/
  exists t, stored_tokens w u = Some t /\
    (Js.truthy_string (tok_access_token t) = false \/
     (token_expired t (clock env (tokens_read u w)) /\
      usable_token (tok_refresh_token t) = None)).

(** The expiry date stored for refreshed credentials: [expiry_date] when it
    is truthy. *)
Definition stored_expiry (c : Credentials) : option Z :=
  match expiry_date c with
  | Some t => if (t =? 0)%Z then None else Some t
  | None => None
  end.

(** The statement that stores refreshed credentials. *)
Definition store_credentials (u r a : string) (c : Credentials) : Query :=
  UpdateUserTokens u a (Some (Js.or_else (cred_refresh_token c) r))
    (stored_expiry c).

(** The executed update of a user's tokens. *)
Definition set_tokens (u a : string) (r : option string) (e : option Z)
    (w : World) : World :=
  {| users := alter (Db.set_user_tokens a r e) u (users w);
     connections := connections w;
     sync_tokens := sync_tokens w;
     trace := trace w |}.

(** The [catch] block of [refreshUserToken], entered in world [w]. *)
Definition refresh_failed (env : Env) (u : string) (w : World)
  : Result (option OAuth2Client) * World :=
  match query_error env (count is_query (trace (after_new_Date env w)))
          (UpdateConnection u (status_update "error" (clock env w))) with
  | Some e => (Throw e, unwritten env u "error" w)
  | None => (Ok None, written env u "error" w)
  end.

(** *** Requests to the vault *)

(** The POST of a whole entry. *)
Definition store_request (userId : string) (entry : MemoryEntry) : HttpRequest :=
  {| url := "http://localhost:8000/memories";
     method := POST;
     body := StoreBody entry userId |}.

(** The PUT that rewrites an existing memory. *)
Definition update_request (userId : string) (entry : MemoryEntry)
    (existing : Memory) : HttpRequest :=
  {| url := "http://localhost:8000/memories/" +:+ memory_id existing;
     method := PUT;
     body := UpdateBody (content entry) (title entry) (tags entry)
               (metadata entry) userId |}.

(** The DELETE of an existing memory. *)
Definition delete_request (existing : Memory) : HttpRequest :=
  {| url := "http://localhost:8000/memories/" +:+ memory_id existing;
     method := DELETE; body := NoBody |}.

(** The request was answered, with a status in the range 200-299. *)
Definition answered_ok (answer : Settled HttpResponse) : bool :=
  match answer with
  | Resolves response => ok response
  | Rejects _ => false
  end.

(** What the lookup of a memory tells the sink. *)
Inductive Lookup : Type :=
| lookup_failed
| lookup_refused
| lookup_absent
| lookup_found (existing : Memory).

(** The lookup failed (no answer, or an answer whose JSON cannot be read
    or is [null]), was refused (an error status), found no memory, or
    found memories, of which the first counts. *)
Definition lookup_of (answer : Settled HttpResponse) : Lookup :=
  match answer with
  | Rejects _ => lookup_failed
  | Resolves response =>
      if ok response then
        match json response with
        | Rejects _ => lookup_failed
        | Resolves JsonNull => lookup_failed
        | Resolves (JsonObject (Some (existing :: _))) => lookup_found existing
        | Resolves (JsonObject _) => lookup_absent
        end
      else lookup_refused
  end.

(** The answer to the next request to the vault. *)
Definition next_answer (env : Env) (w : World) (req : HttpRequest)
  : Settled HttpResponse :=
  http_fetch env (count is_fetch (trace w)) req.

(** The entry built for an event when the presentation layer returns
    [text] and [eventTags]. *)
Definition entry_of (ev : Event) (c : ChangeType) (text : string)
    (eventTags : list string) : MemoryEntry :=
  {| content := text;
     title := "Calendar Event: " +:+ Js.or_else (summary ev) "Untitled Event";
     memory_type := "CALENDAR_EVENT";
     source := "GOOGLE_CALENDAR";
     tags := eventTags;
     metadata :=
       {| event_id := id ev;
          change_type := ChangeType_to_string c;
          last_modified := Js.or_else (updated ev) "";
          metadata_status := Js.or_else (status ev) "" |};
     is_private := true |}.

(** The sequences of HTTP methods a change of each type may cause. *)
Definition methods_for (c : ChangeType) : list (list Method) :=
  match c with
  | created_ => [[]; [POST]]
  | updated_ => [[]; [GET]; [GET; PUT]; [GET; POST]; [GET; PUT; POST]]
  | deleted_ => [[GET]; [GET; DELETE]]
  end.

(** A request that belongs to the change [c] of event [ev] of user [u]:
    the lookup searches the memories of the user for the event id, a
    stored or rewritten entry carries the user id and the event id, a
    stored entry is private, and a PUT or DELETE names one memory. *)
Definition keyed (u : string) (ev : Event) (c : ChangeType) (req : HttpRequest)
  : Prop :=
  match method req, body req with
  | GET, NoBody =>
      url req = "http://localhost:8000/memories/search?user_id=" +:+ u
                  +:+ "&query=event_id:" +:+ id_text (id ev) +:+ "&limit=1"
  | DELETE, NoBody =>
      c = deleted_ /\
      exists memoryId, url req = "http://localhost:8000/memories/" +:+ memoryId
  | POST, StoreBody entry uid =>
      uid = u /\ event_id (metadata entry) = id ev /\
      change_type (metadata entry) = ChangeType_to_string c /\
      is_private entry = true /\
      url req = "http://localhost:8000/memories"
  | PUT, UpdateBody _ _ _ md uid =>
      uid = u /\ event_id md = id ev /\ c = updated_ /\
      exists memoryId, url req = "http://localhost:8000/memories/" +:+ memoryId
  | _, _ => False
  end.

(** A request to the vault raises an error when the call of [fetch] is
    rejected, and a lookup also when its answer has a success status and a
    body that cannot be read. *)
Definition raises (answer : Settled HttpResponse) (req : HttpRequest) : Prop :=
  match answer with
  | Rejects _ => True
  | Resolves response =>
      method req = GET /\ ok response = true /\
      exists e, json response = Rejects e
  end.

(** Every error raised by one of the requests [reqs], sent from [w] on, is
    answered with [false]. *)
Definition errors_caught (env : Env) (w : World) (reqs : list HttpRequest)
    (b : bool) : Prop :=
  forall i req,
    reqs !! i = Some req ->
    raises (http_fetch env (count is_fetch (trace w) + i) req) req ->
    b = false.

(** What a call of the sink for one entry does: the result, the requests it
    adds and the tables it leaves alone. *)
Record sink_run (env : Env) (w : World) (P : HttpRequest -> Prop)
    (allowed : list (list Method)) (b : bool) (w1 : World) : Prop := {
  sink_tables : same_tables w w1;
  sink_trace : exists reqs,
    trace w1 = trace w ++ map EFetch reqs /\
    In (map method reqs) allowed /\
    Forall P reqs /\
    (b = true ->
     exists init req,
       reqs = init ++ [req] /\
       answered_ok (http_fetch env (count is_fetch (trace w) + length init) req)
         = true)
}.

(** *** Resource locators *)

(** The string contains no slash. *)
Fixpoint slash_free (s : string) : bool :=
  match s with
  | EmptyString => true
  | String c s' => negb (Ascii.eqb c "/"%char) && slash_free s'
  end.

(** [s] contains a match of [calendars\/([^\/]+)\/events] whose group is
    [seg]. *)
Definition locates (s seg : string) : Prop :=
  seg <> EmptyString /\ slash_free seg = true /\
  exists pre post,
    s = pre +:+ "calendars/" +:+ seg +:+ "/events" +:+ post.

(** The locator Google sends for the events of a calendar. *)
Definition events_locator (calendarId query : string) : string :=
  "https://www.googleapis.com/calendar/v3/calendars/" +:+ calendarId
    +:+ "/events" +:+ query.

(** *** The incremental fetch *)

(** The text by which the provider announces a rejected sync token. *)
Definition rejection_notice : string := "Sync token is no longer valid".

(** A list request of the incremental fetch: one page of at most 250
    events, deleted events included, recurring events expanded; it carries
    either a sync token or a lower time bound, and never a page token. *)
Definition incremental_request (p : ListParams) : Prop :=
  pageToken p = None /\ maxResults p = 250%Z /\
  showDeleted p = Some true /\ singleEvents p = Some true /\
  timeMax p = None /\ orderBy p = None /\
  (syncToken p = None <-> timeMin p <> None).

(** Trace entries of the incremental fetch. *)
Definition fetch_effect (e : Effect) : bool :=
  match e with
  | EEventsList p =>
      bool_decide (p = {| calendarId := calendarId p;
                          showDeleted := Some true;
                          singleEvents := Some true;
                          maxResults := 250;
                          syncToken := syncToken p;
                          timeMin := timeMin p;
                          timeMax := None;
                          orderBy := None;
                          pageToken := None |}) &&
      match syncToken p, timeMin p with
      | Some _, None | None, Some _ => true
      | _, _ => false
      end
  | EFetch _ | EApplied _ _ _ _ | ECalendarList => false
  | _ => true
  end.

(** *** Outcomes of a run *)

(** The [catch] block of [performFullSync], entered in world [w]. *)
Definition full_sync_failed (env : Env) (u : string) (w : World)
  : Result bool * World :=
  match query_error env (count is_query (trace (after_new_Date env w)))
          (UpdateConnection u (status_update "error" (clock env w))) with
  | Some e => (Throw e, unwritten env u "error" w)
  | None => (Ok false, written env u "error" w)
  end.

(** The database rejects, with [e], the update that would record status
    [s] in world [w]. *)
Definition write_rejected (env : Env) (u s : string) (w : World) (e : Js.error)
  : Prop :=
  query_error env (count is_query (trace (after_new_Date env w)))
    (UpdateConnection u (status_update s (clock env w))) = Some e.

(** The database executes every statement. *)
Definition database_healthy (env : Env) : Prop :=
  forall n q, query_error env n q = None.

(** The access token is not empty and does not expire at any reading of
    the clock. *)
Definition never_expires (env : Env) (t : UserTokens) : Prop :=
  Js.truthy_string (tok_access_token t) = true /\
  match tok_token_expires_at t with
  | None => True
  | Some expires => forall n, (Date_now env n < expires)%Z
  end.

(** *** The rows a run may touch *)

(** The statuses the synchronisation engine writes. *)
Definition engine_statuses : list string :=
  ["synced"; "partial_sync"; "error"; "scheduled_full_sync"].

(** What a computation run for user [u] may do to the tables: the rows of
    the other users stay as they are, no row of [users] or of
    [user_calendar_connections] appears or disappears, the e-mail address
    of [u] stays, and the connection of [u] is as before or carries a
    status of the engine. *)
Record footprint (u : string) (w w' : World) : Prop := {
  other_users : forall u', u' <> u -> users w' !! u' = users w !! u';
  other_connections :
    forall u', u' <> u -> connections w' !! u' = connections w !! u';
  other_sync_tokens :
    forall u' c, u' <> u -> sync_tokens w' !! (u', c) = sync_tokens w !! (u', c);
  same_user_rows :
    forall u', is_Some (users w' !! u') <-> is_Some (users w !! u');
  same_connection_rows :
    forall u', is_Some (connections w' !! u') <-> is_Some (connections w !! u');
  own_email : email <$> users w' !! u = email <$> users w !! u;
  own_status :
    connections w' !! u = connections w !! u \/
    exists row, connections w' !! u = Some row /\
                In (sync_status row) engine_statuses
}.

(** * Part III: scenarios *)

(** Concrete collaborators and worlds, used to run the engine. *)

Module Scenario.

Definition no_events : EventsData :=
  {| items := Some []; nextSyncToken := Js.Undefined;
     nextPageToken := Js.Undefined |}.

(** Every collaborator is available; the provider reports no change. *)
Definition quiet : Env :=
  {| query_error := fun _ _ => None;
     refreshAccessToken := fun _ _ => Rejects (Js.new_Error "invalid_grant");
     calendarList_list := fun _ => Resolves {| calendar_items := Some ["primary"] |};
     events_list := fun _ _ => Resolves no_events;
     http_fetch := fun _ _ =>
       Resolves {| ok := true; json := Resolves (JsonObject (Some [])) |};
     Date_now := fun n => (1700000000000 + Z.of_nat n)%Z;
     decodeURIComponent := fun s => Resolves s;
     generateMemoryContent := fun ev =>
       Resolves (Js.or_else (summary ev) "Untitled Event");
     generateEventTags := fun _ => Resolves ["calendar"; "event"; "schedule"] |}.

(** [quiet] with another provider. *)
Definition with_events_list (f : nat -> ListParams -> Settled EventsData)
  : Env :=
  {| query_error := query_error quiet;
     refreshAccessToken := refreshAccessToken quiet;
     calendarList_list := calendarList_list quiet;
     events_list := f;
     http_fetch := http_fetch quiet;
     Date_now := Date_now quiet;
     decodeURIComponent := decodeURIComponent quiet;
     generateMemoryContent := generateMemoryContent quiet;
     generateEventTags := generateEventTags quiet |}.

(** [quiet] with a presentation layer that throws on every event. *)
Definition broken_converter : Env :=
  {| query_error := query_error quiet;
     refreshAccessToken := refreshAccessToken quiet;
     calendarList_list := calendarList_list quiet;
     events_list := events_list quiet;
     http_fetch := http_fetch quiet;
     Date_now := Date_now quiet;
     decodeURIComponent := decodeURIComponent quiet;
     generateMemoryContent := fun _ =>
       Rejects (Js.new_Error "Cannot read properties of null (reading 'map')");
     generateEventTags := generateEventTags quiet |}.

(** [quiet] with a vault that answers as [f] says. *)
Definition with_http_fetch (f : nat -> HttpRequest -> Settled HttpResponse)
  : Env :=
  {| query_error := query_error quiet;
     refreshAccessToken := refreshAccessToken quiet;
     calendarList_list := calendarList_list quiet;
     events_list := events_list quiet;
     http_fetch := f;
     Date_now := Date_now quiet;
     decodeURIComponent := decodeURIComponent quiet;
     generateMemoryContent := generateMemoryContent quiet;
     generateEventTags := generateEventTags quiet |}.

(** The vault cannot be reached. *)
Definition vault_down : Env :=
  with_http_fetch (fun _ _ => Rejects (Js.new_Error "fetch failed")).

Definition alice_row : UserRow :=
  {| access_token := Some "ya29.a0";
     refresh_token := Some "1//0g";
     token_expires_at := None;
     email := "alice@example.org" |}.

(** Alice is connected and has synchronised her primary calendar before. *)
Definition alice_world : World :=
  {| users := {[ "alice" := alice_row ]};
     connections := {[ "alice" := {| sync_status := "active";
                                     last_sync_at := None |} ]};
     sync_tokens := {[ ("alice", "primary") := Some "CPDAlvWDx70CEPDAlvWDx70CGAU=" ]};
     trace := [] |}.

Definition primary_headers : GoogleWebhookHeaders :=
  {| resourceId := "ret08u3rv24htgh289g";
     resourceUri :=
       "https://www.googleapis.com/calendar/v3/calendars/primary/events?alt=json";
     channelId := "4ba78bf0-6a47-11e2-bcfd-0800200c9a66";
     channelToken := None;
     channelExpiration := None |}.

Definition cancelled_event : Event :=
  {| id := Js.Val "ev1"; status := Js.Val "cancelled";
     created := Js.Val "2024-01-01T00:00:00.000Z";
     updated := Js.Val "2024-01-01T00:00:00.000Z";
     summary := Js.Undefined |}.

Definition fresh_event : Event :=
  {| id := Js.Val "ev2"; status := Js.Val "confirmed";
     created := Js.Val "2024-01-01T00:00:00.000Z";
     updated := Js.Val "2024-01-01T00:00:00.000Z";
     summary := Js.Val "standup" |}.

Definition edited_event : Event :=
  {| id := Js.Val "ev3"; status := Js.Val "confirmed";
     created := Js.Val "2024-01-01T00:00:00.000Z";
     updated := Js.Val "2024-02-01T09:30:00.000Z";
     summary := Js.Val "standup" |}.

Definition backend_error : Js.error :=
  {| Js.err_code := Js.NumCode 503; Js.err_message := Js.Val "Backend Error" |}.

Definition one_change : EventsData :=
  {| items := Some [fresh_event];
     nextSyncToken := Js.Val "CJjA7vWDx70CEJjA7vWDx70CGAU=";
     nextPageToken := Js.Undefined |}.

(** The provider fails twice with a server error, then reports a change. *)
Definition flaky : Env :=
  with_events_list
    (fun n _ =>
       match n with
       | 0 | 1 => Rejects backend_error
       | _ => Resolves one_change
       end).

Definition flaky_first : Result (list CalendarChange) * World :=
  WebhookHandler.fetch_attempt "alice" primary_headers flaky alice_world.

Definition flaky_second : Result (list CalendarChange) * World :=
  WebhookHandler.fetch_attempt "alice" primary_headers flaky
    (log (ESleep (2 ^ 1 * 1000)) (snd flaky_first)).

Definition flaky_third : Result (list CalendarChange) * World :=
  WebhookHandler.fetch_attempt "alice" primary_headers flaky
    (log (ESleep (2 ^ 2 * 1000)) (snd flaky_second)).

Definition gone : Js.error :=
  {| Js.err_code := Js.NumCode 410;
     Js.err_message :=
       Js.Val "Sync token is no longer valid, a full sync is required." |}.

(** The provider rejects every request that carries a sync token and
    answers the others. *)
Definition expired_token : Env :=
  with_events_list
    (fun _ p =>
       match syncToken p with
       | Some _ => Rejects gone
       | None => Resolves one_change
       end).

Definition expired_first : Result (list CalendarChange) * World :=
  WebhookHandler.fetch_attempt "alice" primary_headers expired_token alice_world.

(** The feed is unchanged, but the provider hands out a new token. *)
Definition unchanged_feed : Env :=
  with_events_list
    (fun _ _ =>
       Resolves {| items := Some [];
                   nextSyncToken := Js.Val "CKi2kvaDx70CEKi2kvaDx70CGAU=";
                   nextPageToken := Js.Undefined |}).

(** The provider reports one new event on every call. *)
Definition steady : Env := with_events_list (fun _ _ => Resolves one_change).

(** The provider answers every call with a server error. *)
Definition provider_down : Env :=
  with_events_list (fun _ _ => Rejects backend_error).

Definition two_changes : EventsData :=
  {| items := Some [fresh_event; edited_event];
     nextSyncToken := Js.Val "CLDUpvaDx70CELDUpvaDx70CGAU=";
     nextPageToken := Js.Undefined |}.

(** The provider reports a new and an edited event; the vault accepts what
    is posted to it but its search cannot be reached. *)
Definition search_down : Env :=
  {| query_error := query_error quiet;
     refreshAccessToken := refreshAccessToken quiet;
     calendarList_list := calendarList_list quiet;
     events_list := fun _ _ => Resolves two_changes;
     http_fetch := fun _ req =>
       match method req with
       | GET => Rejects (Js.new_Error "read ECONNRESET")
       | _ => Resolves {| ok := true; json := Resolves (JsonObject None) |}
       end;
     Date_now := Date_now quiet;
     decodeURIComponent := decodeURIComponent quiet;
     generateMemoryContent := generateMemoryContent quiet;
     generateEventTags := generateEventTags quiet |}.

Definition steady_fetch : Result (list CalendarChange) * World :=
  WebhookHandler.fetchIncrementalChanges "alice" primary_headers steady
    alice_world.

Definition steady_run : Result unit * World :=
  WebhookHandler.doProcessWebhook "alice" primary_headers steady alice_world.

Definition quiet_fetch : Result (list CalendarChange) * World :=
  WebhookHandler.fetchIncrementalChanges "alice" primary_headers quiet
    alice_world.

Definition quiet_run : Result unit * World :=
  WebhookHandler.doProcessWebhook "alice" primary_headers quiet alice_world.

Definition provider_down_fetch : Result (list CalendarChange) * World :=
  WebhookHandler.fetchIncrementalChanges "alice" primary_headers provider_down
    alice_world.

Definition provider_down_run : Result unit * World :=
  WebhookHandler.doProcessWebhook "alice" primary_headers provider_down
    alice_world.







Definition connection_terminated : Js.error :=
  Js.new_Error "Connection terminated unexpectedly".

(** The provider is down and the database rejects status updates. *)
Definition status_unwritable : Env :=
  {| query_error := fun _ q =>
       match q with
       | UpdateConnection _ _ => Some connection_terminated
       | _ => None
       end;
     refreshAccessToken := refreshAccessToken quiet;
     calendarList_list := calendarList_list quiet;
     events_list := fun _ _ => Rejects backend_error;
     http_fetch := http_fetch quiet;
     Date_now := Date_now quiet;
     decodeURIComponent := decodeURIComponent quiet;
     generateMemoryContent := generateMemoryContent quiet;
     generateEventTags := generateEventTags quiet |}.

(** The provider rejects every request that carries a sync token, and the
    database rejects the statements that write NULL over a stored token. *)
Definition clear_rejected : Env :=
  {| query_error := fun _ q =>
       match q with
       | UpsertSyncToken _ _ None => Some connection_terminated
       | _ => None
       end;
     refreshAccessToken := refreshAccessToken quiet;
     calendarList_list := calendarList_list quiet;
     events_list := events_list expired_token;
     http_fetch := http_fetch quiet;
     Date_now := Date_now quiet;
     decodeURIComponent := decodeURIComponent quiet;
     generateMemoryContent := generateMemoryContent quiet;
     generateEventTags := generateEventTags quiet |}.

Definition clear_rejected_fetch : Result (list CalendarChange) * World :=
  WebhookHandler.fetchIncrementalChanges "alice" primary_headers clear_rejected
    alice_world.

Definition alice_key : string :=
  Dispatcher.processingKey "alice" primary_headers.

(** A webhook is being processed for Alice's channel. *)
Definition one_trigger : list Dispatcher.Action :=
  [Dispatcher.Trigger "alice" primary_headers].

(** The run for Alice's channel has completed; its caller has not resumed
    yet. *)
Definition completed : list Dispatcher.Action :=
  [Dispatcher.Trigger "alice" primary_headers; Dispatcher.Settle 0].

Definition alice_run (st : Dispatcher.PromiseState) : Dispatcher.Run :=
  {| Dispatcher.run_userId := "alice";
     Dispatcher.run_headers := primary_headers;
     Dispatcher.run_state := st |}.

End Scenario.

(** Further worlds and collaborators. *)

Module Cases.

(** Alice's access token expired at [1690000000000]. *)
Definition stale_row : UserRow :=
  {| access_token := Some "ya29.a0";
     refresh_token := Some "1//0g";
     token_expires_at := Some 1690000000000%Z;
     email := "alice@example.org" |}.

Definition stale_world : World :=
  {| users := {[ "alice" := stale_row ]};
     connections := connections Scenario.alice_world;
     sync_tokens := sync_tokens Scenario.alice_world;
     trace := [] |}.

Definition renewed : Credentials :=
  {| cred_access_token := Js.Val "ya29.b1";
     cred_refresh_token := Js.Undefined;
     expiry_date := Some 1700003600000%Z |}.

(** The provider renews access tokens. *)
Definition renewing : Env :=
  {| query_error := query_error Scenario.quiet;
     refreshAccessToken := fun _ _ => Resolves renewed;
     calendarList_list := calendarList_list Scenario.quiet;
     events_list := events_list Scenario.quiet;
     http_fetch := http_fetch Scenario.quiet;
     Date_now := Date_now Scenario.quiet;
     decodeURIComponent := decodeURIComponent Scenario.quiet;
     generateMemoryContent := generateMemoryContent Scenario.quiet;
     generateEventTags := generateEventTags Scenario.quiet |}.

(** The vault knows a memory for every event. *)
Definition known_memory : Memory := {| memory_id := "mem-42" |}.

Definition vault_with_memory : Env :=
  Scenario.with_http_fetch
    (fun _ req =>
       match method req with
       | GET => Resolves {| ok := true;
                            json := Resolves (JsonObject (Some [known_memory])) |}
       | _ => Resolves {| ok := true; json := Resolves (JsonObject None) |}
       end).

Definition standup_entry : MemoryEntry :=
  entry_of Scenario.edited_event updated_ "standup"
    ["calendar"; "event"; "schedule"].

(** Alice and Carol are both connected. *)
Definition carol_row : UserRow :=
  {| access_token := Some "ya29.c7";
     refresh_token := Some "1//0c";
     token_expires_at := None;
     email := "carol@example.org" |}.

Definition shared_world : World :=
  {| users := <[ "carol" := carol_row ]> (users Scenario.alice_world);
     connections :=
       <[ "carol" := {| sync_status := "active"; last_sync_at := None |} ]>
         (connections Scenario.alice_world);
     sync_tokens :=
       <[ ("carol", "primary") := Some "CIjRmfWDx70CEIjRmfWDx70CGAU=" ]>
         (sync_tokens Scenario.alice_world);
     trace := [] |}.

(** A notification about the calendar [work], for which no token is
    stored. *)
Definition work_headers : GoogleWebhookHeaders :=
  {| resourceId := "o3hgv1538sdjfh";
     resourceUri :=
       "https://www.googleapis.com/calendar/v3/calendars/work/events?alt=json";
     channelId := "01234567-89ab-cdef-0123456789ab";
     channelToken := None;
     channelExpiration := None |}.

End Cases.

(** * Part IV: properties *)

Open Scope list_scope.

(** ** The change classifier *)

Lemma strict_eq_true {A} `{EqDecision A} (a b : Js.opt A) :
  Js.strict_eq a b = true <-> a = b.
Proof. unfold Js.strict_eq. apply bool_decide_eq_true. Qed.

Lemma strict_eq_false {A} `{EqDecision A} (a b : Js.opt A) :
  Js.strict_eq a b = false <-> a <> b.
Proof. unfold Js.strict_eq. apply bool_decide_eq_false. Qed.

(** C4.  The classifier answers [deleted] for every event whose status is
    the string "cancelled", whatever its timestamps; [created] for every
    other event whose [created] and [updated] properties are equal; and
    [updated] for all remaining events. *)
Theorem determineChangeType_classifies (ev : Event) :
  (status ev = Js.Val "cancelled" ->
     WebhookHandler.determineChangeType ev = deleted_) /\
  (status ev <> Js.Val "cancelled" -> created ev = updated ev ->
     WebhookHandler.determineChangeType ev = created_) /\
  (status ev <> Js.Val "cancelled" -> created ev <> updated ev ->
     WebhookHandler.determineChangeType ev = updated_).
Proof.
  unfold WebhookHandler.determineChangeType. repeat split.
  - intros Hs. apply strict_eq_true in Hs. now rewrite Hs.
  - intros Hs Ht. apply strict_eq_false in Hs. apply strict_eq_true in Ht.
    now rewrite Hs, Ht.
  - intros Hs Ht. apply strict_eq_false in Hs. apply strict_eq_false in Ht.
    now rewrite Hs, Ht.
Qed.

Lemma determineChangeType_classifies_witness :
  WebhookHandler.determineChangeType Scenario.cancelled_event = deleted_ /\
  WebhookHandler.determineChangeType Scenario.fresh_event = created_ /\
  WebhookHandler.determineChangeType Scenario.edited_event = updated_.
Proof.
  split; [|split].
  - apply (determineChangeType_classifies Scenario.cancelled_event). reflexivity.
  - apply (determineChangeType_classifies Scenario.fresh_event);
      [discriminate | reflexivity].
  - apply (determineChangeType_classifies Scenario.edited_event); discriminate.
Defined.

(** ** Running the monad *)

Lemma run_bind {A B} (m : M A) (k : A -> M B) env w :
  (m ≫= k) env w =
    match m env w with
    | (Ok a, w') => k a env w'
    | (Throw e, w') => (Throw e, w')
    | (Diverges, w') => (Diverges, w')
    end.
Proof. reflexivity. Qed.

Lemma run_try_catch {A} (m : M A) (h : Js.error -> M A) env w :
  try_catch m h env w =
    match m env w with
    | (Throw e, w') => h e env w'
    | r => r
    end.
Proof. reflexivity. Qed.

(** *** Relations kept by every step of a computation *)

Section Respects.

Context (R : relation World) `{!PreOrder R}.

Lemma respects_ret {A} (a : A) : respects R (mret a).
Proof. intros env w. simpl. reflexivity. Qed.

Lemma respects_throw {A} e : respects R (@throw A e).
Proof. intros env w. simpl. reflexivity. Qed.

Lemma respects_diverge {A} : respects R (@diverge A).
Proof. intros env w. simpl. reflexivity. Qed.

Lemma respects_lift {A} (r : Settled A) : respects R (lift r).
Proof. intros env w. simpl. reflexivity. Qed.

Lemma respects_ask : respects R ask.
Proof. intros env w. simpl. reflexivity. Qed.

Lemma respects_bind {A B} (m : M A) (k : A -> M B) :
  respects R m -> (forall a, respects R (k a)) -> respects R (m ≫= k).
Proof.
  intros Hm Hk env w. rewrite run_bind. specialize (Hm env w).
  destruct (m env w) as [[a|e|] w1]; simpl in *; try exact Hm.
  etransitivity; [exact Hm | apply Hk].
Qed.

Lemma respects_try_catch {A} (m : M A) (h : Js.error -> M A) :
  respects R m -> (forall e, respects R (h e)) -> respects R (try_catch m h).
Proof.
  intros Hm Hh env w. rewrite run_try_catch. specialize (Hm env w).
  destruct (m env w) as [[a|e|] w1]; simpl in *; try exact Hm.
  etransitivity; [exact Hm | apply Hh].
Qed.

End Respects.

Lemma total_ret {A} (a : A) : total (mret a).
Proof. intros env w. now exists a. Qed.

Lemma total_bind {A B} (m : M A) (k : A -> M B) :
  total m -> (forall a, total (k a)) -> total (m ≫= k).
Proof.
  intros Hm Hk env w. rewrite run_bind. destruct (Hm env w) as [a Ha].
  destruct (m env w) as [r w1]. simpl in Ha. subst r. apply Hk.
Qed.

Lemma total_terminates {A} (m : M A) : total m -> terminates m.
Proof. intros H env w. destruct (H env w) as [a Ha]. now rewrite Ha. Qed.

Lemma terminates_ret {A} (a : A) : terminates (mret a).
Proof. apply total_terminates, total_ret. Qed.

Lemma terminates_throw {A} e : terminates (@throw A e).
Proof. intros env w. discriminate. Qed.

Lemma terminates_lift {A} (r : Settled A) : terminates (lift r).
Proof. intros env w. destruct r; discriminate. Qed.

Lemma terminates_bind {A B} (m : M A) (k : A -> M B) :
  terminates m -> (forall a, terminates (k a)) -> terminates (m ≫= k).
Proof.
  intros Hm Hk env w. rewrite run_bind. specialize (Hm env w).
  destruct (m env w) as [[a|e|] w1]; simpl in *;
    [apply Hk | discriminate | congruence].
Qed.

Lemma terminates_try_catch {A} (m : M A) (h : Js.error -> M A) :
  terminates m -> (forall e, terminates (h e)) -> terminates (try_catch m h).
Proof.
  intros Hm Hh env w. rewrite run_try_catch. specialize (Hm env w).
  destruct (m env w) as [[a|e|] w1]; simpl in *;
    [discriminate | apply Hh | congruence].
Qed.

(** A [try] whose handler always returns a value returns a value. *)
Lemma total_try_catch {A} (m : M A) (h : Js.error -> M A) :
  terminates m -> (forall e, total (h e)) -> total (try_catch m h).
Proof.
  intros Hm Hh env w. rewrite run_try_catch. specialize (Hm env w).
  destruct (m env w) as [[a|e|] w1]; simpl in *;
    [now exists a | apply Hh | congruence].
Qed.

Lemma terminates_ask : terminates ask.
Proof. intros env w. discriminate. Qed.

Lemma terminates_fetch req : terminates (fetch req).
Proof. intros env w. unfold fetch. simpl. now destruct (http_fetch _ _ _). Qed.

Lemma terminates_pool_query {A} q run (rows : World -> A) :
  terminates (pool_query q run rows).
Proof. intros env w. unfold pool_query. now destruct (query_error _ _ _). Qed.

Lemma terminates_new_Date : terminates new_Date.
Proof. intros env w. discriminate. Qed.

Lemma terminates_sleep ms : terminates (sleep ms).
Proof. intros env w. discriminate. Qed.

Lemma terminates_events_list p : terminates (calendar_events_list p).
Proof.
  intros env w. unfold calendar_events_list. simpl. now destruct (events_list _ _ _).
Qed.

Lemma terminates_calendarList : terminates calendar_calendarList_list.
Proof.
  intros env w. unfold calendar_calendarList_list. simpl.
  now destruct (calendarList_list _ _).
Qed.

Lemma terminates_refresh r : terminates (client_refreshAccessToken r).
Proof.
  intros env w. unfold client_refreshAccessToken. simpl.
  now destruct (refreshAccessToken _ _ _).
Qed.

Create HintDb terminates.

#[export] Hint Resolve terminates_ret terminates_throw terminates_lift
  terminates_ask terminates_fetch terminates_pool_query terminates_new_Date
  terminates_sleep terminates_events_list terminates_calendarList
  terminates_refresh total_ret : terminates.

(** Breaks a goal [terminates m] or [total m] along the structure of [m]. *)
Ltac step_terminates :=
  lazymatch goal with
  | |- terminates (mbind _ _) => apply terminates_bind; [| intros ?]
  | |- terminates (try_catch _ _) => apply terminates_try_catch; [| intros ?]
  | |- total (try_catch _ _) => apply total_try_catch; [| intros ?]
  | |- total (mbind _ _) => apply total_bind; [| intros ?]
  | |- terminates (match ?x with _ => _ end) => destruct x
  | |- total (match ?x with _ => _ end) => destruct x
  | |- _ => solve [auto with terminates]
  end.

Ltac solve_terminates := repeat step_terminates.

(** ** The downstream sink *)

Lemma total_record_applied u ev c b :
  total (MemoryCalendarSync.record_applied u ev c b).
Proof. intros env w. now exists tt. Qed.

Lemma terminates_storeInMemoryVault u entry :
  terminates (MemoryCalendarSync.storeInMemoryVault u entry).
Proof. unfold MemoryCalendarSync.storeInMemoryVault. solve_terminates. Qed.

#[export] Hint Resolve terminates_storeInMemoryVault : terminates.

Lemma terminates_updateInMemoryVault u entry :
  terminates (MemoryCalendarSync.updateInMemoryVault u entry).
Proof.
  unfold MemoryCalendarSync.updateInMemoryVault. solve_terminates.
Qed.

#[export] Hint Resolve terminates_updateInMemoryVault : terminates.

Lemma terminates_removeFromMemoryVault u eventId :
  terminates (MemoryCalendarSync.removeFromMemoryVault u eventId).
Proof. unfold MemoryCalendarSync.removeFromMemoryVault. solve_terminates. Qed.

#[export] Hint Resolve terminates_removeFromMemoryVault : terminates.

Lemma terminates_convertEventToMemory ev c :
  terminates (MemoryCalendarSync.convertEventToMemory ev c).
Proof. unfold MemoryCalendarSync.convertEventToMemory. solve_terminates. Qed.

#[export] Hint Resolve terminates_convertEventToMemory : terminates.

Lemma total_processCalendarChange_body u ev c :
  total (MemoryCalendarSync.processCalendarChange_body u ev c).
Proof. unfold MemoryCalendarSync.processCalendarChange_body. solve_terminates. Qed.

(** C9.  The lookup of the memory of an event is a GET of the search
    endpoint of the vault, keyed by the user id and the event id.  When the
    vault answers it successfully and reports no memory (the [memories]
    property is absent or empty), [removeFromMemoryVault] returns [true];
    the lookup is the only request it sends, so nothing is deleted and the
    tables are untouched.  The same holds for the delete arriving again:
    both calls return [true] and only the two lookups are sent. *)
Theorem removeFromMemoryVault_absent_succeeds
    (userId : string) (eventId : Js.opt string) (env : Env) (w : World)
    (found : option (list Memory)) :
  let lookup :=
    {| url := "http://localhost:8000/memories/search?user_id=" +:+ userId
                +:+ "&query=event_id:" +:+ id_text eventId +:+ "&limit=1";
       method := GET; body := NoBody |} in
  http_fetch env (count is_fetch (trace w)) lookup
    = Resolves {| ok := true; json := Resolves (JsonObject found) |} ->
  default [] found = [] ->
  MemoryCalendarSync.removeFromMemoryVault userId eventId env w
    = (Ok true, log (EFetch lookup) w) /\
  (http_fetch env (S (count is_fetch (trace w))) lookup
     = Resolves {| ok := true; json := Resolves (JsonObject found) |} ->
   (MemoryCalendarSync.removeFromMemoryVault userId eventId;;
    MemoryCalendarSync.removeFromMemoryVault userId eventId) env w
     = (Ok true, log (EFetch lookup) (log (EFetch lookup) w))).
Proof.
  intros lookup. change lookup with (search_request userId eventId).
  clear lookup. intros Hfetch Hnone.
  assert (Hone : forall w0,
    http_fetch env (count is_fetch (trace w0)) (search_request userId eventId)
      = Resolves {| ok := true; json := Resolves (JsonObject found) |} ->
    MemoryCalendarSync.removeFromMemoryVault userId eventId env w0
      = (Ok true, log (EFetch (search_request userId eventId)) w0)).
  { intros w0 H0. unfold MemoryCalendarSync.removeFromMemoryVault.
    rewrite run_try_catch, run_bind. unfold fetch.
    change {| url := MemoryCalendarSync.search_url userId eventId;
              method := GET; body := NoBody |}
      with (search_request userId eventId).
    rewrite H0. simpl.
    destruct found as [[|m ms]|]; simpl in Hnone; try discriminate; reflexivity. }
  split; [now apply Hone |].
  intros Hagain. rewrite run_bind, (Hone w Hfetch). apply Hone.
  unfold log, count. simpl. rewrite List.filter_app, length_app. simpl.
  replace (length (List.filter is_fetch (trace w)) + 1) with
    (S (count is_fetch (trace w))) by (unfold count; lia).
  exact Hagain.
Qed.

Lemma removeFromMemoryVault_absent_succeeds_witness :
  (MemoryCalendarSync.removeFromMemoryVault "alice" (Js.Val "ev1");;
   MemoryCalendarSync.removeFromMemoryVault "alice" (Js.Val "ev1"))
    Scenario.quiet Scenario.alice_world
    = (Ok true,
       log (EFetch {| url := "http://localhost:8000/memories/search?user_id=alice&query=event_id:ev1&limit=1";
                      method := GET; body := NoBody |})
         (log (EFetch {| url := "http://localhost:8000/memories/search?user_id=alice&query=event_id:ev1&limit=1";
                      method := GET; body := NoBody |})
            Scenario.alice_world)).
Proof.
  pose proof (removeFromMemoryVault_absent_succeeds "alice" (Js.Val "ev1")
                Scenario.quiet Scenario.alice_world (Some [])) as H.
  cbv zeta in H. destruct (H eq_refl eq_refl) as [_ Htwice].
  apply Htwice. reflexivity.
Defined.

(** ** What a computation adds to the trace *)

#[global] Instance appends_preorder allowed : PreOrder (appends allowed).
Proof.
  split.
  - intros w. exists []. now rewrite app_nil_r.
  - intros w1 w2 w3 (s1 & H1 & A1) (s2 & H2 & A2). exists (s1 ++ s2). split.
    + now rewrite H2, H1, app_assoc.
    + rewrite forallb_app. now rewrite A1, A2.
Qed.

#[global] Instance same_sync_tokens_preorder : PreOrder same_sync_tokens.
Proof. split; unfold same_sync_tokens; [easy | intros x y z; congruence]. Qed.

#[global] Instance same_tables_preorder : PreOrder same_tables.
Proof.
  split; unfold same_tables; [easy |].
  intros x y z (? & ? & ?) (? & ? & ?). repeat split; congruence.
Qed.

Lemma appends_log allowed e w : allowed e = true -> appends allowed w (log e w).
Proof. intros H. exists [e]. simpl. now rewrite H. Qed.

Lemma appends_weaken (a1 a2 : Effect -> bool) w w' :
  (forall e, a1 e = true -> a2 e = true) -> appends a1 w w' -> appends a2 w w'.
Proof.
  intros Hsub (sfx & Ht & Ha). exists sfx. split; [exact Ht |].
  rewrite forallb_forall in *. auto.
Qed.

Lemma count_app kind (l1 l2 : list Effect) :
  count kind (l1 ++ l2) = count kind l1 + count kind l2.
Proof. unfold count. now rewrite List.filter_app, length_app. Qed.

Lemma count_log kind e w :
  count kind (trace (log e w)) = count kind (trace w) + (if kind e then 1 else 0).
Proof. simpl. rewrite count_app. unfold count. simpl. now destruct (kind e). Qed.

Lemma count_none kind (l : list Effect) :
  forallb (fun e => negb (kind e)) l = true -> count kind l = 0.
Proof.
  unfold count. induction l as [|e l IH]; simpl; [easy |].
  intros H. apply andb_prop in H as [He Hl]. destruct (kind e); [discriminate |].
  now apply IH.
Qed.

(** *** The calls to the collaborators *)

Section Primitives.

Context (allowed : Effect -> bool).

Lemma appends_new_Date :
  (forall d, allowed (ENewDate d) = true) -> respects (appends allowed) new_Date.
Proof. intros H env w. apply appends_log, H. Qed.

Lemma appends_sleep ms :
  allowed (ESleep ms) = true -> respects (appends allowed) (sleep ms).
Proof. intros H env w. now apply appends_log. Qed.

Lemma appends_pool_query {A} q run (rows : World -> A) :
  (forall w, trace (run w) = trace w) ->
  (forall b, allowed (EQuery q b) = true) ->
  respects (appends allowed) (pool_query q run rows).
Proof.
  intros Hrun H env w. unfold pool_query.
  destruct (query_error _ _ _); simpl.
  - exists [EQuery q false]. simpl. now rewrite H.
  - exists [EQuery q true]. simpl. now rewrite Hrun, H.
Qed.

Lemma appends_events_list p :
  allowed (EEventsList p) = true ->
  respects (appends allowed) (calendar_events_list p).
Proof. intros H env w. now apply appends_log. Qed.

Lemma appends_calendarList :
  allowed ECalendarList = true ->
  respects (appends allowed) calendar_calendarList_list.
Proof. intros H env w. now apply appends_log. Qed.

Lemma appends_refresh r :
  allowed (ERefreshAccessToken r) = true ->
  respects (appends allowed) (client_refreshAccessToken r).
Proof. intros H env w. now apply appends_log. Qed.

Lemma appends_fetch req :
  allowed (EFetch req) = true -> respects (appends allowed) (fetch req).
Proof. intros H env w. now apply appends_log. Qed.

Lemma appends_record_applied u ev c b :
  allowed (EApplied u ev c b) = true ->
  respects (appends allowed) (MemoryCalendarSync.record_applied u ev c b).
Proof. intros H env w. now apply appends_log. Qed.

End Primitives.

Section TablePrimitives.

Context (R : relation World) `{!PreOrder R}.
Context (R_log : forall e w, R w (log e w)).

Lemma tables_new_Date : respects R new_Date.
Proof. intros env w. apply R_log. Qed.

Lemma tables_sleep ms : respects R (sleep ms).
Proof. intros env w. apply R_log. Qed.

Lemma tables_events_list p : respects R (calendar_events_list p).
Proof. intros env w. apply R_log. Qed.

Lemma tables_calendarList : respects R calendar_calendarList_list.
Proof. intros env w. apply R_log. Qed.

Lemma tables_refresh r : respects R (client_refreshAccessToken r).
Proof. intros env w. apply R_log. Qed.

Lemma tables_fetch req : respects R (fetch req).
Proof. intros env w. apply R_log. Qed.

Lemma tables_record_applied u ev c b :
  respects R (MemoryCalendarSync.record_applied u ev c b).
Proof. intros env w. apply R_log. Qed.

Lemma tables_pool_query {A} q run (rows : World -> A) :
  (forall w, R w (run w)) -> respects R (pool_query q run rows).
Proof.
  intros Hrun env w. unfold pool_query. destruct (query_error _ _ _); simpl.
  - apply R_log.
  - etransitivity; [apply Hrun | apply R_log].
Qed.

End TablePrimitives.

Lemma same_sync_tokens_log e w : same_sync_tokens w (log e w).
Proof. reflexivity. Qed.

Lemma same_tables_log e w : same_tables w (log e w).
Proof. repeat split. Qed.

(** Breaks a goal [respects R m] along the structure of [m]; the calls to
    the collaborators are left to the caller. *)
Ltac step_respects :=
  lazymatch goal with
  | |- respects _ (mbind _ _) =>
      apply respects_bind; [typeclasses eauto .. | | intros ?]
  | |- respects _ (try_catch _ _) =>
      apply respects_try_catch; [typeclasses eauto .. | | intros ?]
  | |- respects _ (mret _) => apply respects_ret; try typeclasses eauto
  | |- respects _ (throw _) => apply respects_throw; try typeclasses eauto
  | |- respects _ (lift _) => apply respects_lift; try typeclasses eauto
  | |- respects _ ask => apply respects_ask; try typeclasses eauto
  | |- respects _ diverge => apply respects_diverge; try typeclasses eauto
  | |- respects _ (match ?x with _ => _ end) => destruct x
  end.

Ltac step_appends :=
  lazymatch goal with
  | |- respects _ new_Date => apply appends_new_Date; intros; reflexivity
  | |- respects _ (sleep _) => apply appends_sleep; reflexivity
  | |- respects _ (pool_query _ _ _) =>
      apply appends_pool_query; [intros; reflexivity | intros; reflexivity]
  | |- respects _ (calendar_events_list _) =>
      apply appends_events_list; reflexivity
  | |- respects _ calendar_calendarList_list =>
      apply appends_calendarList; reflexivity
  | |- respects _ (client_refreshAccessToken _) =>
      apply appends_refresh; reflexivity
  | |- respects _ (fetch _) => apply appends_fetch; reflexivity
  | |- respects _ (MemoryCalendarSync.record_applied _ _ _ _) =>
      apply appends_record_applied; reflexivity
  | |- _ => step_respects
  end.

Ltac solve_appends := repeat step_appends.

(** The same for a relation on the tables that every trace entry keeps. *)
Ltac step_tables log_lemma :=
  lazymatch goal with
  | |- respects _ new_Date =>
      apply tables_new_Date; [typeclasses eauto .. | apply log_lemma]
  | |- respects _ (sleep _) =>
      apply tables_sleep; [typeclasses eauto .. | apply log_lemma]
  | |- respects _ (pool_query _ _ _) =>
      apply tables_pool_query;
        [typeclasses eauto .. | apply log_lemma | intros; hnf; repeat split]
  | |- respects _ (calendar_events_list _) =>
      apply tables_events_list; [typeclasses eauto .. | apply log_lemma]
  | |- respects _ calendar_calendarList_list =>
      apply tables_calendarList; [typeclasses eauto .. | apply log_lemma]
  | |- respects _ (client_refreshAccessToken _) =>
      apply tables_refresh; [typeclasses eauto .. | apply log_lemma]
  | |- respects _ (fetch _) =>
      apply tables_fetch; [typeclasses eauto .. | apply log_lemma]
  | |- respects _ (MemoryCalendarSync.record_applied _ _ _ _) =>
      apply tables_record_applied; [typeclasses eauto .. | apply log_lemma]
  | |- _ => step_respects
  end.

Ltac solve_tables log_lemma := repeat step_tables log_lemma.

(** ** DatabaseService *)

Lemma getSyncToken_run u c env w :
  Db.getSyncToken u c env w =
    match query_error env (count is_query (trace w)) (SelectSyncToken u c) with
    | Some _ => (Ok None, log (EQuery (SelectSyncToken u c) false) w)
    | None => (Ok (default None (sync_tokens w !! (u, c))),
               log (EQuery (SelectSyncToken u c) true) w)
    end.
Proof.
  unfold Db.getSyncToken. rewrite run_try_catch. unfold pool_query.
  now destruct (query_error _ _ _).
Qed.

Lemma updateSyncToken_run u c t env w :
  Db.updateSyncToken u c t env w =
    match query_error env (count is_query (trace w)) (UpsertSyncToken u c t) with
    | Some _ => (Ok false, log (EQuery (UpsertSyncToken u c t) false) w)
    | None => (Ok true,
               log (EQuery (UpsertSyncToken u c t) true) (set_sync_token u c t w))
    end.
Proof.
  unfold Db.updateSyncToken. rewrite run_try_catch. unfold pool_query.
  now destruct (query_error _ _ _).
Qed.

Lemma updateCalendarConnection_run u upd env w :
  Db.updateCalendarConnection u upd env w =
    match query_error env (count is_query (trace w)) (UpdateConnection u upd) with
    | Some e => (Throw e, log (EQuery (UpdateConnection u upd) false) w)
    | None => (Ok tt,
               log (EQuery (UpdateConnection u upd) true) (update_connection u upd w))
    end.
Proof.
  unfold Db.updateCalendarConnection. rewrite run_try_catch. unfold pool_query.
  now destruct (query_error _ _ _).
Qed.

Lemma getUserTokens_run u env w :
  Db.getUserTokens u env w =
    match query_error env (count is_query (trace w)) (SelectUserTokens u) with
    | Some e => (Throw e, log (EQuery (SelectUserTokens u) false) w)
    | None => (Ok (users w !! u ≫= Db.user_tokens_of_row),
               log (EQuery (SelectUserTokens u) true) w)
    end.
Proof.
  unfold Db.getUserTokens. rewrite run_try_catch. unfold pool_query.
  now destruct (query_error _ _ _).
Qed.

Lemma terminates_getUserTokens u : terminates (Db.getUserTokens u).
Proof. unfold Db.getUserTokens. solve_terminates. Qed.

Lemma terminates_updateUserTokens u a r e :
  terminates (Db.updateUserTokens u a r e).
Proof. unfold Db.updateUserTokens. solve_terminates. Qed.

Lemma terminates_updateCalendarConnection u upd :
  terminates (Db.updateCalendarConnection u upd).
Proof. unfold Db.updateCalendarConnection. solve_terminates. Qed.

Lemma total_getSyncToken u c : total (Db.getSyncToken u c).
Proof. unfold Db.getSyncToken. solve_terminates. Qed.

Lemma total_updateSyncToken u c t : total (Db.updateSyncToken u c t).
Proof. unfold Db.updateSyncToken. solve_terminates. Qed.

#[export] Hint Resolve terminates_getUserTokens terminates_updateUserTokens
  terminates_updateCalendarConnection : terminates.

#[export] Hint Resolve total_getSyncToken total_updateSyncToken : terminates.

#[export] Hint Extern 1 (terminates (Db.getSyncToken _ _)) =>
  apply total_terminates, total_getSyncToken : terminates.

#[export] Hint Extern 1 (terminates (Db.updateSyncToken _ _ _)) =>
  apply total_terminates, total_updateSyncToken : terminates.

(** ** AuthService *)

Lemma terminates_refreshUserToken u r : terminates (Auth.refreshUserToken u r).
Proof. unfold Auth.refreshUserToken. solve_terminates. Qed.

#[export] Hint Resolve terminates_refreshUserToken : terminates.

Lemma appends_refreshUserToken u r :
  respects (appends refresh_effect) (Auth.refreshUserToken u r).
Proof.
  unfold Auth.refreshUserToken, Db.updateUserTokens, Db.updateCalendarConnection.
  solve_appends.
Qed.

Lemma same_sync_tokens_refreshUserToken u r :
  respects same_sync_tokens (Auth.refreshUserToken u r).
Proof.
  unfold Auth.refreshUserToken, Db.updateUserTokens, Db.updateCalendarConnection.
  solve_tables same_sync_tokens_log.
Qed.

(** The continuation of [getAuthenticatedClient] after [getUserTokens]. *)
Lemma getAuthenticatedClient_run u env w :
  exists (client : option OAuth2Client) (w' : World),
    Auth.getAuthenticatedClient u env w = (Ok client, w') /\
    sync_tokens w' = sync_tokens w /\
    exists (b : bool) (sfx : list Effect),
      trace w' = trace w ++ EQuery (SelectUserTokens u) b :: sfx /\
      forallb refresh_effect sfx = true.
Proof.
  unfold Auth.getAuthenticatedClient. rewrite run_try_catch, run_bind.
  rewrite getUserTokens_run.
  destruct (query_error env _ _) as [e|].
  { simpl. eexists _, _. split; [reflexivity |]. split; [reflexivity |].
    exists false, []. simpl. now split. }
  set (w0 := log (EQuery (SelectUserTokens u) true) w).
  match goal with |- context [ ?m env w0 ] => set (k := m) end.
  assert (Hk : respects (appends refresh_effect) k).
  { subst k. pose proof (appends_refreshUserToken u) as Hr.
    solve_appends; try apply Hr. }
  assert (Hs : respects same_sync_tokens k).
  { subst k. pose proof (same_sync_tokens_refreshUserToken u) as Hr.
    solve_tables same_sync_tokens_log; try apply Hr. }
  assert (Ht : terminates k) by (subst k; solve_terminates).
  specialize (Hk env w0). specialize (Hs env w0). specialize (Ht env w0).
  destruct (k env w0) as [[client|e|] w1]; simpl in *; [| |congruence];
    destruct Hk as (sfx & Htr & Hall);
    eexists _, w1; (split; [reflexivity |]); (split; [exact Hs |]);
    exists true, sfx; (split; [| exact Hall]);
    rewrite Htr; subst w0; simpl; now rewrite <- app_assoc.
Qed.

(** ** One attempt of the incremental fetch *)

Lemma fetch_attempt_eq u h :
  WebhookHandler.fetch_attempt u h =
    (authClient ← Auth.getAuthenticatedClient u;
     match authClient with
     | None => throw (auth_failure u)
     | Some _ =>
         calendarId ←
           WebhookHandler.extractCalendarIdFromResourceUri (resourceUri h);
         lastSyncToken ← Db.getSyncToken u calendarId;
         listParams ← choose_params calendarId lastSyncToken;
         request_changes u calendarId listParams
     end).
Proof. reflexivity. Qed.

Lemma extractCalendarId_run uri env w :
  WebhookHandler.extractCalendarIdFromResourceUri uri env w
    = (settle_result (calendar_id_of env uri), w).
Proof.
  unfold WebhookHandler.extractCalendarIdFromResourceUri, calendar_id_of.
  rewrite run_bind. simpl. now destruct (WebhookHandler.regex_match uri).
Qed.

Lemma choose_params_run calId stored env w :
  choose_params calId stored env w =
    match usable_token stored with
    | Some tok =>
        (Ok (token_request calId tok), w)
    | None =>
        let now := Date_now env (count is_new_date (trace w)) in
        (Ok (initial_window_params calId now), log (ENewDate (Js.Date now 0)) w)
    end.
Proof.
  unfold choose_params, usable_token.
  destruct stored as [tok|]; [destruct (Js.truthy_string tok) |]; reflexivity.
Qed.

Lemma request_changes_run u calId p env w :
  request_changes u calId p env w =
    match events_list env (count is_events_list (trace w)) p with
    | Rejects e => (Throw e, log (EEventsList p) w)
    | Resolves data =>
        (Ok (map WebhookHandler.to_change (default [] (items data))),
         match Js.or_undefined (nextSyncToken data) with
         | Some tok =>
             snd (Db.updateSyncToken u calId (Some tok) env (log (EEventsList p) w))
         | None => log (EEventsList p) w
         end)
    end.
Proof.
  unfold request_changes. rewrite run_bind. unfold calendar_events_list.
  destruct (events_list env _ p) as [data|e]; simpl; [| reflexivity].
  destruct (Js.or_undefined (nextSyncToken data)) as [tok|]; [| reflexivity].
  rewrite !run_bind, updateSyncToken_run.
  now destruct (query_error env _ _).
Qed.

Lemma forallb_refresh_prelude (l : list Effect) :
  forallb refresh_effect l = true -> forallb prelude_effect l = true.
Proof.
  rewrite !forallb_forall. intros H e He. unfold prelude_effect.
  now rewrite (H e He).
Qed.

Lemma count_events_list_prelude (l : list Effect) :
  forallb prelude_effect l = true -> count is_events_list l = 0.
Proof.
  intros H. apply count_none. rewrite forallb_forall in *. intros e He.
  specialize (H e He). now destruct e as [[]| | | | | | |].
Qed.

Lemma fetch_attempt_outcome u h env w :
  attempt_outcome env u h w
    (fst (WebhookHandler.fetch_attempt u h env w))
    (snd (WebhookHandler.fetch_attempt u h env w)).
Proof.
  rewrite fetch_attempt_eq, run_bind.
  destruct (getAuthenticatedClient_run u env w)
    as (client & wa & Hrun & Htok & b & sfx & Htr & Hall).
  rewrite Hrun. apply forallb_refresh_prelude in Hall.
  destruct client as [client|]; simpl.
  2: { now apply (attempt_unasked _ _ _ _ _ _ b sfx). }
  rewrite run_bind, extractCalendarId_run.
  destruct (calendar_id_of env (resourceUri h)) as [calId|e] eqn:Hcal; simpl.
  2: { now apply (attempt_unasked _ _ _ _ _ _ b sfx). }
  rewrite run_bind, getSyncToken_run.
  set (q := SelectSyncToken u calId).
  assert (Hsel : exists stored ok wb,
    (match query_error env (count is_query (trace wa)) q with
     | Some _ => (Ok None, log (EQuery q false) wa)
     | None => (Ok (default None (sync_tokens wa !! (u, calId))),
                log (EQuery q true) wa)
     end) = (Ok stored, wb) /\ wb = log (EQuery q ok) wa /\
    (usable_token stored <> None ->
       stored = default None (sync_tokens w !! (u, calId)))).
  { destruct (query_error env _ q).
    - exists None, false, (log (EQuery q false) wa). now repeat split.
    - exists (default None (sync_tokens wa !! (u, calId))), true,
        (log (EQuery q true) wa). rewrite Htok. now repeat split. }
  destruct Hsel as (stored & ok & wb & -> & Hwb & Hstored).
  rewrite run_bind, choose_params_run.
  set (pre1 := sfx ++ [EQuery q ok]).
  assert (Hpre1 : trace wb = trace w ++ EQuery (SelectUserTokens u) b :: pre1
                  /\ forallb prelude_effect pre1 = true
                  /\ sync_tokens wb = sync_tokens w).
  { subst wb pre1. simpl. rewrite Htr, forallb_app, Hall. simpl.
    split; [now rewrite <- app_assoc | now split]. }
  clearbody pre1. clear Hwb Htr Hall Hrun Htok wa sfx.
  destruct Hpre1 as (Htr & Hall & Htok).
  assert (Hpar : exists p wc pre2,
    (match usable_token stored with
     | Some tok =>
         (Ok (token_request calId tok), wb)
     | None =>
         let now := Date_now env (count is_new_date (trace wb)) in
         (Ok (initial_window_params calId now), log (ENewDate (Js.Date now 0)) wb)
     end) = (Ok p, wc) /\
    trace wc = trace w ++ EQuery (SelectUserTokens u) b :: pre2 /\
    forallb prelude_effect pre2 = true /\ sync_tokens wc = sync_tokens w /\
    attempt_params env u h w p /\ calendarId p = calId).
  { destruct (usable_token stored) as [tok|] eqn:Hus.
    - exists (token_request calId tok), wb, pre1.
      repeat split; try assumption. exists calId. split; [exact Hcal |].
      left. exists tok. split; [| reflexivity].
      rewrite <- Hstored; [exact Hus | congruence].
    - eexists _, _, (pre1 ++ [ENewDate _]). split; [reflexivity |].
      simpl. rewrite Htr, forallb_app, Hall. simpl.
      repeat split; try assumption.
      + now rewrite <- app_assoc.
      + exists calId. split; [exact Hcal |]. right. eexists. reflexivity. }
  destruct Hpar as (p & wc & pre2 & -> & Htr2 & Hall2 & Htok2 & Hp & Hpcal).
  rewrite request_changes_run.
  assert (Hn : count is_events_list (trace wc) = count is_events_list (trace w)).
  { rewrite Htr2, count_app. change (EQuery ?q ?b :: pre2) with ([EQuery q b] ++ pre2).
    rewrite count_app, (count_events_list_prelude pre2 Hall2). unfold count. simpl. lia. }
  rewrite Hn.
  destruct (events_list env _ p) as [data|e] eqn:Hlist; simpl.
  2: { apply (attempt_refused _ _ _ _ _ _ b pre2 p); try assumption.
       simpl. rewrite Htr2. now rewrite <- app_assoc. }
  destruct (Js.or_undefined (nextSyncToken data)) as [tok|] eqn:Hnext.
  2: { apply (attempt_served _ _ _ _ _ _ b pre2 p); try assumption.
       simpl. rewrite Htr2. now rewrite <- app_assoc. }
  rewrite updateSyncToken_run.
  destruct (query_error env _ _); simpl.
  - apply (attempt_served_token _ _ _ _ _ tok false _ b pre2 p); try assumption.
    simpl. rewrite Htr2, Hpcal, <- !app_assoc. reflexivity.
  - apply (attempt_served_token _ _ _ _ _ tok true _ b pre2 p); try assumption.
    + simpl. rewrite Htr2, Hpcal, <- !app_assoc. reflexivity.
    + simpl. now rewrite Htok2, Hpcal.
Qed.

(** ** The retry loop *)

Lemma prelude_attempt_effect (l : list Effect) :
  forallb prelude_effect l = true -> forallb attempt_effect l = true.
Proof.
  rewrite !forallb_forall. intros H e He. specialize (H e He).
  now destruct e as [[]| | | | | | |].
Qed.

Lemma count_select_prelude (l : list Effect) :
  forallb prelude_effect l = true -> count is_select_user_tokens l = 0.
Proof.
  intros H. apply count_none. rewrite forallb_forall in *. intros e He.
  specialize (H e He). now destruct e as [[]| | | | | | |].
Qed.

(** One step of the [while] loop, for [attempt < maxRetries]. *)
Lemma fetch_loop_step fuel u h a env w :
  a < WebhookHandler.maxRetries ->
  WebhookHandler.fetch_loop (S fuel) u h a env w =
    match WebhookHandler.fetch_attempt u h env w with
    | (Throw e, w1) =>
        if WebhookHandler.sync_token_rejected e then
          match calendar_id_of env (resourceUri h) with
          | Rejects e' => (Throw e', w1)
          | Resolves calId =>
              let w2 := snd (Db.updateSyncToken u calId None env w1) in
              if (S a <? WebhookHandler.maxRetries)%nat
              then WebhookHandler.fetch_loop fuel u h (S a) env w2
              else (Throw e, w2)
          end
        else if (S a <? WebhookHandler.maxRetries)%nat
        then WebhookHandler.fetch_loop fuel u h (S a) env
               (log (ESleep (WebhookHandler.backoff_delay (S a))) w1)
        else (Throw e, w1)
    | r => r
    end.
Proof.
  unfold WebhookHandler.maxRetries. intros Ha.
  assert (Hcases : a = 0 \/ a = 1 \/ a = 2) by lia.
  destruct Hcases as [->|[->| ->]];
    cbn [WebhookHandler.fetch_loop WebhookHandler.maxRetries Nat.ltb Nat.leb];
    rewrite run_try_catch;
    (destruct (WebhookHandler.fetch_attempt u h env w) as [[c|e|] w1];
       [reflexivity | | reflexivity]);
    rewrite run_bind;
    (destruct (WebhookHandler.sync_token_rejected e); [| reflexivity]);
    rewrite run_bind, extractCalendarId_run;
    (destruct (calendar_id_of env (resourceUri h)) as [calId|e'];
       [| reflexivity]);
    cbn [settle_result]; rewrite run_bind;
    destruct (total_updateSyncToken u calId None env w1) as [ok Hok];
    destruct (Db.updateSyncToken u calId None env w1) as [r w2];
    simpl in Hok; subst r; reflexivity.
Qed.

Lemma fetch_loop_done fuel u h a env w :
  WebhookHandler.maxRetries <= a ->
  WebhookHandler.fetch_loop fuel u h a env w = (Ok [], w).
Proof.
  intros Ha. apply Nat.ltb_ge in Ha. destruct fuel; simpl; now rewrite Ha.
Qed.

Lemma fetch_attempt_terminates u h : terminates (WebhookHandler.fetch_attempt u h).
Proof.
  intros env w. pose proof (fetch_attempt_outcome u h env w) as H.
  destruct H; simpl; discriminate.
Qed.

(** Enough fuel: the loop ends with a value or an error. *)
Lemma fetch_loop_terminates fuel u h a env w :
  WebhookHandler.maxRetries <= fuel + a ->
  fst (WebhookHandler.fetch_loop fuel u h a env w) <> Diverges.
Proof.
  revert a w. induction fuel as [|fuel IH]; intros a w Hf.
  - rewrite fetch_loop_done by lia. discriminate.
  - destruct (Nat.lt_ge_cases a WebhookHandler.maxRetries) as [Ha|Ha].
    2: { rewrite fetch_loop_done by lia. discriminate. }
    rewrite fetch_loop_step by exact Ha.
    pose proof (fetch_attempt_terminates u h env w) as Ht.
    destruct (WebhookHandler.fetch_attempt u h env w) as [[c|e|] w1];
      simpl in *; try discriminate; try congruence.
    destruct (WebhookHandler.sync_token_rejected e).
    + destruct (calendar_id_of env (resourceUri h)); [| discriminate].
      simpl. destruct (S a <? WebhookHandler.maxRetries)%nat; [| discriminate].
      apply IH. lia.
    + destruct (S a <? WebhookHandler.maxRetries)%nat; [| discriminate].
      apply IH. lia.
Qed.

(** An attempt that fails leaves the sync-token store as it was. *)
Lemma failed_attempt_keeps_tokens u h env w e w1 :
  WebhookHandler.fetch_attempt u h env w = (Throw e, w1) ->
  sync_tokens w1 = sync_tokens w.
Proof.
  intros H. pose proof (fetch_attempt_outcome u h env w) as Ho.
  rewrite H in Ho. simpl in Ho. inversion Ho; assumption.
Qed.

(** An attempt reads the user's tokens once, asks the provider at most
    once, and neither sleeps nor does anything outside [attempt_effect]. *)
Lemma fetch_attempt_counts u h env w :
  let w1 := snd (WebhookHandler.fetch_attempt u h env w) in
  count is_select_user_tokens (trace w1) = count is_select_user_tokens (trace w) + 1 /\
  count is_events_list (trace w1) <= count is_events_list (trace w) + 1 /\
  appends attempt_effect w w1.
Proof.
  pose proof (fetch_attempt_outcome u h env w) as Ho. simpl.
  assert (Hshape : exists b pre post,
    trace (snd (WebhookHandler.fetch_attempt u h env w))
      = trace w ++ EQuery (SelectUserTokens u) b :: pre ++ post /\
    forallb prelude_effect pre = true /\
    (post = [] \/ (exists p, post = [EEventsList p]) \/
     (exists p q s, post = [EEventsList p; EQuery (UpsertSyncToken u q (Some s)) true]
                    \/ post = [EEventsList p; EQuery (UpsertSyncToken u q (Some s)) false]))).
  { inversion Ho as [e w1 b pre Htr Hall _ | e w1 b pre p Htr Hall _ _ _
                    | data w1 b pre p Htr Hall _ _ _ _
                    | data tok stored w1 b pre p Htr Hall _ _ _ _]; subst.
    - exists b, pre, []. rewrite app_nil_r. auto.
    - exists b, pre, [EEventsList p]. eauto 6.
    - exists b, pre, [EEventsList p]. eauto 6.
    - exists b, pre, [EEventsList p; EQuery (UpsertSyncToken u (calendarId p) (Some tok)) stored].
      split; [exact Htr |]. split; [exact Hall |]. right. right.
      exists p, (calendarId p), tok. destruct stored; auto. }
  destruct Hshape as (b & pre & post & Htr & Hall & Hpost).
  rewrite Htr.
  change (EQuery (SelectUserTokens u) b :: pre ++ post)
    with ([EQuery (SelectUserTokens u) b] ++ pre ++ post).
  rewrite !count_app, (count_select_prelude pre Hall),
    (count_events_list_prelude pre Hall).
  repeat split.
  - destruct Hpost as [->|[(p & ->)|(p & q & s & [->| ->])]];
      unfold count; simpl; lia.
  - destruct Hpost as [->|[(p & ->)|(p & q & s & [->| ->])]];
      unfold count; simpl; lia.
  - exists ([EQuery (SelectUserTokens u) b] ++ pre ++ post).
    split; [exact Htr |]. rewrite !forallb_app.
    rewrite (prelude_attempt_effect pre Hall).
    destruct Hpost as [->|[(p & ->)|(p & q & s & [->| ->])]]; reflexivity.
Qed.

Lemma sleeps_app (l1 l2 : list Effect) : sleeps (l1 ++ l2) = sleeps l1 ++ sleeps l2.
Proof. unfold sleeps. apply flat_map_app. Qed.

Lemma sleeps_attempt_effect (l : list Effect) :
  forallb attempt_effect l = true -> sleeps l = [].
Proof.
  induction l as [|e l IH]; simpl; [easy |]. intros H.
  apply andb_prop in H as [He Hl]. rewrite (IH Hl). now destruct e.
Qed.

Lemma count_sleep_attempt_effect (l : list Effect) :
  forallb attempt_effect l = true -> count is_sleep l = 0.
Proof.
  intros H. apply count_none. rewrite forallb_forall in *. intros e He.
  specialize (H e He). now destruct e.
Qed.

Lemma fetch_attempt_sleeps u h env w :
  sleeps (trace (snd (WebhookHandler.fetch_attempt u h env w))) = sleeps (trace w) /\
  count is_sleep (trace (snd (WebhookHandler.fetch_attempt u h env w)))
    = count is_sleep (trace w).
Proof.
  destruct (fetch_attempt_counts u h env w) as (_ & _ & sfx & Htr & Hall).
  rewrite Htr, sleeps_app, count_app, (sleeps_attempt_effect sfx Hall),
    (count_sleep_attempt_effect sfx Hall), app_nil_r. now split; [| lia].
Qed.

Lemma updateSyncToken_trace u c t env w :
  exists b, trace (snd (Db.updateSyncToken u c t env w))
            = trace w ++ [EQuery (UpsertSyncToken u c t) b].
Proof.
  rewrite updateSyncToken_run. destruct (query_error env _ _);
    [exists false | exists true]; reflexivity.
Qed.

(** The loop reads the user's tokens, asks the provider and sleeps at most
    as often as the attempts it has left allow. *)
Lemma fetch_loop_counts fuel u h a env w :
  let w' := snd (WebhookHandler.fetch_loop fuel u h a env w) in
  count is_select_user_tokens (trace w')
    <= count is_select_user_tokens (trace w) + (WebhookHandler.maxRetries - a) /\
  count is_events_list (trace w')
    <= count is_events_list (trace w) + (WebhookHandler.maxRetries - a) /\
  count is_sleep (trace w')
    <= count is_sleep (trace w) + (WebhookHandler.maxRetries - 1 - a).
Proof.
  revert a w. induction fuel as [|fuel IH]; intros a w; cbv zeta.
  { cbn [WebhookHandler.fetch_loop].
    destruct (a <? WebhookHandler.maxRetries)%nat; simpl; lia. }
  destruct (Nat.lt_ge_cases a WebhookHandler.maxRetries) as [Ha|Ha].
  2: { rewrite fetch_loop_done by exact Ha. simpl. lia. }
  rewrite fetch_loop_step by exact Ha.
  destruct (fetch_attempt_counts u h env w) as (Hs & Hl & _).
  destruct (fetch_attempt_sleeps u h env w) as (_ & Hz).
  unfold WebhookHandler.maxRetries in *.
  destruct (WebhookHandler.fetch_attempt u h env w) as [[c|e|] w1];
    simpl in Hs, Hl, Hz; simpl; try lia.
  destruct (WebhookHandler.sync_token_rejected e).
  - destruct (calendar_id_of env (resourceUri h)) as [calId|e']; simpl; [| lia].
    destruct (updateSyncToken_trace u calId None env w1) as [b Hb].
    assert (Hc : forall kind, kind (EQuery (UpsertSyncToken u calId None) b) = false ->
      count kind (trace (snd (Db.updateSyncToken u calId None env w1)))
        = count kind (trace w1)).
    { intros kind Hk. rewrite Hb, count_app. unfold count at 2. simpl.
      rewrite Hk. simpl. lia. }
    pose proof (Hc is_select_user_tokens eq_refl) as H1.
    pose proof (Hc is_events_list eq_refl) as H2.
    pose proof (Hc is_sleep eq_refl) as H3.
    destruct (Nat.ltb_spec (S a) 3); simpl; [| lia].
    specialize (IH (S a) (snd (Db.updateSyncToken u calId None env w1))).
    simpl in IH. unfold WebhookHandler.maxRetries in IH. lia.
  - destruct (Nat.ltb_spec (S a) 3); simpl; [| lia].
    specialize (IH (S a) (log (ESleep (WebhookHandler.backoff_delay (S a))) w1)).
    cbv zeta in IH. rewrite !count_log in IH.
    unfold WebhookHandler.maxRetries in IH. simpl in IH. lia.
Qed.

(** A change list is returned only by an attempt that succeeded. *)
Lemma fetch_loop_Ok_inv fuel u h a env w changes w' :
  a < WebhookHandler.maxRetries ->
  WebhookHandler.fetch_loop fuel u h a env w = (Ok changes, w') ->
  exists w0, WebhookHandler.fetch_attempt u h env w0 = (Ok changes, w').
Proof.
  revert a w. induction fuel as [|fuel IH]; intros a w Ha H.
  { simpl in H. apply Nat.ltb_lt in Ha. rewrite Ha in H. discriminate. }
  rewrite fetch_loop_step in H by exact Ha.
  destruct (WebhookHandler.fetch_attempt u h env w) as [[c|e|] w1] eqn:Hatt.
  - exists w. now rewrite Hatt.
  - assert (Hrec : forall w2,
      (if (S a <? WebhookHandler.maxRetries)%nat
       then WebhookHandler.fetch_loop fuel u h (S a) env w2
       else (Throw e, w2)) = (Ok changes, w') ->
      exists w0, WebhookHandler.fetch_attempt u h env w0 = (Ok changes, w')).
    { intros w2 H2. destruct (Nat.ltb_spec (S a) WebhookHandler.maxRetries);
        [eapply IH; eauto | discriminate]. }
    destruct (WebhookHandler.sync_token_rejected e).
    + destruct (calendar_id_of env (resourceUri h)); [| discriminate].
      eapply Hrec, H.
    + destruct (Nat.ltb_spec (S a) WebhookHandler.maxRetries);
        [eapply IH; eauto | discriminate].
  - discriminate.
Qed.

(** C5.  The incremental fetch makes at most three attempts (an attempt
    reads the user's tokens exactly once and asks the provider at most
    once) and always ends with a change list or an error.  A change list is
    returned only from an attempt that succeeded, and a failed attempt
    never changes the sync-token store.  After a failure that is not a
    rejection of the sync token it sleeps [2 ^ attempt * 1000] ms: when the
    first two attempts fail this way and the third succeeds, the changes of
    the third are returned after exactly the two sleeps of 2 s and 4 s, the
    store being untouched up to the third attempt; when the third fails as
    well, its error is thrown to the caller. *)
Theorem fetchIncrementalChanges_retry_policy
    (u : string) (h : GoogleWebhookHeaders) (env : Env) (w : World) :
  (fst (WebhookHandler.fetchIncrementalChanges u h env w) <> Diverges /\
   count is_select_user_tokens
       (trace (snd (WebhookHandler.fetchIncrementalChanges u h env w)))
     <= count is_select_user_tokens (trace w) + 3 /\
   count is_events_list
       (trace (snd (WebhookHandler.fetchIncrementalChanges u h env w)))
     <= count is_events_list (trace w) + 3 /\
   count is_sleep (trace (snd (WebhookHandler.fetchIncrementalChanges u h env w)))
     <= count is_sleep (trace w) + 2) /\
  (forall w0,
     count is_select_user_tokens
         (trace (snd (WebhookHandler.fetch_attempt u h env w0)))
       = count is_select_user_tokens (trace w0) + 1 /\
     count is_events_list (trace (snd (WebhookHandler.fetch_attempt u h env w0)))
       <= count is_events_list (trace w0) + 1) /\
  (forall changes w',
     WebhookHandler.fetchIncrementalChanges u h env w = (Ok changes, w') ->
     exists w0, WebhookHandler.fetch_attempt u h env w0 = (Ok changes, w')) /\
  (forall w0 e w1,
     WebhookHandler.fetch_attempt u h env w0 = (Throw e, w1) ->
     sync_tokens w1 = sync_tokens w0) /\
  (forall e1 w1 e2 w2,
     WebhookHandler.fetch_attempt u h env w = (Throw e1, w1) ->
     WebhookHandler.sync_token_rejected e1 = false ->
     WebhookHandler.fetch_attempt u h env (log (ESleep (2 ^ 1 * 1000)) w1)
       = (Throw e2, w2) ->
     WebhookHandler.sync_token_rejected e2 = false ->
     forall r3 w3,
       WebhookHandler.fetch_attempt u h env (log (ESleep (2 ^ 2 * 1000)) w2)
         = (r3, w3) ->
       (forall e3, r3 = Throw e3 -> WebhookHandler.sync_token_rejected e3 = false) ->
       WebhookHandler.fetchIncrementalChanges u h env w = (r3, w3) /\
       sleeps (trace w3) = sleeps (trace w) ++ [2 ^ 1 * 1000; 2 ^ 2 * 1000]%Z /\
       sync_tokens w1 = sync_tokens w /\ sync_tokens w2 = sync_tokens w).
Proof.
  split; [|split; [|split; [|split]]].
  - split; [apply fetch_loop_terminates; unfold WebhookHandler.maxRetries; lia |].
    apply (fetch_loop_counts WebhookHandler.maxRetries u h 0 env w).
  - intros w0. destruct (fetch_attempt_counts u h env w0) as (H1 & H2 & _). auto.
  - intros changes w'. apply fetch_loop_Ok_inv. unfold WebhookHandler.maxRetries. lia.
  - intros w0 e w1. apply failed_attempt_keeps_tokens.
  - intros e1 w1 e2 w2 H1 T1 H2 T2 r3 w3 H3 T3.
    pose proof (failed_attempt_keeps_tokens _ _ _ _ _ _ H1) as K1.
    pose proof (failed_attempt_keeps_tokens _ _ _ _ _ _ H2) as K2.
    simpl in K2.
    destruct (fetch_attempt_sleeps u h env w) as [S1 _].
    destruct (fetch_attempt_sleeps u h env (log (ESleep (2 ^ 1 * 1000)) w1)) as [S2 _].
    destruct (fetch_attempt_sleeps u h env (log (ESleep (2 ^ 2 * 1000)) w2)) as [S3 _].
    rewrite H1 in S1. rewrite H2 in S2. rewrite H3 in S3. simpl in S1, S2, S3.
    rewrite sleeps_app in S2, S3.
    repeat split.
    + unfold WebhookHandler.fetchIncrementalChanges.
      change (WebhookHandler.fetch_loop WebhookHandler.maxRetries)
        with (WebhookHandler.fetch_loop 3).
      rewrite fetch_loop_step, H1, T1 by (unfold WebhookHandler.maxRetries; lia).
      cbn [WebhookHandler.maxRetries Nat.ltb Nat.leb].
      rewrite fetch_loop_step by (unfold WebhookHandler.maxRetries; lia).
      change (WebhookHandler.backoff_delay 1) with (2 ^ 1 * 1000)%Z.
      rewrite H2, T2. cbn [WebhookHandler.maxRetries Nat.ltb Nat.leb].
      rewrite fetch_loop_step by (unfold WebhookHandler.maxRetries; lia).
      change (WebhookHandler.backoff_delay 2) with (2 ^ 2 * 1000)%Z.
      rewrite H3. destruct r3 as [c|e3|]; try reflexivity.
      rewrite (T3 e3 eq_refl). reflexivity.
    + rewrite S3, S2, S1. simpl. now rewrite <- app_assoc.
    + exact K1.
    + congruence.
Qed.

Lemma fetchIncrementalChanges_retry_policy_witness :
  WebhookHandler.fetchIncrementalChanges "alice" Scenario.primary_headers
    Scenario.flaky Scenario.alice_world
    = (Ok [WebhookHandler.to_change Scenario.fresh_event],
       snd Scenario.flaky_third) /\
  sleeps (trace (snd Scenario.flaky_third)) = [2000; 4000]%Z /\
  sync_tokens (snd Scenario.flaky_first) = sync_tokens Scenario.alice_world /\
  sync_tokens (snd Scenario.flaky_second) = sync_tokens Scenario.alice_world.
Proof.
  destruct (fetchIncrementalChanges_retry_policy "alice"
              Scenario.primary_headers Scenario.flaky Scenario.alice_world)
    as (_ & _ & _ & _ & Hretry).
  apply (Hretry Scenario.backend_error (snd Scenario.flaky_first)
           Scenario.backend_error (snd Scenario.flaky_second)).
  - vm_compute. reflexivity.
  - reflexivity.
  - vm_compute. reflexivity.
  - reflexivity.
  - vm_compute. reflexivity.
  - discriminate.
Defined.

(** ** Persisting the sync token *)

(** C7.  When the incremental fetch returns a change list, the list is
    the provider's answer to the last list call of the trace, and if that
    answer carries a next-sync-token (a non-empty string) the last thing
    the fetch did before returning was the upsert of that token for the
    user and the calendar of the request; once the database has executed
    the statement the store holds the token.  Nothing depends on the list
    of events, which may be empty or absent. *)
Theorem fetch_persists_next_sync_token
    (u : string) (h : GoogleWebhookHeaders) (env : Env) (w : World)
    (changes : list CalendarChange) (w' : World) :
  WebhookHandler.fetchIncrementalChanges u h env w = (Ok changes, w') ->
  exists (before : list Effect) (p : ListParams) (data : EventsData),
    events_list env (count is_events_list before) p = Resolves data /\
    changes = map WebhookHandler.to_change (default [] (items data)) /\
    match Js.or_undefined (nextSyncToken data) with
    | Some tok =>
        exists stored : bool,
          trace w' = before ++
            [EEventsList p;
             EQuery (UpsertSyncToken u (calendarId p) (Some tok)) stored] /\
          (stored = true ->
           sync_tokens w' !! (u, calendarId p) = Some (Some tok))
    | None => trace w' = before ++ [EEventsList p]
    end.
Proof.
  intros Hfetch.
  apply fetch_loop_Ok_inv in Hfetch as [w0 Hatt];
    [| unfold WebhookHandler.maxRetries; lia].
  pose proof (fetch_attempt_outcome u h env w0) as Ho. rewrite Hatt in Ho.
  simpl in Ho.
  assert (Hcount : forall b pre, forallb prelude_effect pre = true ->
    count is_events_list (trace w0 ++ EQuery (SelectUserTokens u) b :: pre)
      = count is_events_list (trace w0)).
  { intros b pre Hall.
    change (EQuery (SelectUserTokens u) b :: pre)
      with ([EQuery (SelectUserTokens u) b] ++ pre).
    rewrite !count_app, (count_events_list_prelude pre Hall).
    unfold count. simpl. lia. }
  inversion Ho as [| | data w1 b pre p Htr Hall Htok Hp Hlist Hnext
                      | data tok stored w1 b pre p Htr Hall Htok Hp Hlist Hnext];
    subst.
  - exists (trace w0 ++ EQuery (SelectUserTokens u) b :: pre), p, data.
    rewrite Hcount by exact Hall. rewrite Hnext.
    repeat split; try assumption.
    rewrite Htr, <- app_assoc. reflexivity.
  - exists (trace w0 ++ EQuery (SelectUserTokens u) b :: pre), p, data.
    rewrite Hcount by exact Hall. rewrite Hnext.
    repeat split; try assumption.
    exists stored. split.
    + rewrite Htr, <- app_assoc. reflexivity.
    + intros ->. rewrite Htok. apply lookup_insert_eq.
Qed.

Lemma fetch_persists_next_sync_token_witness :
  exists (w' : World),
    WebhookHandler.fetchIncrementalChanges "alice" Scenario.primary_headers
      Scenario.unchanged_feed Scenario.alice_world = (Ok [], w') /\
    exists before p,
      trace w' = before ++
        [EEventsList p;
         EQuery (UpsertSyncToken "alice" (calendarId p)
                   (Some "CKi2kvaDx70CEKi2kvaDx70CGAU=")) true] /\
      sync_tokens w' !! ("alice", calendarId p)
        = Some (Some "CKi2kvaDx70CEKi2kvaDx70CGAU=").
Proof.
  eexists. split; [vm_compute; reflexivity |].
  edestruct (fetch_persists_next_sync_token "alice" Scenario.primary_headers
               Scenario.unchanged_feed Scenario.alice_world [])
    as (before & p & data & Hlist & _ & Hnext); [vm_compute; reflexivity |].
  simpl in Hlist. injection Hlist as <-. simpl in Hnext.
  destruct Hnext as (stored & Htr & Hstored).
  exists before, p.
  assert (stored = true) as ->.
  { apply (f_equal (fun l => List.last l ECalendarList)) in Htr.
    change [EEventsList p; ?x] with ([EEventsList p] ++ [x]) in Htr.
    rewrite app_assoc, List.last_last in Htr. vm_compute in Htr.
    now injection Htr. }
  split; [exact Htr | now apply Hstored].
Defined.

(** ** Applying the changes *)

Lemma applications_app l1 l2 :
  applications (l1 ++ l2) = applications l1 ++ applications l2.
Proof. unfold applications. apply flat_map_app. Qed.

Lemma status_updates_app l1 l2 :
  status_updates (l1 ++ l2) = status_updates l1 ++ status_updates l2.
Proof. unfold status_updates. apply flat_map_app. Qed.

Lemma applications_fetches (l : list Effect) :
  forallb is_fetch l = true -> applications l = [].
Proof.
  induction l as [|e l IH]; simpl; [easy |]. intros H.
  apply andb_prop in H as [He Hl]. rewrite (IH Hl). now destruct e.
Qed.

Lemma status_updates_sink (l : list Effect) :
  forallb sink_effect l = true -> status_updates l = [].
Proof.
  induction l as [|e l IH]; simpl; [easy |]. intros H.
  apply andb_prop in H as [He Hl]. rewrite (IH Hl). now destruct e.
Qed.

Lemma appends_processCalendarChange_body u ev c :
  respects (appends is_fetch) (MemoryCalendarSync.processCalendarChange_body u ev c).
Proof.
  unfold MemoryCalendarSync.processCalendarChange_body,
    MemoryCalendarSync.removeFromMemoryVault,
    MemoryCalendarSync.updateInMemoryVault,
    MemoryCalendarSync.storeInMemoryVault,
    MemoryCalendarSync.convertEventToMemory.
  solve_appends.
Qed.

Lemma same_tables_processCalendarChange_body u ev c :
  respects same_tables (MemoryCalendarSync.processCalendarChange_body u ev c).
Proof.
  unfold MemoryCalendarSync.processCalendarChange_body,
    MemoryCalendarSync.removeFromMemoryVault,
    MemoryCalendarSync.updateInMemoryVault,
    MemoryCalendarSync.storeInMemoryVault,
    MemoryCalendarSync.convertEventToMemory.
  solve_tables same_tables_log.
Qed.

(** A call of [processCalendarChange] returns a boolean, talks to the
    vault only, and ends with its entry in the trace. *)
Lemma processCalendarChange_run u ev c env w :
  exists (success : bool) (w1 : World),
    MemoryCalendarSync.processCalendarChange u ev c env w
      = (Ok success, log (EApplied u ev c success) w1) /\
    appends is_fetch w w1 /\ same_tables w w1.
Proof.
  unfold MemoryCalendarSync.processCalendarChange. rewrite run_bind.
  destruct (total_processCalendarChange_body u ev c env w) as [b Hb].
  pose proof (appends_processCalendarChange_body u ev c env w) as Ha.
  pose proof (same_tables_processCalendarChange_body u ev c env w) as Ht.
  destruct (MemoryCalendarSync.processCalendarChange_body u ev c env w) as [r w1].
  simpl in *. subst r. now exists b, w1.
Qed.

Lemma is_fetch_sink (l : list Effect) :
  forallb is_fetch l = true -> forallb sink_effect l = true.
Proof.
  rewrite !forallb_forall. intros H e He. specialize (H e He). now destruct e.
Qed.

(** The loop over the changes calls [processCalendarChange] once per
    change, in order, and counts the calls that returned [true]. *)
Lemma apply_changes_run u changes n env w :
  exists (results : list bool) (w2 : World),
    WebhookHandler.apply_changes u changes n env w
      = (Ok (n + count_true results), w2) /\
    length results = length changes /\
    applications (trace w2)
      = applications (trace w) ++ applied u changes results /\
    appends sink_effect w w2 /\ same_tables w w2.
Proof.
  revert n w. induction changes as [|change rest IH]; intros n w.
  - exists [], w. simpl. rewrite Nat.add_0_r, app_nil_r.
    repeat split; reflexivity.
  - simpl. rewrite run_bind.
    destruct (processCalendarChange_run u (event change) (changeType change) env w)
      as (b & w1 & -> & (sfx & Htr & Hall) & Htab).
    set (w1' := log (EApplied u (event change) (changeType change) b) w1).
    destruct (IH (if b then S n else n) w1')
      as (results & w2 & -> & Hlen & Happ & Hsink & Htab2).
    exists (b :: results), w2. repeat split.
    + f_equal. f_equal. unfold count_true. simpl. destruct b; simpl; lia.
    + simpl. now rewrite Hlen.
    + rewrite Happ. subst w1'. simpl. rewrite Htr, !applications_app.
      rewrite (applications_fetches sfx Hall). simpl.
      now rewrite app_nil_r, <- app_assoc.
    + etransitivity; [| exact Hsink].
      exists (sfx ++ [EApplied u (event change) (changeType change) b]).
      subst w1'. simpl. rewrite Htr, forallb_app, (is_fetch_sink sfx Hall).
      split; [now rewrite app_assoc | reflexivity].
    + destruct Htab as (Ta & Tb & Tc), Htab2 as (Td & Te & Tf).
      subst w1'. simpl in *. congruence.
    + destruct Htab as (Ta & Tb & Tc), Htab2 as (Td & Te & Tf).
      subst w1'. simpl in *. congruence.
    + destruct Htab as (Ta & Tb & Tc), Htab2 as (Td & Te & Tf).
      subst w1'. simpl in *. congruence.
Qed.

Lemma count_true_le (l : list bool) : count_true l <= length l.
Proof. unfold count_true. apply List.filter_length_le. Qed.

(** ** The orchestrator *)

Lemma write_status_run (u s : string) env w :
  (now ← new_Date;
   Db.updateCalendarConnection u
     {| upd_sync_status := Some s; upd_last_sync_at := Some now |}) env w =
    match query_error env (count is_query (trace (after_new_Date env w)))
            (UpdateConnection u (status_update s (clock env w))) with
    | Some e => (Throw e, unwritten env u s w)
    | None => (Ok tt, written env u s w)
    end.
Proof.
  rewrite run_bind. unfold new_Date. rewrite updateCalendarConnection_run.
  reflexivity.
Qed.

Lemma scheduleFullSync_run u env w :
  WebhookHandler.scheduleFullSync u env w =
    match query_error env (count is_query (trace (after_new_Date env w)))
            (UpdateConnection u (status_update "scheduled_full_sync" (clock env w))) with
    | Some e => (Ok tt, unwritten env u "scheduled_full_sync" w)
    | None => (Ok tt, written env u "scheduled_full_sync" w)
    end.
Proof.
  unfold WebhookHandler.scheduleFullSync. rewrite run_try_catch, write_status_run.
  now destruct (query_error env _ _).
Qed.

Lemma doProcessWebhook_catch_run u env w :
  WebhookHandler.doProcessWebhook_catch u env w =
    match query_error env (count is_query (trace (after_new_Date env w)))
            (UpdateConnection u (status_update "error" (clock env w))) with
    | Some e => (Throw e, unwritten env u "error" w)
    | None => WebhookHandler.scheduleFullSync u env (written env u "error" w)
    end.
Proof.
  unfold WebhookHandler.doProcessWebhook_catch. rewrite run_bind.
  unfold new_Date at 1. rewrite run_bind, updateCalendarConnection_run.
  unfold written, unwritten, after_new_Date, clock, status_update.
  now destruct (query_error env _ _).
Qed.

Lemma doProcessWebhook_no_change u h env w w1 :
  WebhookHandler.fetchIncrementalChanges u h env w = (Ok [], w1) ->
  WebhookHandler.doProcessWebhook u h env w = (Ok tt, w1).
Proof.
  intros H. unfold WebhookHandler.doProcessWebhook, WebhookHandler.doProcessWebhook_try.
  rewrite run_try_catch, run_bind, H. reflexivity.
Qed.

Lemma doProcessWebhook_failed u h env w e w1 :
  WebhookHandler.fetchIncrementalChanges u h env w = (Throw e, w1) ->
  WebhookHandler.doProcessWebhook u h env w
    = WebhookHandler.doProcessWebhook_catch u env w1.
Proof.
  intros H. unfold WebhookHandler.doProcessWebhook, WebhookHandler.doProcessWebhook_try.
  rewrite run_try_catch, run_bind, H. reflexivity.
Qed.

Lemma doProcessWebhook_applied u h env w changes w1 successCount w2 :
  WebhookHandler.fetchIncrementalChanges u h env w = (Ok changes, w1) ->
  changes <> [] ->
  WebhookHandler.apply_changes u changes 0 env w1 = (Ok successCount, w2) ->
  let s := outcome_status successCount (length changes) in
  WebhookHandler.doProcessWebhook u h env w =
    match query_error env (count is_query (trace (after_new_Date env w2)))
            (UpdateConnection u (status_update s (clock env w2))) with
    | Some _ => WebhookHandler.doProcessWebhook_catch u env (unwritten env u s w2)
    | None => (Ok tt, written env u s w2)
    end.
Proof.
  intros Hfetch Hne Happly s.
  unfold WebhookHandler.doProcessWebhook, WebhookHandler.doProcessWebhook_try.
  rewrite run_try_catch, run_bind, Hfetch.
  destruct changes as [|c cs]; [congruence |].
  cbn [length Nat.eqb]. rewrite run_bind, Happly.
  pose proof (write_status_run u s env w2) as Hw. unfold s, outcome_status in Hw.
  cbn [length] in Hw. rewrite Hw.
  now destruct (query_error env _ _).
Qed.

Lemma written_row env u s w :
  connections (written env u s w) !! u =
    (fun _ => {| sync_status := s;
                 last_sync_at := Some (Js.Date (clock env w) 0) |})
      <$> connections w !! u.
Proof.
  unfold written, update_connection. simpl. rewrite lookup_alter_eq.
  now destruct (connections w !! u).
Qed.

Lemma written_status_updates env u s w :
  status_updates (trace (written env u s w)) =
    status_updates (trace w) ++ [(u, status_update s (clock env w), true)].
Proof.
  unfold written, after_new_Date. simpl.
  rewrite !status_updates_app. simpl. now rewrite app_nil_r.
Qed.

Lemma outcome_status_cases successCount total :
  successCount <= total ->
  (successCount = total -> outcome_status successCount total = "synced") /\
  (successCount < total -> outcome_status successCount total = "partial_sync").
Proof.
  intros Hle. unfold outcome_status. split; intros H.
  - apply Nat.eqb_eq in H. now rewrite H.
  - assert (Hne : successCount <> total) by lia.
    apply Nat.eqb_neq in Hne. now rewrite Hne.
Qed.

(** C1, as the code has it.  When the fetch returns N > 0 changes, every
    change is applied once, in order; with K the number of applications
    that returned [true], the run issues a status update carrying a fresh
    [last_sync_at] and the status "synced" when K = N, "partial_sync" when
    K < N, and when the database executes it the run ends there: that
    update is its last entry and the user's row holds the status.  When the
    fetch throws (its attempts exhausted), the run writes the status
    "error" and, that update executed, the marker "scheduled_full_sync",
    both with a fresh [last_sync_at]. *)
Theorem doProcessWebhook_terminal_status
    (u : string) (h : GoogleWebhookHeaders) (env : Env) (w : World) :
  (forall changes w1,
     WebhookHandler.fetchIncrementalChanges u h env w = (Ok changes, w1) ->
     changes <> [] ->
     exists (results : list bool) (w2 : World),
       WebhookHandler.apply_changes u changes 0 env w1
         = (Ok (count_true results), w2) /\
       length results = length changes /\
       applications (trace w2)
         = applications (trace w1) ++ applied u changes results /\
       let K := count_true results in
       let s := outcome_status K (length changes) in
       (K = length changes -> s = "synced") /\
       (K < length changes -> s = "partial_sync") /\
       (write_executes env u s w2 ->
        WebhookHandler.doProcessWebhook u h env w = (Ok tt, written env u s w2))) /\
  (forall e w1,
     WebhookHandler.fetchIncrementalChanges u h env w = (Throw e, w1) ->
     write_executes env u "error" w1 ->
     write_executes env u "scheduled_full_sync" (written env u "error" w1) ->
     WebhookHandler.doProcessWebhook u h env w
       = (Ok tt, written env u "scheduled_full_sync" (written env u "error" w1))) /\
  (forall s w0,
     connections (written env u s w0) !! u =
       (fun _ => {| sync_status := s;
                    last_sync_at := Some (Js.Date (clock env w0) 0) |})
         <$> connections w0 !! u /\
     trace (written env u s w0) =
       trace w0 ++ [ENewDate (Js.Date (clock env w0) 0);
                    EQuery (UpdateConnection u (status_update s (clock env w0))) true]).
Proof.
  split; [|split].
  - intros changes w1 Hfetch Hne.
    destruct (apply_changes_run u changes 0 env w1)
      as (results & w2 & Happly & Hlen & Happ & _ & _).
    rewrite Nat.add_0_l in Happly.
    exists results, w2. split; [exact Happly |].
    split; [exact Hlen |]. split; [exact Happ |].
    cbv zeta.
    destruct (outcome_status_cases (count_true results) (length changes)) as [H1 H2].
    { rewrite <- Hlen. apply count_true_le. }
    split; [exact H1 |]. split; [exact H2 |].
    intros Hex. unfold write_executes, executes in Hex.
    rewrite (doProcessWebhook_applied u h env w changes w1 _ w2 Hfetch Hne Happly).
    cbv zeta. now rewrite Hex.
  - intros e w1 Hfetch Hex1 Hex2. unfold write_executes, executes in Hex1, Hex2.
    rewrite (doProcessWebhook_failed u h env w e w1 Hfetch).
    rewrite doProcessWebhook_catch_run, Hex1, scheduleFullSync_run, Hex2.
    reflexivity.
  - intros s w0. split; [apply written_row |].
    unfold written, after_new_Date. simpl. now rewrite <- app_assoc.
Qed.

Lemma doProcessWebhook_terminal_status_witness :
  (exists w2,
     WebhookHandler.doProcessWebhook "alice" Scenario.primary_headers
       Scenario.search_down Scenario.alice_world
       = (Ok tt, written Scenario.search_down "alice" "partial_sync" w2)) /\
  (exists w2,
     WebhookHandler.doProcessWebhook "alice" Scenario.primary_headers
       Scenario.steady Scenario.alice_world
       = (Ok tt, written Scenario.steady "alice" "synced" w2)) /\
  (exists w1,
     WebhookHandler.doProcessWebhook "alice" Scenario.primary_headers
       Scenario.provider_down Scenario.alice_world
       = (Ok tt,
          written Scenario.provider_down "alice" "scheduled_full_sync"
            (written Scenario.provider_down "alice" "error" w1))).
Proof.
  split; [|split].
  - destruct (doProcessWebhook_terminal_status "alice" Scenario.primary_headers
                Scenario.search_down Scenario.alice_world) as (Happlied & _ & _).
    destruct (Happlied
                (map WebhookHandler.to_change
                   [Scenario.fresh_event; Scenario.edited_event])
                (snd (WebhookHandler.fetchIncrementalChanges "alice"
                        Scenario.primary_headers Scenario.search_down
                        Scenario.alice_world)))
      as (results & w2 & Happly & _ & _ & _ & Hpartial & Hrun);
      [vm_compute; reflexivity | discriminate |].
    assert (HK : fst (WebhookHandler.apply_changes "alice"
                        (map WebhookHandler.to_change
                           [Scenario.fresh_event; Scenario.edited_event]) 0
                        Scenario.search_down
                        (snd (WebhookHandler.fetchIncrementalChanges "alice"
                                Scenario.primary_headers Scenario.search_down
                                Scenario.alice_world))) = Ok 1)
      by (vm_compute; reflexivity).
    rewrite Happly in HK. simpl in HK. injection HK as HK.
    exists w2. cbv zeta in Hrun. rewrite HK in Hrun.
    apply Hrun. reflexivity.
  - destruct (doProcessWebhook_terminal_status "alice" Scenario.primary_headers
                Scenario.steady Scenario.alice_world) as (Happlied & _ & _).
    destruct (Happlied
                (map WebhookHandler.to_change [Scenario.fresh_event])
                (snd (WebhookHandler.fetchIncrementalChanges "alice"
                        Scenario.primary_headers Scenario.steady
                        Scenario.alice_world)))
      as (results & w2 & Happly & _ & _ & _ & _ & Hrun);
      [vm_compute; reflexivity | discriminate |].
    assert (HK : fst (WebhookHandler.apply_changes "alice"
                        (map WebhookHandler.to_change [Scenario.fresh_event]) 0
                        Scenario.steady
                        (snd (WebhookHandler.fetchIncrementalChanges "alice"
                                Scenario.primary_headers Scenario.steady
                                Scenario.alice_world))) = Ok 1)
      by (vm_compute; reflexivity).
    rewrite Happly in HK. simpl in HK. injection HK as HK.
    exists w2. cbv zeta in Hrun. rewrite HK in Hrun.
    apply Hrun. reflexivity.
  - destruct (doProcessWebhook_terminal_status "alice" Scenario.primary_headers
                Scenario.provider_down Scenario.alice_world) as (_ & Hfailed & _).
    eexists. eapply Hfailed; [vm_compute; reflexivity | reflexivity | reflexivity].
Defined.

(** C1 does not hold with the status `active`: a run that fetches one
    change and applies it successfully writes "synced", and the user's row,
    which held "active" before, no longer does. *)
Lemma all_applied_status_is_synced_not_active :
  fst Scenario.steady_fetch = Ok [WebhookHandler.to_change Scenario.fresh_event] /\
  applications (trace (snd Scenario.steady_run))
    = [("alice", Scenario.fresh_event, created_, true)] /\
  map (fun x => upd_sync_status (snd (fst x)))
      (status_updates (trace (snd Scenario.steady_run)))
    = [Some "synced"] /\
  sync_status <$> connections (snd Scenario.steady_run) !! "alice"
    = Some "synced" /\
  sync_status <$> connections (snd Scenario.steady_run) !! "alice"
    <> Some "active".
Proof. vm_compute. repeat split; discriminate. Qed.

(** C3 does not hold as stated: a run whose fetch finds no change writes
    no status at all, and a run whose fetch fails writes two, "error" and
    then "scheduled_full_sync". *)
Lemma status_writes_not_always_one :
  fst Scenario.quiet_fetch = Ok [] /\
  fst Scenario.quiet_run = Ok tt /\
  status_updates (trace (snd Scenario.quiet_run)) = [] /\
  fst Scenario.provider_down_fetch = Throw Scenario.backend_error /\
  fst Scenario.provider_down_run = Ok tt /\
  map (fun x => (upd_sync_status (snd (fst x)), snd x))
      (status_updates (trace (snd Scenario.provider_down_run)))
    = [(Some "error", true); (Some "scheduled_full_sync", true)] /\
  length (status_updates (trace (snd Scenario.quiet_run))) <> 1 /\
  length (status_updates (trace (snd Scenario.provider_down_run))) <> 1.
Proof. vm_compute. repeat split; discriminate. Qed.

Lemma write_executed_true env u s w :
  write_executed env u s w = true <-> write_executes env u s w.
Proof.
  unfold write_executed, write_executes, executes.
  destruct (query_error env _ _); split; congruence.
Qed.

Lemma unwritten_status_updates env u s w :
  status_updates (trace (unwritten env u s w)) =
    status_updates (trace w) ++ [(u, status_update s (clock env w), false)].
Proof.
  unfold unwritten, after_new_Date. simpl.
  rewrite !status_updates_app. simpl. now rewrite app_nil_r.
Qed.

(** The failure handler: its status updates, and how it ends. *)
Lemma doProcessWebhook_catch_updates u env w :
  let r := WebhookHandler.doProcessWebhook_catch u env w in
  status_updates (trace (snd r))
    = status_updates (trace w) ++ failure_updates env u w /\
  (write_executed env u "error" w = true -> fst r = Ok tt) /\
  (write_executed env u "error" w = false -> exists e, fst r = Throw e).
Proof.
  cbv zeta. rewrite doProcessWebhook_catch_run. unfold failure_updates.
  unfold write_executed.
  destruct (query_error env _ (UpdateConnection u (status_update "error" _)))
    as [e|].
  - cbn [fst snd]. rewrite unwritten_status_updates.
    split; [reflexivity |]. split; [discriminate | eauto].
  - rewrite scheduleFullSync_run.
    destruct (query_error env _ _) as [e|]; cbn [fst snd];
      repeat (rewrite written_status_updates || rewrite unwritten_status_updates);
      rewrite <- ?app_assoc;
      (split; [reflexivity |]); (split; [now intros _ | discriminate]).
Qed.

(** C3, as the code has it.  After its fetch a run issues these status
    updates and no others.  When the fetch returned no change: none, the
    run ends in the world the fetch left.  When the fetch returned changes:
    one update, "synced" or "partial_sync"; if the database executes it the
    run ends there without an error, and if the database rejects it the
    failure handler follows.  When the fetch threw: those of the failure
    handler.  The failure handler issues "error"; if the database rejects
    it, nothing follows and the run throws; if the database executes it,
    the handler issues "scheduled_full_sync", executed or not, and the run
    ends without an error.  So with a database that executes every
    statement a run writes, after its fetch, no status when there is no
    change, one when there are changes and two when the fetch threw. *)
Theorem doProcessWebhook_status_writes
    (u : string) (h : GoogleWebhookHeaders) (env : Env) (w : World) :
  let run := WebhookHandler.doProcessWebhook u h env w in
  (forall w1,
     WebhookHandler.fetchIncrementalChanges u h env w = (Ok [], w1) ->
     run = (Ok tt, w1)) /\
  (forall changes w1,
     WebhookHandler.fetchIncrementalChanges u h env w = (Ok changes, w1) ->
     changes <> [] ->
     exists (successCount : nat) (w2 : World),
       WebhookHandler.apply_changes u changes 0 env w1 = (Ok successCount, w2) /\
       successCount <= length changes /\
       status_updates (trace w2) = status_updates (trace w1) /\
       let s := outcome_status successCount (length changes) in
       status_updates (trace (snd run))
         = status_updates (trace w1) ++
           (u, status_update s (clock env w2), write_executed env u s w2) ::
           (if write_executed env u s w2 then []
            else failure_updates env u (unwritten env u s w2)) /\
       (write_executed env u s w2 = true -> fst run = Ok tt) /\
       (write_executed env u s w2 = false ->
        (write_executed env u "error" (unwritten env u s w2) = true ->
         fst run = Ok tt) /\
        (write_executed env u "error" (unwritten env u s w2) = false ->
         exists e, fst run = Throw e))) /\
  (forall e w1,
     WebhookHandler.fetchIncrementalChanges u h env w = (Throw e, w1) ->
     status_updates (trace (snd run))
       = status_updates (trace w1) ++ failure_updates env u w1 /\
     (write_executed env u "error" w1 = true -> fst run = Ok tt) /\
     (write_executed env u "error" w1 = false -> exists e', fst run = Throw e')) /\
  (database_healthy env ->
   forall r w1,
     WebhookHandler.fetchIncrementalChanges u h env w = (r, w1) ->
     exists added,
       status_updates (trace (snd run)) = status_updates (trace w1) ++ added /\
       Forall (fun x => snd x = true) added /\
       length added = match r with
                      | Ok [] | Diverges => 0
                      | Ok (_ :: _) => 1
                      | Throw _ => 2
                      end).
Proof.
  cbv zeta.
  assert (Hchanges : forall changes w1,
    WebhookHandler.fetchIncrementalChanges u h env w = (Ok changes, w1) ->
    changes <> [] ->
    exists (successCount : nat) (w2 : World),
      WebhookHandler.apply_changes u changes 0 env w1 = (Ok successCount, w2) /\
      successCount <= length changes /\
      status_updates (trace w2) = status_updates (trace w1) /\
      let s := outcome_status successCount (length changes) in
      status_updates (trace (snd (WebhookHandler.doProcessWebhook u h env w)))
        = status_updates (trace w1) ++
          (u, status_update s (clock env w2), write_executed env u s w2) ::
          (if write_executed env u s w2 then []
           else failure_updates env u (unwritten env u s w2)) /\
      (write_executed env u s w2 = true ->
       fst (WebhookHandler.doProcessWebhook u h env w) = Ok tt) /\
      (write_executed env u s w2 = false ->
       (write_executed env u "error" (unwritten env u s w2) = true ->
        fst (WebhookHandler.doProcessWebhook u h env w) = Ok tt) /\
       (write_executed env u "error" (unwritten env u s w2) = false ->
        exists e, fst (WebhookHandler.doProcessWebhook u h env w) = Throw e))).
  { intros changes w1 Hfetch Hne.
    destruct (apply_changes_run u changes 0 env w1)
      as (results & w2 & Happly & Hlen & _ & (sfx & Htr & Hall) & _).
    rewrite Nat.add_0_l in Happly.
    exists (count_true results), w2. split; [exact Happly |].
    split; [rewrite <- Hlen; apply count_true_le |].
    assert (Hsame : status_updates (trace w2) = status_updates (trace w1)).
    { rewrite Htr, status_updates_app, (status_updates_sink sfx Hall).
      apply app_nil_r. }
    split; [exact Hsame |]. cbv zeta.
    rewrite (doProcessWebhook_applied u h env w changes w1 _ w2 Hfetch Hne Happly).
    cbv zeta. unfold write_executed at 1 2 3 4.
    destruct (query_error env _ _) as [e|].
    - destruct (doProcessWebhook_catch_updates u env
                  (unwritten env u
                     (outcome_status (count_true results) (length changes)) w2))
        as (Hupd & Hok & Hthrow).
      rewrite Hupd, unwritten_status_updates, Hsame, <- app_assoc.
      split; [reflexivity |]. split; [discriminate |]. intros _. now split.
    - cbn [fst snd]. rewrite written_status_updates, Hsame.
      split; [reflexivity |]. split; [now intros _ | discriminate]. }
  assert (Hthrow : forall e w1,
    WebhookHandler.fetchIncrementalChanges u h env w = (Throw e, w1) ->
    status_updates (trace (snd (WebhookHandler.doProcessWebhook u h env w)))
      = status_updates (trace w1) ++ failure_updates env u w1 /\
    (write_executed env u "error" w1 = true ->
     fst (WebhookHandler.doProcessWebhook u h env w) = Ok tt) /\
    (write_executed env u "error" w1 = false ->
     exists e', fst (WebhookHandler.doProcessWebhook u h env w) = Throw e')).
  { intros e w1 Hfetch.
    rewrite (doProcessWebhook_failed u h env w e w1 Hfetch).
    apply doProcessWebhook_catch_updates. }
  split; [| split; [exact Hchanges | split; [exact Hthrow |]]].
  - intros w1. apply doProcessWebhook_no_change.
  - intros Hdb r w1 Hfetch.
    assert (Hex : forall s w0, write_executed env u s w0 = true).
    { intros s w0. unfold write_executed. now rewrite Hdb. }
    destruct r as [[|change rest]|e|].
    + rewrite (doProcessWebhook_no_change u h env w w1 Hfetch).
      exists []. rewrite app_nil_r. now repeat split.
    + destruct (Hchanges (change :: rest) w1 Hfetch ltac:(discriminate))
        as (successCount & w2 & _ & _ & _ & Hupd & _).
      cbv zeta in Hupd. rewrite Hex in Hupd. eexists. split; [exact Hupd |].
      split; [now repeat constructor | reflexivity].
    + destruct (Hthrow e w1 Hfetch) as (Hupd & _).
      unfold failure_updates in Hupd. rewrite !Hex in Hupd.
      eexists. split; [exact Hupd |].
      split; [now repeat constructor | reflexivity].
    + exists []. rewrite app_nil_r. split; [| now split].
      unfold WebhookHandler.doProcessWebhook, WebhookHandler.doProcessWebhook_try.
      now rewrite run_try_catch, run_bind, Hfetch.
Qed.

Lemma doProcessWebhook_status_writes_witness :
  WebhookHandler.doProcessWebhook "alice" Scenario.primary_headers
    Scenario.quiet Scenario.alice_world = (Ok tt, snd Scenario.quiet_fetch) /\
  (exists successCount w2,
     status_updates (trace (snd Scenario.steady_run))
       = status_updates (trace (snd Scenario.steady_fetch)) ++
         [("alice",
           status_update (outcome_status successCount 1)
             (clock Scenario.steady w2), true)]) /\
  map (fun x => (upd_sync_status (snd (fst x)), snd x))
      (status_updates (trace (snd Scenario.provider_down_run)))
    = [(Some "error", true); (Some "scheduled_full_sync", true)] /\
  (exists e,
     fst (WebhookHandler.doProcessWebhook "alice" Scenario.primary_headers
            Scenario.status_unwritable Scenario.alice_world) = Throw e) /\
  map (fun x => (upd_sync_status (snd (fst x)), snd x))
      (status_updates
         (trace (snd (WebhookHandler.doProcessWebhook "alice"
                        Scenario.primary_headers Scenario.status_unwritable
                        Scenario.alice_world))))
    = [(Some "error", false)].
Proof.
  split; [| split; [| split; [| split]]].
  - pose proof (doProcessWebhook_status_writes "alice" Scenario.primary_headers
                  Scenario.quiet Scenario.alice_world) as H.
    cbv zeta in H. destruct H as (Hnone & _).
    apply Hnone. vm_compute. reflexivity.
  - pose proof (doProcessWebhook_status_writes "alice" Scenario.primary_headers
                  Scenario.steady Scenario.alice_world) as H.
    cbv zeta in H. destruct H as (_ & Hone & _).
    destruct (Hone [WebhookHandler.to_change Scenario.fresh_event]
                (snd Scenario.steady_fetch))
      as (successCount & w2 & _ & _ & _ & Hupd & _);
      [vm_compute; reflexivity | discriminate |].
    exists successCount, w2. exact Hupd.
  - pose proof (doProcessWebhook_status_writes "alice" Scenario.primary_headers
                  Scenario.provider_down Scenario.alice_world) as H.
    cbv zeta in H. destruct H as (_ & _ & Htwo & _).
    destruct (Htwo Scenario.backend_error (snd Scenario.provider_down_fetch))
      as [Hupd _]; [vm_compute; reflexivity |].
    unfold Scenario.provider_down_run. rewrite Hupd. vm_compute. reflexivity.
  - pose proof (doProcessWebhook_status_writes "alice" Scenario.primary_headers
                  Scenario.status_unwritable Scenario.alice_world) as H.
    cbv zeta in H. destruct H as (_ & _ & Hthrow & _).
    destruct (Hthrow Scenario.backend_error
                (snd (WebhookHandler.fetchIncrementalChanges "alice"
                        Scenario.primary_headers Scenario.status_unwritable
                        Scenario.alice_world)))
      as (_ & _ & Hrejected); [vm_compute; reflexivity |].
    apply Hrejected. reflexivity.
  - pose proof (doProcessWebhook_status_writes "alice" Scenario.primary_headers
                  Scenario.status_unwritable Scenario.alice_world) as H.
    cbv zeta in H. destruct H as (_ & _ & Hthrow & _).
    destruct (Hthrow Scenario.backend_error
                (snd (WebhookHandler.fetchIncrementalChanges "alice"
                        Scenario.primary_headers Scenario.status_unwritable
                        Scenario.alice_world)))
      as (Hupd & _); [vm_compute; reflexivity |].
    rewrite Hupd. vm_compute. reflexivity.
Defined.

(** ** Full sync *)

Lemma list_requests_app l1 l2 :
  list_requests (l1 ++ l2) = list_requests l1 ++ list_requests l2.
Proof. unfold list_requests. apply flat_map_app. Qed.

Lemma list_requests_log e w :
  list_requests (trace (log e w)) = list_requests (trace w) ++ list_requests [e].
Proof. simpl. apply list_requests_app. Qed.

Lemma list_requests_sink (l : list Effect) :
  forallb sink_effect l = true -> list_requests l = [].
Proof.
  induction l as [|e l IH]; simpl; [easy |]. intros H.
  apply andb_prop in H as [He Hl]. rewrite (IH Hl). now destruct e.
Qed.

Lemma count_events_list_sink (l : list Effect) :
  forallb sink_effect l = true -> count is_events_list l = 0.
Proof.
  intros H. apply count_none. rewrite forallb_forall in *. intros e He.
  specialize (H e He). now destruct e.
Qed.


(** The loop over the events of a page upserts each of them as created. *)
Lemma apply_created_run u events env w :
  exists (results : list bool) (w2 : World),
    WebhookHandler.apply_created u events env w = (Ok tt, w2) /\
    length results = length events /\
    applications (trace w2) = applications (trace w) ++ upserted u events results /\
    appends sink_effect w w2 /\ same_tables w w2.
Proof.
  revert w. induction events as [|ev rest IH]; intros w.
  - exists [], w. simpl. rewrite app_nil_r. repeat split; reflexivity.
  - simpl. rewrite run_bind.
    destruct (processCalendarChange_run u ev created_ env w)
      as (b & w1 & -> & (sfx & Htr & Hall) & Htab).
    set (w1' := log (EApplied u ev created_ b) w1).
    destruct (IH w1') as (results & w2 & -> & Hlen & Happ & Hsink & Htab2).
    exists (b :: results), w2. split; [reflexivity |].
    split; [simpl; now rewrite Hlen |]. split; [| split].
    + rewrite Happ. subst w1'. simpl. rewrite Htr, !applications_app.
      rewrite (applications_fetches sfx Hall). simpl.
      now rewrite app_nil_r, <- app_assoc.
    + etransitivity; [| exact Hsink].
      exists (sfx ++ [EApplied u ev created_ b]).
      subst w1'. simpl. rewrite Htr, forallb_app, (is_fetch_sink sfx Hall).
      split; [now rewrite app_assoc | reflexivity].
    + etransitivity; [exact Htab |]. etransitivity; [| exact Htab2].
      subst w1'. apply same_tables_log.
Qed.



(** *** One calendar does not stop the others *)

Lemma later_pages_requests fuel u calId past future tok env w :
  exists more,
    list_requests (trace (snd (WebhookHandler.page_loop fuel u calId past future
                                 (Some tok) env w)))
      = list_requests (trace w) ++ more /\
    forallb (fun p => negb (is_first_page p)) more = true.
Proof.
  revert tok w. induction fuel as [|fuel IH]; intros tok w.
  { exists []. simpl. now rewrite app_nil_r. }
  cbn [WebhookHandler.page_loop]. rewrite run_bind. unfold calendar_events_list.
  change (WebhookHandler.page_params ?c0 ?d0 ?d1 ?t0)
    with (page_request c0 d0 d1 t0).
  set (p := page_request calId past future (Some tok)).
  set (w0 := log (EEventsList p) w).
  assert (H0 : list_requests (trace w0) = list_requests (trace w) ++ [p]).
  { subst w0. simpl. now rewrite list_requests_app. }
  destruct (events_list env _ p) as [page|e]; cbn [settle_result].
  2: { exists [p]. split; [exact H0 | reflexivity]. }
  rewrite run_bind.
  destruct (apply_created_run u (default [] (items page)) env w0)
    as (results & w1 & -> & _ & _ & (sfx & Htr & Hall) & _).
  assert (H1 : list_requests (trace w1) = list_requests (trace w) ++ [p]).
  { now rewrite Htr, list_requests_app, (list_requests_sink sfx Hall), app_nil_r. }
  destruct (Js.or_undefined (nextPageToken page)) as [tok'|].
  - destruct (IH tok' w1) as (more & Hmore & Hlater).
    exists (p :: more). split; [| exact Hlater].
    rewrite Hmore, H1, <- app_assoc. reflexivity.
  - exists [p]. split; [exact H1 | reflexivity].
Qed.

(** On a provider whose paging ends, the loop ends when it has fuel for
    the pages that are left. *)
Lemma page_loop_terminates env bound fuel u calId past future tok w :
  paging_ends env bound ->
  0 < fuel -> bound < fuel + count is_events_list (trace w) ->
  fst (WebhookHandler.page_loop fuel u calId past future tok env w) <> Diverges.
Proof.
  intros Hends. revert tok w. induction fuel as [|fuel IH]; intros tok w H0 Hb.
  { lia. }
  cbn [WebhookHandler.page_loop]. rewrite run_bind. unfold calendar_events_list.
  change (WebhookHandler.page_params ?c0 ?d0 ?d1 ?t0)
    with (page_request c0 d0 d1 t0).
  set (p := page_request calId past future tok).
  destruct (events_list env _ p) as [page|e] eqn:Hpage; cbn [settle_result];
    [| discriminate].
  rewrite run_bind.
  destruct (apply_created_run u (default [] (items page)) env (log (EEventsList p) w))
    as (results & w1 & -> & _ & _ & (sfx & Htr & Hall) & _).
  destruct (Js.or_undefined (nextPageToken page)) as [tok'|] eqn:Htok;
    [| discriminate].
  assert (Hn : count is_events_list (trace w) < bound).
  { destruct (Nat.lt_ge_cases (count is_events_list (trace w)) bound)
      as [Hl|Hg]; [exact Hl |].
    rewrite (Hends _ _ _ Hg Hpage) in Htok. discriminate. }
  apply IH; [lia |].
  rewrite Htr, count_app, (count_events_list_sink sfx Hall), count_log. simpl. lia.
Qed.

(** The requests of one calendar: its first page, then only later pages
    and the single-result request. *)
Lemma sync_calendar_requests fuel u calId env w :
  exists r w',
    WebhookHandler.sync_calendar (S fuel) u calId env w = (r, w') /\
    (r = Ok tt \/
     r = Diverges /\ forall bound, paging_ends env bound -> fuel < bound) /\
    exists past future more,
      list_requests (trace w')
        = list_requests (trace w)
          ++ page_request calId past future None :: more /\
      forallb (fun p => negb (is_first_page p)) more = true.
Proof.
  unfold WebhookHandler.sync_calendar, WebhookHandler.sync_calendar_try.
  rewrite run_try_catch, run_bind. unfold new_Date at 1.
  rewrite run_bind. unfold new_Date at 1.
  fold (clock env w). fold (after_new_Date env w).
  fold (clock env (after_new_Date env w)).
  fold (after_new_Date env (after_new_Date env w)).
  set (wd := after_new_Date env (after_new_Date env w)).
  set (past := Js.setDate_plus (Js.Date (clock env w) 0) (-30)).
  set (future := Js.setDate_plus (Js.Date (clock env (after_new_Date env w)) 0) 365).
  assert (Hrd : list_requests (trace wd) = list_requests (trace w)).
  { subst wd. unfold after_new_Date. simpl. rewrite !list_requests_app. simpl.
    now rewrite !app_nil_r. }
  rewrite run_bind. cbn [WebhookHandler.page_loop]. rewrite run_bind.
  unfold calendar_events_list at 1.
  change (WebhookHandler.page_params ?c0 ?d0 ?d1 ?t0)
    with (page_request c0 d0 d1 t0).
  set (p := page_request calId past future None).
  set (w0 := log (EEventsList p) wd).
  assert (H0 : list_requests (trace w0) = list_requests (trace w) ++ [p]).
  { subst w0. now rewrite list_requests_log, Hrd. }
  destruct (events_list env _ p) as [page|e] eqn:Hpage; cbn [settle_result].
  2: { eexists _, _. split; [reflexivity |]. split; [now left |].
       exists past, future, []. split; [exact H0 | reflexivity]. }
  rewrite run_bind.
  destruct (apply_created_run u (default [] (items page)) env w0)
    as (results & w1 & -> & _ & _ & (sfx & Htr & Hall) & _).
  assert (H1 : list_requests (trace w1) = list_requests (trace w) ++ [p]).
  { now rewrite Htr, list_requests_app, (list_requests_sink sfx Hall), app_nil_r. }
  assert (Hc1 : count is_events_list (trace w1) = S (count is_events_list (trace wd))).
  { rewrite Htr, count_app, (count_events_list_sink sfx Hall).
    subst w0. rewrite count_log. simpl. lia. }
  assert (Hloop : exists r1 w2 more,
    match Js.or_undefined (nextPageToken page) with
    | Some tok => WebhookHandler.page_loop fuel u calId past future (Some tok)
    | None => mret tt
    end env w1 = (r1, w2) /\
    list_requests (trace w2) = list_requests (trace w) ++ p :: more /\
    forallb (fun p => negb (is_first_page p)) more = true /\
    (r1 = Diverges -> forall bound, paging_ends env bound -> fuel < bound)).
  { destruct (Js.or_undefined (nextPageToken page)) as [tok|] eqn:Htok.
    - destruct (later_pages_requests fuel u calId past future tok env w1)
        as (more & Hmore & Hlater).
      pose proof (fun bound => page_loop_terminates env bound fuel u calId past
                                 future (Some tok) w1) as Hterm.
      destruct (WebhookHandler.page_loop fuel u calId past future (Some tok) env w1)
        as [r1 w2]. exists r1, w2, more. split; [reflexivity |].
      simpl in Hmore. split; [| split; [exact Hlater |]].
      + rewrite Hmore, H1, <- app_assoc. reflexivity.
      + intros -> bound Hends.
        destruct (Nat.lt_ge_cases fuel bound) as [Hlt|Hge]; [exact Hlt |].
        exfalso.
        assert (Hn : count is_events_list (trace wd) < bound).
        { destruct (Nat.lt_ge_cases (count is_events_list (trace wd)) bound)
            as [Hl|Hg]; [exact Hl |].
          rewrite (Hends _ _ _ Hg Hpage) in Htok. discriminate. }
        apply (Hterm bound Hends); [lia | lia | reflexivity].
    - exists (Ok tt), w1, []. split; [reflexivity |].
      split; [exact H1 |]. split; [reflexivity | discriminate]. }
  destruct Hloop as (r1 & w2 & more & -> & Hreq & Hlater & Hdiv).
  destruct r1 as [[]|e|].
  2: { eexists _, _. split; [reflexivity |]. split; [now left |].
       exists past, future, more. split; [exact Hreq | exact Hlater]. }
  2: { eexists _, _. split; [reflexivity |].
       split; [right; split; [reflexivity | now apply Hdiv] |].
       exists past, future, more. split; [exact Hreq | exact Hlater]. }
  rewrite run_bind. unfold calendar_events_list.
  change (WebhookHandler.refresh_params ?c0) with (anchor_request c0).
  set (q := anchor_request calId).
  set (w3 := log (EEventsList q) w2).
  assert (H3 : list_requests (trace w3) = list_requests (trace w) ++ p :: more ++ [q]).
  { subst w3. rewrite list_requests_log, Hreq, <- app_assoc. reflexivity. }
  assert (Hlater3 : forallb (fun p => negb (is_first_page p)) (more ++ [q]) = true).
  { rewrite forallb_app, Hlater. reflexivity. }
  destruct (events_list env _ q) as [refreshed|e]; cbn [settle_result].
  2: { eexists _, _. split; [reflexivity |]. split; [now left |].
       exists past, future, (more ++ [q]). split; [exact H3 | exact Hlater3]. }
  destruct (Js.or_undefined (nextSyncToken refreshed)) as [tok|].
  - rewrite run_bind.
    destruct (total_updateSyncToken u calId (Some tok) env w3) as [b Hb].
    destruct (updateSyncToken_trace u calId (Some tok) env w3) as [b' Htr'].
    destruct (Db.updateSyncToken u calId (Some tok) env w3) as [r4 w4].
    cbn [fst snd] in Hb, Htr'. subst r4.
    eexists _, _. split; [reflexivity |]. split; [now left |].
    exists past, future, (more ++ [q]). split; [| exact Hlater3].
    rewrite Htr', list_requests_app, H3. simpl. now rewrite app_nil_r.
  - eexists _, _. split; [reflexivity |]. split; [now left |].
    exists past, future, (more ++ [q]). split; [exact H3 | exact Hlater3].
Qed.

Lemma filter_later_pages (more : list ListParams) :
  forallb (fun p => negb (is_first_page p)) more = true ->
  List.filter is_first_page more = [].
Proof.
  induction more as [|p more IH]; simpl; [easy |]. intros H.
  apply andb_prop in H as [Hp Hm]. destruct (is_first_page p); [discriminate |].
  now apply IH.
Qed.

(** Every calendar of the list gets its first-page request, in order,
    whatever happened to the calendars before it. *)
Lemma sync_calendars_run env bound fuel u :
  paging_ends env bound -> bound <= fuel ->
  forall calendarIds w,
  exists w' requests,
    WebhookHandler.sync_calendars (S fuel) u calendarIds env w = (Ok tt, w') /\
    list_requests (trace w') = list_requests (trace w) ++ requests /\
    map calendarId (List.filter is_first_page requests) = calendarIds.
Proof.
  intros Hends Hfuel. induction calendarIds as [|calId rest IH]; intros w.
  { exists w, []. simpl. now rewrite app_nil_r. }
  cbn [WebhookHandler.sync_calendars]. rewrite run_bind.
  destruct (sync_calendar_requests fuel u calId env w)
    as (r & w1 & -> & Hr & past & future & more & Hreq & Hlater).
  destruct Hr as [-> | [_ Hdiv]].
  2: { specialize (Hdiv bound Hends). lia. }
  destruct (IH w1) as (w' & requests & -> & Hreq' & Hfirst).
  exists w', (page_request calId past future None :: more ++ requests).
  split; [reflexivity |]. split.
  - rewrite Hreq', Hreq, <- app_assoc. reflexivity.
  - cbn [List.filter is_first_page page_request maxResults pageToken
         Z.eqb Pos.eqb andb map calendarId].
    rewrite List.filter_app, (filter_later_pages more Hlater). simpl.
    now rewrite Hfirst.
Qed.





(** ** The in-flight registry *)

Module DispatcherFacts.

Import Dispatcher.

Lemma Inv_init w : Inv (init w).
Proof.
  split; simpl.
  - intros key p. rewrite lookup_empty. split; [discriminate | contradiction].
  - contradiction.
  - intros p r H. rewrite lookup_nil in H. discriminate.
Qed.

Lemma Inv_processWebhookAsync h userId headers :
  Inv h -> Inv (processWebhookAsync h userId headers).
Proof.
  intros [I1 I2 I3]. unfold processWebhookAsync.
  set (key := processingKey userId headers).
  destruct (processingQueue h !! key) as [p0|] eqn:Hq; [now split |].
  set (p := length (promises h)).
  set (r := {| run_userId := userId; run_headers := headers; run_state := Pending |}).
  split; simpl.
  - intros key' p'. destruct (decide (key = key')) as [<-|Hne].
    + rewrite lookup_insert_eq. split.
      * intros [= <-]. now left.
      * intros [[= <-]|Hin]; [reflexivity |].
        apply I1 in Hin. congruence.
    + rewrite lookup_insert_ne by exact Hne. rewrite I1. split.
      * intros Hin. now right.
      * intros [[= Hk _]|Hin]; [congruence | exact Hin].
  - intros key' p' [[= <- <-]|Hin].
    + exists r. split; [| reflexivity].
      rewrite lookup_app_r by (subst p; lia).
      subst p. now rewrite Nat.sub_diag.
    + destruct (I2 _ _ Hin) as (r' & Hr' & Hk). exists r'. split; [| exact Hk].
      now apply lookup_app_l_Some.
  - intros p' r' Hr' Hpending.
    destruct (Nat.lt_ge_cases p' (length (promises h))) as [Hlt|Hge].
    + rewrite lookup_app_l in Hr' by exact Hlt. right. now apply I3.
    + rewrite lookup_app_r in Hr' by exact Hge.
      destruct (p' - length (promises h)) as [|n] eqn:Hd; simpl in Hr';
        [| now rewrite lookup_nil in Hr'].
      injection Hr' as <-. left. subst p. f_equal. lia.
Qed.

Lemma Inv_settle env h p : Inv h -> Inv (settle env h p).
Proof.
  intros [I1 I2 I3]. unfold settle.
  destruct (promises h !! p) as [[userId headers [| |e]]|] eqn:Hp;
    try (now split).
  assert (Hlen : p < length (promises h)) by (eapply lookup_lt_Some; eauto).
  assert (Hany : forall st w',
    st <> Pending ->
    Inv {| processingQueue := processingQueue h;
           promises := <[p := {| run_userId := userId; run_headers := headers;
                                 run_state := st |}]> (promises h);
           suspended := suspended h;
           world := w' |}).
  { intros st w' Hst. split; simpl.
    - exact I1.
    - intros key p' Hin. destruct (I2 _ _ Hin) as (r & Hr & Hk).
      destruct (decide (p = p')) as [<-|Hne].
      + rewrite Hp in Hr. injection Hr as <-.
        eexists. split; [apply list_lookup_insert_eq; exact Hlen | exact Hk].
      + exists r. split; [| exact Hk]. now rewrite list_lookup_insert_ne.
    - intros p' r Hr Hpending. destruct (decide (p = p')) as [<-|Hne].
      + rewrite list_lookup_insert_eq in Hr by exact Hlen.
        injection Hr as <-. simpl in Hpending. congruence.
      + rewrite list_lookup_insert_ne in Hr by exact Hne. now apply I3. }
  destruct (WebhookHandler.doProcessWebhook userId headers env (world h))
    as [[[]|e|] w']; [apply Hany | apply Hany | now split]; discriminate.
Qed.

Lemma settled_not_pending h p r :
  settled h p = true -> promises h !! p = Some r -> run_state r <> Pending.
Proof.
  unfold settled. intros Hs Hr. rewrite Hr in Hs.
  destruct r as [? ? [| |e]]; simpl in *; congruence.
Qed.

Lemma Inv_resume h key p : Inv h -> Inv (resume h key p).
Proof.
  intros [I1 I2 I3]. unfold resume.
  destruct (bool_decide ((key, p) ∈ suspended h)) eqn:Hin; [| now split].
  destruct (settled h p) eqn:Hs; [| now split]. simpl.
  apply bool_decide_eq_true in Hin. apply list_elem_of_In in Hin.
  assert (Hfilter : forall key' p',
    In (key', p') (List.filter (fun f => negb (bool_decide (f = (key, p))))
                     (suspended h))
    <-> In (key', p') (suspended h) /\ (key', p') <> (key, p)).
  { intros key' p'. rewrite filter_In. split; intros [H1 H2]; split; try exact H1.
    - apply negb_true_iff, bool_decide_eq_false in H2. exact H2.
    - apply negb_true_iff, bool_decide_eq_false. exact H2. }
  split; simpl.
  - intros key' p'. rewrite Hfilter. destruct (decide (key = key')) as [<-|Hne].
    + rewrite lookup_delete_eq. split; [discriminate |].
      intros [Hin' Hneq]. apply I1 in Hin, Hin'. congruence.
    + rewrite lookup_delete_ne by exact Hne. rewrite I1. split.
      * intros Hin'. split; [exact Hin' | congruence].
      * now intros [Hin' _].
  - intros key' p' Hin'. apply Hfilter in Hin' as [Hin' _]. now apply I2.
  - intros p' r Hr Hpending. apply Hfilter. split; [now apply I3 |].
    intros [= _ ->]. now apply (settled_not_pending h p r Hs Hr).
Qed.

Lemma Inv_step env h a : Inv h -> Inv (step env h a).
Proof.
  destruct a; simpl;
    [apply Inv_processWebhookAsync | apply Inv_settle | apply Inv_resume].
Qed.

Lemma Inv_run env schedule : forall h, Inv h -> Inv (run env h schedule).
Proof.
  unfold run. induction schedule as [|a schedule IH]; intros h Hh; simpl;
    [exact Hh | apply IH, Inv_step, Hh].
Qed.

Lemma in_in_flight h userId channel p :
  In p (in_flight h userId channel) ->
  exists r, promises h !! p = Some r /\ run_userId r = userId /\
            channelId (run_headers r) = channel /\ run_state r = Pending.
Proof.
  unfold in_flight. rewrite filter_In. intros [_ H].
  destruct (promises h !! p) as [r|]; [| discriminate].
  apply andb_prop in H as [H Hst]. apply andb_prop in H as [Hu Hc].
  apply bool_decide_eq_true in Hu, Hc, Hst. now exists r.
Qed.

Lemma length_le_1 {A} (l : list A) :
  List.NoDup l -> (forall x y, In x l -> In y l -> x = y) -> length l <= 1.
Proof.
  intros Hnd Heq. destruct l as [|x [|y l]]; simpl; try lia.
  exfalso. inversion Hnd as [|? ? Hx _]; subst. apply Hx.
  rewrite (Heq x y); [now left | now left | right; now left].
Qed.

Lemma in_flight_registered h userId channel p :
  Inv h -> In p (in_flight h userId channel) ->
  processingQueue h !! (userId +:+ "_" +:+ channel) = Some p.
Proof.
  intros [I1 _ I3] Hin.
  destruct (in_in_flight _ _ _ _ Hin) as (r & Hr & <- & <- & Hst).
  apply I1. now apply (I3 p r).
Qed.

End DispatcherFacts.

(** C2.  In every state the handler reaches from an empty registry, by any
    schedule of triggers, completions and resumptions: at most one run of
    [doProcessWebhook] is pending for a pair (userId, channelId); a trigger
    for a pair that has a pending run leaves the handler as it is, so it
    starts no run and touches neither the tables nor the trace; and when
    the promise a call waits for is settled, fulfilled or rejected alike,
    the resumption of that call removes its key from the registry, after
    which a trigger for the key is accepted again. *)
Theorem at_most_one_run_in_flight
    (env : Env) (w : World) (schedule : list Dispatcher.Action) :
  let h := Dispatcher.run env (Dispatcher.init w) schedule in
  (forall userId channel,
     length (Dispatcher.in_flight h userId channel) <= 1) /\
  (forall userId headers,
     Dispatcher.in_flight h userId (channelId headers) <> [] ->
     Dispatcher.step env h (Dispatcher.Trigger userId headers) = h) /\
  (forall key p r,
     In (key, p) (Dispatcher.suspended h) ->
     Dispatcher.promises h !! p = Some r ->
     Dispatcher.run_state r <> Dispatcher.Pending ->
     let h' := Dispatcher.step env h (Dispatcher.Resume key p) in
     Dispatcher.processingQueue h' !! key = None /\
     ~ In (key, p) (Dispatcher.suspended h') /\
     forall userId headers,
       Dispatcher.processingKey userId headers = key ->
       Dispatcher.processingQueue
         (Dispatcher.step env h' (Dispatcher.Trigger userId headers)) !! key
         = Some (length (Dispatcher.promises h'))).
Proof.
  intros h.
  assert (HI : Dispatcher.Inv h)
    by (apply DispatcherFacts.Inv_run, DispatcherFacts.Inv_init).
  split; [|split].
  - intros userId channel. apply DispatcherFacts.length_le_1.
    + unfold Dispatcher.in_flight. apply List.NoDup_filter, List.seq_NoDup.
    + intros p1 p2 H1 H2.
      apply (DispatcherFacts.in_flight_registered h _ _ _ HI) in H1, H2.
      congruence.
  - intros userId headers Hne.
    destruct (Dispatcher.in_flight h userId (channelId headers)) as [|p l] eqn:Hf;
      [congruence |].
    assert (Hin : In p (Dispatcher.in_flight h userId (channelId headers)))
      by (rewrite Hf; now left).
    apply (DispatcherFacts.in_flight_registered h _ _ _ HI) in Hin.
    simpl. unfold Dispatcher.processWebhookAsync, Dispatcher.processingKey.
    now rewrite Hin.
  - intros key p r Hin Hr Hst h'.
    assert (Hres : h' = {| Dispatcher.processingQueue :=
                             delete key (Dispatcher.processingQueue h);
                           Dispatcher.promises := Dispatcher.promises h;
                           Dispatcher.suspended :=
                             List.filter
                               (fun f => negb (bool_decide (f = (key, p))))
                               (Dispatcher.suspended h);
                           Dispatcher.world := Dispatcher.world h |}).
    { subst h'. simpl. unfold Dispatcher.resume.
      rewrite bool_decide_eq_true_2 by (now apply list_elem_of_In).
      unfold Dispatcher.settled. rewrite Hr.
      destruct r as [? ? [| |e]]; simpl in *; congruence. }
    rewrite Hres. simpl. split; [apply lookup_delete_eq |]. split.
    + rewrite filter_In. intros [_ H].
      apply negb_true_iff, bool_decide_eq_false in H. congruence.
    + intros userId headers <-. unfold Dispatcher.processWebhookAsync. simpl.
      rewrite lookup_delete_eq. simpl. apply lookup_insert_eq.
Qed.

Lemma at_most_one_run_in_flight_witness :
  Dispatcher.step Scenario.quiet
    (Dispatcher.run Scenario.quiet (Dispatcher.init Scenario.alice_world)
       Scenario.one_trigger)
    (Dispatcher.Trigger "alice" Scenario.primary_headers)
    = Dispatcher.run Scenario.quiet (Dispatcher.init Scenario.alice_world)
        Scenario.one_trigger /\
  Dispatcher.processingQueue
    (Dispatcher.step Scenario.quiet
       (Dispatcher.run Scenario.quiet (Dispatcher.init Scenario.alice_world)
          Scenario.completed)
       (Dispatcher.Resume Scenario.alice_key 0)) !! Scenario.alice_key = None /\
  Dispatcher.processingQueue
    (Dispatcher.step Scenario.status_unwritable
       (Dispatcher.run Scenario.status_unwritable
          (Dispatcher.init Scenario.alice_world) Scenario.completed)
       (Dispatcher.Resume Scenario.alice_key 0)) !! Scenario.alice_key = None.
Proof.
  split; [|split].
  - pose proof (at_most_one_run_in_flight Scenario.quiet Scenario.alice_world
                  Scenario.one_trigger) as H.
    cbv zeta in H. destruct H as (_ & Hdropped & _).
    apply Hdropped. vm_compute. discriminate.
  - pose proof (at_most_one_run_in_flight Scenario.quiet Scenario.alice_world
                  Scenario.completed) as H.
    cbv zeta in H. destruct H as (_ & _ & Hreleased).
    destruct (Hreleased Scenario.alice_key 0
                (Scenario.alice_run Dispatcher.Fulfilled)) as [Hr _].
    + vm_compute. left. reflexivity.
    + vm_compute. reflexivity.
    + discriminate.
    + exact Hr.
  - pose proof (at_most_one_run_in_flight Scenario.status_unwritable
                  Scenario.alice_world Scenario.completed) as H.
    cbv zeta in H. destruct H as (_ & _ & Hreleased).
    destruct (Hreleased Scenario.alice_key 0
                (Scenario.alice_run
                   (Dispatcher.Rejected Scenario.connection_terminated)))
      as [Hr _].
    + vm_compute. left. reflexivity.
    + vm_compute. reflexivity.
    + discriminate.
    + exact Hr.
Defined.

(** * Part V: further properties *)

(** ** DatabaseService and AuthService *)

(** ** The sync-token store *)

(** X1.  The sync-token store is a map that can be read back.  Once the
    database has executed [updateSyncToken] for a user and a calendar,
    [getSyncToken] for the same pair returns the token that was written
    (NULL included) whenever its read is executed; the token of every other
    pair, the users and the connections are as before. *)
Theorem sync_token_round_trip
    (u c : string) (t : option string) (env : Env) (w : World) :
  executes env w (UpsertSyncToken u c t) ->
  let w1 := snd (Db.updateSyncToken u c t env w) in
  fst (Db.updateSyncToken u c t env w) = Ok true /\
  (executes env w1 (SelectSyncToken u c) ->
   fst (Db.getSyncToken u c env w1) = Ok t) /\
  (forall u' c', (u', c') <> (u, c) ->
     sync_tokens w1 !! (u', c') = sync_tokens w !! (u', c')) /\
  users w1 = users w /\ connections w1 = connections w.
Proof.
  intros Hex w1. unfold executes in Hex. subst w1.
  rewrite updateSyncToken_run, Hex. simpl. split; [reflexivity |].
  split; [| split; [| split; reflexivity]].
  - unfold executes. intros Hsel. rewrite getSyncToken_run.
    simpl in Hsel |- *. rewrite Hsel. simpl. now rewrite lookup_insert_eq.
  - intros u' c' Hne. apply lookup_insert_ne. congruence.
Qed.

Lemma sync_token_round_trip_witness :
  fst (Db.getSyncToken "alice" "team" Scenario.quiet
         (snd (Db.updateSyncToken "alice" "team" (Some "CJjA7vWDx70C")
                 Scenario.quiet Scenario.alice_world)))
    = Ok (Some "CJjA7vWDx70C").
Proof.
  destruct (sync_token_round_trip "alice" "team" (Some "CJjA7vWDx70C")
              Scenario.quiet Scenario.alice_world eq_refl) as (_ & Hread & _).
  apply Hread. reflexivity.
Defined.

Lemma updateUserTokens_run u a r e env w :
  Db.updateUserTokens u a r e env w =
    match query_error env (count is_query (trace w)) (UpdateUserTokens u a r e) with
    | Some err => (Throw err, log (EQuery (UpdateUserTokens u a r e) false) w)
    | None => (Ok tt, log (EQuery (UpdateUserTokens u a r e) true) (set_tokens u a r e w))
    end.
Proof.
  unfold Db.updateUserTokens. rewrite run_try_catch. unfold pool_query.
  now destruct (query_error _ _ _).
Qed.

(** X2.  Stored tokens can be read back, for a user that exists.  Once
    the database has executed [updateUserTokens], [getUserTokens] returns
    the access token, refresh token and expiry date that were written,
    with the e-mail address of the row; for a user without a row the
    UPDATE stores nothing and the read still returns [null].  The rows of
    the other users, the connections and the sync tokens are as before. *)
Theorem user_tokens_round_trip
    (u a : string) (r : option string) (e : option Z) (env : Env) (w : World) :
  executes env w (UpdateUserTokens u a r e) ->
  let w1 := snd (Db.updateUserTokens u a r e env w) in
  fst (Db.updateUserTokens u a r e env w) = Ok tt /\
  (executes env w1 (SelectUserTokens u) ->
   fst (Db.getUserTokens u env w1) =
     Ok ((fun row => {| tok_access_token := a;
                        tok_refresh_token := r;
                        tok_token_expires_at := e;
                        tok_email := email row |}) <$> users w !! u)) /\
  (forall u', u' <> u -> users w1 !! u' = users w !! u') /\
  connections w1 = connections w /\ sync_tokens w1 = sync_tokens w.
Proof.
  intros Hex w1. unfold executes in Hex. subst w1.
  rewrite updateUserTokens_run, Hex. simpl. split; [reflexivity |].
  split; [| split; [| split; reflexivity]].
  - unfold executes. intros Hsel. rewrite getUserTokens_run.
    simpl in Hsel |- *. rewrite Hsel. simpl. rewrite lookup_alter_eq.
    now destruct (users w !! u).
  - intros u' Hne. now apply lookup_alter_ne.
Qed.

Lemma user_tokens_round_trip_witness :
  fst (Db.getUserTokens "alice" Scenario.quiet
         (snd (Db.updateUserTokens "alice" "ya29.b1" (Some "1//0g") None
                 Scenario.quiet Scenario.alice_world)))
    = Ok (Some {| tok_access_token := "ya29.b1";
                  tok_refresh_token := Some "1//0g";
                  tok_token_expires_at := None;
                  tok_email := "alice@example.org" |}) /\
  fst (Db.getUserTokens "bob" Scenario.quiet
         (snd (Db.updateUserTokens "bob" "ya29.b1" (Some "1//0g") None
                 Scenario.quiet Scenario.alice_world)))
    = Ok None.
Proof.
  split.
  - destruct (user_tokens_round_trip "alice" "ya29.b1" (Some "1//0g") None
                Scenario.quiet Scenario.alice_world eq_refl) as (_ & Hread & _).
    apply Hread. reflexivity.
  - destruct (user_tokens_round_trip "bob" "ya29.b1" (Some "1//0g") None
                Scenario.quiet Scenario.alice_world eq_refl) as (_ & Hread & _).
    apply Hread. reflexivity.
Defined.

(** ** AuthService *)

Lemma refreshUserToken_run u r env w :
  Auth.refreshUserToken u r env w =
    let w1 := log (ERefreshAccessToken r) w in
    match refreshAccessToken env (count is_refresh (trace w)) r with
    | Rejects _ => refresh_failed env u w1
    | Resolves c =>
        match Js.or_undefined (cred_access_token c) with
        | None => (Ok None, w1)
        | Some a =>
            match query_error env (count is_query (trace w1))
                    (store_credentials u r a c) with
            | Some _ =>
                refresh_failed env u
                  (log (EQuery (store_credentials u r a c) false) w1)
            | None =>
                (Ok (Some (client_of_credentials c)),
                 log (EQuery (store_credentials u r a c) true)
                   (set_tokens u a (Some (Js.or_else (cred_refresh_token c) r))
                      (stored_expiry c) w1))
            end
        end
    end.
Proof.
  assert (Hcatch : forall w0,
    (now ← new_Date;
     Db.updateCalendarConnection u
       {| upd_sync_status := Some "error"; upd_last_sync_at := Some now |};;
     mret None) env w0 = refresh_failed env u w0).
  { intros w0. unfold refresh_failed, written, unwritten, status_update,
      after_new_Date, clock.
    rewrite run_bind. unfold new_Date. cbv beta zeta.
    rewrite run_bind, updateCalendarConnection_run.
    now destruct (query_error _ _ _). }
  unfold Auth.refreshUserToken. rewrite run_try_catch, run_bind.
  unfold client_refreshAccessToken at 1. cbv zeta.
  destruct (refreshAccessToken env _ r) as [c|e]; cbn [settle_result].
  - fold (stored_expiry c).
    destruct (Js.or_undefined (cred_access_token c)) as [a|]; [| reflexivity].
    rewrite run_bind, updateUserTokens_run. fold (store_credentials u r a c).
    destruct (query_error env _ (store_credentials u r a c)); [apply Hcatch |].
    reflexivity.
  - apply Hcatch.
Qed.

Lemma getAuthenticatedClient_unfold u env w :
  Auth.getAuthenticatedClient u env w =
    match query_error env (count is_query (trace w)) (SelectUserTokens u) with
    | Some _ => (Ok None, log (EQuery (SelectUserTokens u) false) w)
    | None =>
        match stored_tokens w u with
        | None => (Ok None, tokens_read u w)
        | Some t =>
            if negb (Js.truthy_string (tok_access_token t))
            then (Ok None, tokens_read u w)
            else
              match tok_token_expires_at t with
              | None => (Ok (Some (client_of_tokens t)), tokens_read u w)
              | Some expires =>
                  let w1 := after_new_Date env (tokens_read u w) in
                  if (expires <=? clock env (tokens_read u w))%Z then
                    match usable_token (tok_refresh_token t) with
                    | Some r =>
                        match Auth.refreshUserToken u r env w1 with
                        | (Throw _, w') => (Ok None, w')
                        | r' => r'
                        end
                    | None => (Ok None, w1)
                    end
                  else (Ok (Some (client_of_tokens t)), w1)
              end
        end
    end.
Proof.
  unfold Auth.getAuthenticatedClient. rewrite run_try_catch, run_bind.
  rewrite getUserTokens_run. destruct (query_error env _ _); [reflexivity |].
  cbv zeta. unfold stored_tokens, tokens_read.
  destruct (users w !! u ≫= Db.user_tokens_of_row) as [t|]; [| reflexivity].
  destruct (Js.truthy_string (tok_access_token t)); [| reflexivity].
  cbn [negb]. rewrite run_bind.
  destruct (tok_token_expires_at t) as [expires|]; [| reflexivity].
  rewrite run_bind. unfold new_Date at 1.
  fold (clock env (log (EQuery (SelectUserTokens u) true) w)).
  fold (after_new_Date env (log (EQuery (SelectUserTokens u) true) w)).
  cbn [Js.clock_ms].
  destruct (expires <=? clock env (log (EQuery (SelectUserTokens u) true) w))%Z;
    [| reflexivity].
  unfold usable_token.
  destruct (tok_refresh_token t) as [r|]; [| reflexivity].
  destruct (Js.truthy_string r); reflexivity.
Qed.

Lemma appends_token_check env u t w :
  appends token_check_effect w (after_token_check env u t w).
Proof.
  unfold after_token_check, tokens_read, after_new_Date.
  destruct (tok_token_expires_at t).
  - exists [EQuery (SelectUserTokens u) true;
            ENewDate (Js.Date (clock env (log (EQuery (SelectUserTokens u) true) w)) 0)].
    split; [| reflexivity]. simpl. now rewrite <- app_assoc.
  - exists [EQuery (SelectUserTokens u) true]. now split.
Qed.

Lemma getAuthenticatedClient_valid u env w t :
  executes env w (SelectUserTokens u) ->
  stored_tokens w u = Some t ->
  token_valid t (clock env (tokens_read u w)) ->
  Auth.getAuthenticatedClient u env w
    = (Ok (Some (client_of_tokens t)), after_token_check env u t w).
Proof.
  intros Hex Ht [Ha Hv]. rewrite getAuthenticatedClient_unfold.
  unfold executes in Hex. rewrite Hex, Ht, Ha. cbn [negb].
  unfold after_token_check.
  destruct (tok_token_expires_at t) as [expires|]; [| reflexivity].
  cbv zeta. destruct (Z.leb_spec expires (clock env (tokens_read u w)));
    [lia | reflexivity].
Qed.

Lemma same_tables_token_check env u t w :
  same_tables w (after_token_check env u t w).
Proof.
  unfold after_token_check. destruct (tok_token_expires_at t).
  - etransitivity; [apply same_tables_log | apply same_tables_log].
  - apply same_tables_log.
Qed.

(** X3.  A stored access token that is not empty and not expired gives a
    client carrying the stored tokens, and costs one read of the [users]
    table and at most one reading of the clock: nothing is written and the
    identity provider is not contacted. *)
Theorem valid_token_gives_client
    (u : string) (env : Env) (w : World) (t : UserTokens) :
  executes env w (SelectUserTokens u) ->
  stored_tokens w u = Some t ->
  token_valid t (clock env (tokens_read u w)) ->
  Auth.getAuthenticatedClient u env w
    = (Ok (Some (client_of_tokens t)), after_token_check env u t w) /\
  same_tables w (after_token_check env u t w) /\
  appends token_check_effect w (after_token_check env u t w).
Proof.
  intros Hex Ht Hvalid. split; [now apply getAuthenticatedClient_valid |].
  split; [apply same_tables_token_check | apply appends_token_check].
Qed.

Lemma valid_token_gives_client_witness :
  Auth.getAuthenticatedClient "alice" Scenario.quiet Scenario.alice_world
    = (Ok (Some {| client_access_token := Js.Val "ya29.a0";
                   client_refresh_token := Js.Val "1//0g" |}),
       tokens_read "alice" Scenario.alice_world).
Proof.
  destruct (valid_token_gives_client "alice" Scenario.quiet Scenario.alice_world
              {| tok_access_token := "ya29.a0";
                 tok_refresh_token := Some "1//0g";
                 tok_token_expires_at := None;
                 tok_email := "alice@example.org" |}
              eq_refl eq_refl (conj eq_refl I)) as [Hrun _].
  exact Hrun.
Defined.

Lemma getAuthenticatedClient_no_credentials u env w :
  no_credentials env u w ->
  let r := Auth.getAuthenticatedClient u env w in
  fst r = Ok None /\ same_tables w (snd r) /\
  appends token_check_effect w (snd r).
Proof.
  assert (Hread : forall b,
    appends token_check_effect w (log (EQuery (SelectUserTokens u) b) w)).
  { intros b. now apply appends_log. }
  assert (Hclock :
    appends token_check_effect w (after_new_Date env (tokens_read u w))).
  { etransitivity; [apply (Hread true) | now apply appends_log]. }
  assert (Htab : same_tables w (after_new_Date env (tokens_read u w))).
  { etransitivity; [apply same_tables_log | apply same_tables_log]. }
  intros Hno r. subst r. rewrite getAuthenticatedClient_unfold.
  unfold executes in Hno.
  destruct (query_error env _ (SelectUserTokens u)) as [e|] eqn:Hq.
  { simpl. repeat split. apply Hread. }
  destruct Hno as [Hno | [Hno | (t & Ht & Hno)]]; [now elim Hno | |].
  { rewrite Hno. simpl. repeat split. apply Hread. }
  rewrite Ht. destruct Hno as [Hempty | [[Ha (expires & He & Hle)] Hr]].
  { rewrite Hempty. simpl. repeat split. apply Hread. }
  rewrite Ha, He, Hr. cbn [negb]. cbv zeta.
  destruct (Z.leb_spec expires (clock env (tokens_read u w))); [| lia].
  simpl. split; [reflexivity |]. split; [exact Htab | exact Hclock].
Qed.

(** X4.  Without credentials to build a client from (the token read is
    rejected, there is no row or no access token, the access token is
    empty, or it is expired and no refresh token is stored)
    [getAuthenticatedClient] answers [null]; it has then only read the
    tokens and possibly the clock: no table changes, no refresh is asked
    for and no status is written. *)
Theorem no_credentials_no_client (u : string) (env : Env) (w : World) :
  no_credentials env u w ->
  let r := Auth.getAuthenticatedClient u env w in
  fst r = Ok None /\ same_tables w (snd r) /\
  appends token_check_effect w (snd r).
Proof. apply getAuthenticatedClient_no_credentials. Qed.

Lemma no_credentials_no_client_witness :
  Auth.getAuthenticatedClient "bob" Scenario.quiet Scenario.alice_world
    = (Ok None, tokens_read "bob" Scenario.alice_world).
Proof.
  destruct (no_credentials_no_client "bob" Scenario.quiet Scenario.alice_world
              (or_intror (or_introl eq_refl))) as (Hres & _).
  apply injective_projections; [exact Hres | reflexivity].
Defined.

Lemma count_refresh_token_check env u w :
  count is_refresh (trace (after_new_Date env (tokens_read u w)))
    = count is_refresh (trace w).
Proof.
  unfold after_new_Date, tokens_read. rewrite !count_log. simpl. lia.
Qed.

(** X5.  An expired access token is renewed with the stored refresh token.
    When the identity provider returns credentials with an access token and
    the database executes the update, the client carries the returned
    credentials and the user's row holds the new access token, the returned
    refresh token or, when none is returned, the old one, and the returned
    expiry date (NULL when it is absent or 0); the e-mail address, the other
    users, the connections and the sync tokens are as before. *)
Theorem expired_token_is_refreshed
    (u : string) (env : Env) (w : World) (t : UserTokens) (r a : string)
    (c : Credentials) :
  executes env w (SelectUserTokens u) ->
  stored_tokens w u = Some t ->
  token_expired t (clock env (tokens_read u w)) ->
  usable_token (tok_refresh_token t) = Some r ->
  refreshAccessToken env (count is_refresh (trace w)) r = Resolves c ->
  Js.or_undefined (cred_access_token c) = Some a ->
  executes env
    (log (ERefreshAccessToken r) (after_new_Date env (tokens_read u w)))
    (store_credentials u r a c) ->
  let w' := snd (Auth.getAuthenticatedClient u env w) in
  fst (Auth.getAuthenticatedClient u env w)
    = Ok (Some (client_of_credentials c)) /\
  stored_tokens w' u =
    Some {| tok_access_token := a;
            tok_refresh_token := Some (Js.or_else (cred_refresh_token c) r);
            tok_token_expires_at := stored_expiry c;
            tok_email := tok_email t |} /\
  (forall u', u' <> u -> users w' !! u' = users w !! u') /\
  connections w' = connections w /\ sync_tokens w' = sync_tokens w.
Proof.
  intros Hex Ht [Ha (expires & He & Hle)] Hr Hc Hacc Hstore w'. subst w'.
  rewrite getAuthenticatedClient_unfold. unfold executes in Hex, Hstore.
  rewrite Hex, Ht, Ha, He, Hr. cbn [negb]. cbv zeta.
  destruct (Z.leb_spec expires (clock env (tokens_read u w))); [| lia].
  rewrite refreshUserToken_run. cbv zeta.
  rewrite count_refresh_token_check, Hc, Hacc, Hstore. simpl.
  split; [reflexivity |]. split; [| split; [| split; reflexivity]].
  - unfold stored_tokens in *. simpl. rewrite lookup_alter_eq.
    destruct (users w !! u) as [row|]; [| discriminate]. simpl in *.
    unfold Db.user_tokens_of_row in Ht.
    destruct (access_token row); [| discriminate].
    injection Ht as <-. reflexivity.
  - intros u' Hne. now apply lookup_alter_ne.
Qed.

Lemma expired_token_is_refreshed_witness :
  fst (Auth.getAuthenticatedClient "alice" Cases.renewing Cases.stale_world)
    = Ok (Some {| client_access_token := Js.Val "ya29.b1";
                  client_refresh_token := Js.Undefined |}) /\
  stored_tokens
    (snd (Auth.getAuthenticatedClient "alice" Cases.renewing Cases.stale_world))
    "alice"
    = Some {| tok_access_token := "ya29.b1";
              tok_refresh_token := Some "1//0g";
              tok_token_expires_at := Some 1700003600000%Z;
              tok_email := "alice@example.org" |}.
Proof.
  assert (Hexpired : token_expired
            {| tok_access_token := "ya29.a0";
               tok_refresh_token := Some "1//0g";
               tok_token_expires_at := Some 1690000000000%Z;
               tok_email := "alice@example.org" |}
            (clock Cases.renewing (tokens_read "alice" Cases.stale_world))).
  { split; [reflexivity |]. eexists. split; [reflexivity |].
    vm_compute. discriminate. }
  destruct (expired_token_is_refreshed "alice" Cases.renewing Cases.stale_world
              _ "1//0g" "ya29.b1" Cases.renewed
              eq_refl eq_refl Hexpired eq_refl eq_refl eq_refl eq_refl)
    as (Hclient & Hrow & _).
  split; [exact Hclient | exact Hrow].
Defined.

(** X6.  A refresh that does not go through gives no client.  When the
    identity provider rejects the refresh, or the database rejects the
    update of the renewed tokens, [getAuthenticatedClient] answers [null],
    the stored tokens are as before and one status update carrying [error]
    is issued; the connection row changes only when that update is
    executed.  When the provider answers without an access token the
    answer is [null] as well and nothing is written at all. *)
Theorem failed_refresh_gives_no_client
    (u : string) (env : Env) (w : World) (t : UserTokens) (r : string) :
  executes env w (SelectUserTokens u) ->
  stored_tokens w u = Some t ->
  token_expired t (clock env (tokens_read u w)) ->
  usable_token (tok_refresh_token t) = Some r ->
  let asked :=
    log (ERefreshAccessToken r) (after_new_Date env (tokens_read u w)) in
  let w' := snd (Auth.getAuthenticatedClient u env w) in
  fst (Auth.getAuthenticatedClient u env w) <> Diverges /\
  ((exists e, refreshAccessToken env (count is_refresh (trace w)) r = Rejects e) \/
   (exists c a,
      refreshAccessToken env (count is_refresh (trace w)) r = Resolves c /\
      Js.or_undefined (cred_access_token c) = Some a /\
      ~ executes env asked (store_credentials u r a c)) ->
   fst (Auth.getAuthenticatedClient u env w) = Ok None /\
   users w' = users w /\ sync_tokens w' = sync_tokens w /\
   exists (now : Z) (b : bool),
     status_updates (trace w')
       = status_updates (trace w) ++ [(u, status_update "error" now, b)] /\
     connections w' =
       (if b then alter (Db.apply_updates (status_update "error" now)) u
                    (connections w)
        else connections w)) /\
  (forall c,
     refreshAccessToken env (count is_refresh (trace w)) r = Resolves c ->
     Js.or_undefined (cred_access_token c) = None ->
     Auth.getAuthenticatedClient u env w = (Ok None, asked)).
Proof.
  intros Hex Ht [Ha (expires & He & Hle)] Hr asked w'. subst asked w'.
  rewrite getAuthenticatedClient_unfold. unfold executes in Hex.
  rewrite Hex, Ht, Ha, He, Hr. cbn [negb]. cbv zeta.
  destruct (Z.leb_spec expires (clock env (tokens_read u w))); [| lia].
  rewrite refreshUserToken_run. cbv zeta. rewrite count_refresh_token_check.
  assert (Hfailed : forall w0,
    users w0 = users w -> connections w0 = connections w ->
    sync_tokens w0 = sync_tokens w ->
    status_updates (trace w0) = status_updates (trace w) ->
    let out := match refresh_failed env u w0 with
               | (Throw _, w1) => (Ok None, w1)
               | r' => r'
               end in
    fst out = Ok None /\
    users (snd out) = users w /\ sync_tokens (snd out) = sync_tokens w /\
    exists (now : Z) (b : bool),
      status_updates (trace (snd out))
        = status_updates (trace w) ++ [(u, status_update "error" now, b)] /\
      connections (snd out) =
        (if b then alter (Db.apply_updates (status_update "error" now)) u
                     (connections w)
         else connections w)).
  { intros w0 Hu Hc Hs Hst out. subst out. unfold refresh_failed.
    destruct (query_error env _ (UpdateConnection _ _)); simpl.
    - repeat split; try assumption. exists (clock env w0), false.
      rewrite !status_updates_app, Hst. simpl. now rewrite app_nil_r.
    - repeat split; try assumption. exists (clock env w0), true.
      rewrite !status_updates_app, Hst, Hc. simpl. now rewrite app_nil_r. }
  assert (Hst : forall l,
    status_updates l = [] ->
    status_updates (trace (after_new_Date env (tokens_read u w)) ++ l)
      = status_updates (trace w)).
  { intros l Hl. simpl. rewrite !status_updates_app, Hl. simpl.
    now rewrite !app_nil_r. }
  split; [| split].
  - destruct (refreshAccessToken env _ r) as [c|e].
    + destruct (Js.or_undefined (cred_access_token c)) as [a|];
        [| discriminate].
      destruct (query_error env _ (store_credentials u r a c));
        [| discriminate].
      unfold refresh_failed.
      now destruct (query_error env _ (UpdateConnection _ _)).
    + unfold refresh_failed.
      now destruct (query_error env _ (UpdateConnection _ _)).
  - intros [[e Hrej] | (c & a & Hc & Hacc & Hstore)].
    + rewrite Hrej. apply Hfailed; try reflexivity.
      apply (Hst [ERefreshAccessToken r]). reflexivity.
    + rewrite Hc, Hacc. unfold executes in Hstore.
      destruct (query_error env _ (store_credentials u r a c)) as [e|];
        [| now elim Hstore].
      apply Hfailed; try reflexivity.
      change (trace (log (EQuery (store_credentials u r a c) false)
                       (log (ERefreshAccessToken r)
                          (after_new_Date env (tokens_read u w)))))
        with ((trace (after_new_Date env (tokens_read u w))
                 ++ [ERefreshAccessToken r])
                ++ [EQuery (store_credentials u r a c) false]).
      rewrite <- app_assoc. apply Hst. reflexivity.
  - intros c Hc Hacc. now rewrite Hc, Hacc.
Qed.

Lemma failed_refresh_gives_no_client_witness :
  fst (Auth.getAuthenticatedClient "alice" Scenario.quiet Cases.stale_world)
    = Ok None /\
  sync_status <$>
    connections
      (snd (Auth.getAuthenticatedClient "alice" Scenario.quiet Cases.stale_world))
      !! "alice" = Some "error".
Proof.
  assert (Hexpired : token_expired
            {| tok_access_token := "ya29.a0";
               tok_refresh_token := Some "1//0g";
               tok_token_expires_at := Some 1690000000000%Z;
               tok_email := "alice@example.org" |}
            (clock Scenario.quiet (tokens_read "alice" Cases.stale_world))).
  { split; [reflexivity |]. eexists. split; [reflexivity |].
    vm_compute. discriminate. }
  pose proof (failed_refresh_gives_no_client "alice" Scenario.quiet
                Cases.stale_world _ "1//0g" eq_refl eq_refl Hexpired eq_refl)
    as H.
  cbv zeta in H. destruct H as (_ & Hfail & _).
  destruct Hfail as (Hres & _); [left; eexists; reflexivity |].
  split; [exact Hres | reflexivity].
Defined.

(** X7.  [validateUserAccess] never throws.  It answers [true] exactly when
    [getAuthenticatedClient] gives a client and the provider answers the
    probe; without a client the provider is not contacted.  Apart from
    what [getAuthenticatedClient] does, the call adds at most the probe to
    the trace and changes no table. *)
Theorem validateUserAccess_probes_once (u : string) (env : Env) (w : World) :
  exists (client : option OAuth2Client) (wa : World) (b : bool),
    Auth.getAuthenticatedClient u env w = (Ok client, wa) /\
    Access.validateUserAccess u env w
      = (Ok b, match client with
               | Some _ => log ECalendarList wa
               | None => wa
               end) /\
    (b = true <->
     client <> None /\
     exists calendarList,
       calendarList_list env (count is_calendar_list (trace w))
         = Resolves calendarList) /\
    (no_credentials env u w -> client = None /\ b = false).
Proof.
  destruct (getAuthenticatedClient_run u env w)
    as (client & wa & Hauth & _ & q & sfx & Htr & Hsfx).
  assert (Hcount : count is_calendar_list (trace wa)
                   = count is_calendar_list (trace w)).
  { rewrite Htr, count_app. change (EQuery (SelectUserTokens u) q :: sfx)
      with ([EQuery (SelectUserTokens u) q] ++ sfx).
    rewrite count_app, (count_none is_calendar_list sfx); [simpl; lia |].
    clear -Hsfx. induction sfx as [|e l IH]; simpl in *; [reflexivity |].
    apply andb_prop in Hsfx as [He Hl]. rewrite (IH Hl), andb_true_r.
    now destruct e. }
  assert (Hnone : no_credentials env u w -> client = None).
  { intros Hno.
    destruct (getAuthenticatedClient_no_credentials u env w Hno) as [Hfst _].
    rewrite Hauth in Hfst. now injection Hfst. }
  unfold Access.validateUserAccess. rewrite run_try_catch, run_bind, Hauth.
  destruct client as [client|].
  - rewrite run_bind. unfold calendar_calendarList_list at 1. rewrite Hcount.
    destruct (calendarList_list env _) as [calendarList|e]; cbn [settle_result].
    + exists (Some client), wa, true. split; [reflexivity |].
      split; [reflexivity |]. split.
      * split; [intros _; split; [discriminate | now eexists] | reflexivity].
      * intros Hno. now apply Hnone in Hno.
    + exists (Some client), wa, false. split; [reflexivity |].
      split; [reflexivity |]. split.
      * split; [discriminate | intros [_ [cl Hcl]]; discriminate].
      * intros Hno. now apply Hnone in Hno.
  - exists None, wa, false. split; [reflexivity |]. split; [reflexivity |].
    split; [| now split].
    split; [discriminate | intros [Hne _]; now elim Hne].
Qed.

Lemma validateUserAccess_probes_once_witness :
  fst (Access.validateUserAccess "alice" Scenario.quiet Scenario.alice_world)
    = Ok true /\
  Access.validateUserAccess "bob" Scenario.quiet Scenario.alice_world
    = (Ok false, tokens_read "bob" Scenario.alice_world).
Proof.
  split.
  - destruct (validateUserAccess_probes_once "alice" Scenario.quiet
                Scenario.alice_world)
      as (client & wa & b & Hauth & Hrun & Htrue & _).
    rewrite Hrun. cbn [fst]. f_equal. apply Htrue. split.
    + intros ->. revert Hauth. vm_compute. discriminate.
    + eexists. reflexivity.
  - destruct (validateUserAccess_probes_once "bob" Scenario.quiet
                Scenario.alice_world)
      as (client & wa & b & Hauth & Hrun & _ & Hnone).
    destruct Hnone as [-> ->]; [right; left; reflexivity |].
    rewrite Hrun. f_equal.
    assert (Hsnd : snd (Auth.getAuthenticatedClient "bob" Scenario.quiet
                          Scenario.alice_world)
                   = tokens_read "bob" Scenario.alice_world)
      by reflexivity.
    now rewrite Hauth in Hsnd.
Defined.

(** ** Requests of the sink *)

Lemma count_fetch_log req w :
  count is_fetch (trace (log (EFetch req) w)) = S (count is_fetch (trace w)).
Proof. rewrite count_log. simpl. lia. Qed.

Lemma storeInMemoryVault_run u m env w :
  MemoryCalendarSync.storeInMemoryVault u m env w
    = (Ok (answered_ok (next_answer env w (store_request u m))),
       log (EFetch (store_request u m)) w).
Proof.
  unfold MemoryCalendarSync.storeInMemoryVault, next_answer.
  rewrite run_try_catch, run_bind. unfold fetch.
  change {| url := MemoryCalendarSync.memoryVaultUrl +:+ "/memories";
            method := POST; body := StoreBody m u |}
    with (store_request u m).
  destruct (http_fetch env _ (store_request u m)) as [resp|e]; simpl;
    [now destruct (ok resp) | reflexivity].
Qed.

Lemma updateInMemoryVault_run u m env w :
  let search := search_request u (event_id (metadata m)) in
  let w1 := log (EFetch search) w in
  MemoryCalendarSync.updateInMemoryVault u m env w =
    match lookup_of (next_answer env w search) with
    | lookup_failed => (Ok false, w1)
    | lookup_refused | lookup_absent =>
        MemoryCalendarSync.storeInMemoryVault u m env w1
    | lookup_found existing =>
        let w2 := log (EFetch (update_request u m existing)) w1 in
        match next_answer env w1 (update_request u m existing) with
        | Rejects _ => (Ok false, w2)
        | Resolves response =>
            if ok response then (Ok true, w2)
            else MemoryCalendarSync.storeInMemoryVault u m env w2
        end
    end.
Proof.
  cbv zeta. unfold MemoryCalendarSync.updateInMemoryVault, next_answer, lookup_of.
  rewrite run_try_catch, run_bind. unfold fetch at 1.
  change {| url := MemoryCalendarSync.search_url u (event_id (metadata m));
            method := GET; body := NoBody |}
    with (search_request u (event_id (metadata m))).
  destruct (http_fetch env _ (search_request u (event_id (metadata m))))
    as [resp|e]; cbn [settle_result]; [| reflexivity].
  rewrite run_bind.
  destruct (ok resp).
  - rewrite run_bind. unfold lift at 1.
    destruct (json resp) as [[|[[|existing rest]|]]|e]; cbn [settle_result];
      try reflexivity.
    + cbn -[MemoryCalendarSync.storeInMemoryVault].
      now rewrite storeInMemoryVault_run.
    + rewrite run_bind. unfold fetch at 1.
      change {| url := MemoryCalendarSync.memory_url existing; method := PUT;
                body := UpdateBody (content m) (title m) (tags m) (metadata m) u |}
        with (update_request u m existing).
      destruct (http_fetch env _ (update_request u m existing)) as [resp2|e2];
        cbn [settle_result]; [| reflexivity].
      cbn -[MemoryCalendarSync.storeInMemoryVault].
      destruct (ok resp2); [reflexivity |].
      now rewrite storeInMemoryVault_run.
    + cbn -[MemoryCalendarSync.storeInMemoryVault].
      now rewrite storeInMemoryVault_run.
  - cbn -[MemoryCalendarSync.storeInMemoryVault].
    now rewrite storeInMemoryVault_run.
Qed.

Lemma removeFromMemoryVault_run u eventId env w :
  let search := search_request u eventId in
  let w1 := log (EFetch search) w in
  MemoryCalendarSync.removeFromMemoryVault u eventId env w =
    match lookup_of (next_answer env w search) with
    | lookup_failed | lookup_refused => (Ok false, w1)
    | lookup_absent => (Ok true, w1)
    | lookup_found existing =>
        (Ok (answered_ok (next_answer env w1 (delete_request existing))),
         log (EFetch (delete_request existing)) w1)
    end.
Proof.
  cbv zeta. unfold MemoryCalendarSync.removeFromMemoryVault, next_answer, lookup_of.
  rewrite run_try_catch, run_bind. unfold fetch at 1.
  change {| url := MemoryCalendarSync.search_url u eventId;
            method := GET; body := NoBody |}
    with (search_request u eventId).
  destruct (http_fetch env _ (search_request u eventId))
    as [resp|e]; cbn [settle_result]; [| reflexivity].
  destruct (ok resp); [| reflexivity].
  rewrite run_bind. unfold lift at 1.
  destruct (json resp) as [[|[[|existing rest]|]]|e]; cbn [settle_result];
    try reflexivity.
  rewrite run_bind. unfold fetch at 1.
  change {| url := MemoryCalendarSync.memory_url existing;
            method := DELETE; body := NoBody |}
    with (delete_request existing).
  destruct (http_fetch env _ (delete_request existing)) as [resp2|e2];
    cbn [settle_result answered_ok]; [| reflexivity].
  now destruct (ok resp2).
Qed.

Lemma convertEventToMemory_run ev c env w :
  MemoryCalendarSync.convertEventToMemory ev c env w =
    match generateMemoryContent env ev with
    | Rejects e => (Throw e, w)
    | Resolves text =>
        match generateEventTags env ev with
        | Rejects e => (Throw e, w)
        | Resolves eventTags => (Ok (entry_of ev c text eventTags), w)
        end
    end.
Proof.
  unfold MemoryCalendarSync.convertEventToMemory.
  rewrite run_bind. unfold ask at 1. cbv beta iota.
  rewrite run_bind. unfold lift at 1.
  destruct (generateMemoryContent env ev) as [text|e]; cbn [settle_result];
    [| reflexivity].
  rewrite run_bind. unfold lift at 1.
  destruct (generateEventTags env ev) as [eventTags|e]; reflexivity.
Qed.

Lemma updateInMemoryVault_Ok u m env w :
  exists b w', MemoryCalendarSync.updateInMemoryVault u m env w = (Ok b, w').
Proof.
  pose proof (updateInMemoryVault_run u m env w) as H. cbv zeta in H.
  rewrite H. destruct (lookup_of _); rewrite ?storeInMemoryVault_run; eauto.
  destruct (next_answer env _ (update_request _ _ _)) as [resp|e]; eauto.
  destruct (ok resp); rewrite ?storeInMemoryVault_run; eauto.
Qed.

Lemma removeFromMemoryVault_Ok u eventId env w :
  exists b w',
    MemoryCalendarSync.removeFromMemoryVault u eventId env w = (Ok b, w').
Proof.
  pose proof (removeFromMemoryVault_run u eventId env w) as H. cbv zeta in H.
  rewrite H. destruct (lookup_of _); eauto.
Qed.

Lemma processCalendarChange_body_run u ev c env w :
  MemoryCalendarSync.processCalendarChange_body u ev c env w =
    match c with
    | deleted_ => MemoryCalendarSync.removeFromMemoryVault u (id ev) env w
    | _ =>
        match MemoryCalendarSync.convertEventToMemory ev c env w with
        | (Ok entry, _) =>
            match c with
            | created_ => MemoryCalendarSync.storeInMemoryVault u entry env w
            | _ => MemoryCalendarSync.updateInMemoryVault u entry env w
            end
        | _ => (Ok false, w)
        end
    end.
Proof.
  unfold MemoryCalendarSync.processCalendarChange_body. rewrite run_try_catch.
  destruct c.
  - rewrite run_bind, convertEventToMemory_run.
    destruct (generateMemoryContent env ev); [| reflexivity].
    destruct (generateEventTags env ev); [| reflexivity].
    now rewrite storeInMemoryVault_run.
  - rewrite run_bind, convertEventToMemory_run.
    destruct (generateMemoryContent env ev) as [text|]; [| reflexivity].
    destruct (generateEventTags env ev) as [eventTags|]; [| reflexivity].
    destruct (updateInMemoryVault_Ok u (entry_of ev updated_ text eventTags)
                env w) as (b & w' & H).
    now rewrite H.
  - destruct (removeFromMemoryVault_Ok u (id ev) env w) as (b & w' & H).
    now rewrite H.
Qed.

Lemma processCalendarChange_unfold u ev c env w :
  MemoryCalendarSync.processCalendarChange u ev c env w =
    match MemoryCalendarSync.processCalendarChange_body u ev c env w with
    | (Ok b, w1) => (Ok b, log (EApplied u ev c b) w1)
    | r => r
    end.
Proof.
  unfold MemoryCalendarSync.processCalendarChange. rewrite run_bind.
  now destruct (MemoryCalendarSync.processCalendarChange_body u ev c env w)
    as [[b|e|] w1].
Qed.


Lemma same_tables_log2 e1 e2 w : same_tables w (log e2 (log e1 w)).
Proof. repeat split. Qed.

Lemma same_tables_log3 e1 e2 e3 w : same_tables w (log e3 (log e2 (log e1 w))).
Proof. repeat split. Qed.

Lemma sink_run_weaken env w P (allowed allowed' : list (list Method)) b w1 :
  (forall ms, In ms allowed -> In ms allowed') ->
  sink_run env w P allowed b w1 -> sink_run env w P allowed' b w1.
Proof.
  intros Hsub [Ht (reqs & Htr & Hin & HP & Hok)]. split; [exact Ht |].
  exists reqs. auto.
Qed.

Lemma sink_run_none env w P : sink_run env w P [[]] false w.
Proof.
  split; [reflexivity |]. exists []. simpl. rewrite app_nil_r.
  split; [reflexivity |]. split; [now left |]. split; [constructor | discriminate].
Qed.

Lemma sink_run_one env w (P : HttpRequest -> Prop) req b :
  P req ->
  (b = true -> answered_ok (next_answer env w req) = true) ->
  sink_run env w P [[method req]] b (log (EFetch req) w).
Proof.
  intros HP Hb. split; [apply same_tables_log |]. exists [req].
  split; [reflexivity |]. split; [now left |]. split; [now repeat constructor |].
  intros Hok. exists [], req. split; [reflexivity |]. simpl.
  rewrite Nat.add_0_r. now apply Hb.
Qed.

Lemma sink_run_two env w (P : HttpRequest -> Prop) req1 req2 b :
  P req1 -> P req2 ->
  (b = true ->
   answered_ok (next_answer env (log (EFetch req1) w) req2) = true) ->
  sink_run env w P [[method req1; method req2]] b
    (log (EFetch req2) (log (EFetch req1) w)).
Proof.
  intros HP1 HP2 Hb. split; [apply same_tables_log2 |]. exists [req1; req2].
  split; [simpl; now rewrite <- app_assoc |]. split; [now left |].
  split; [now repeat constructor |].
  intros Hok. exists [req1], req2. split; [reflexivity |].
  specialize (Hb Hok). unfold next_answer in Hb. rewrite count_fetch_log in Hb.
  simpl. now rewrite Nat.add_1_r.
Qed.

Lemma sink_run_three env w (P : HttpRequest -> Prop) req1 req2 req3 b :
  P req1 -> P req2 -> P req3 ->
  (b = true ->
   answered_ok
     (next_answer env (log (EFetch req2) (log (EFetch req1) w)) req3) = true) ->
  sink_run env w P [[method req1; method req2; method req3]] b
    (log (EFetch req3) (log (EFetch req2) (log (EFetch req1) w))).
Proof.
  intros HP1 HP2 HP3 Hb. split; [apply same_tables_log3 |].
  exists [req1; req2; req3].
  split; [simpl; now rewrite <- !app_assoc |]. split; [now left |].
  split; [now repeat constructor |].
  intros Hok. exists [req1; req2], req3. split; [reflexivity |].
  specialize (Hb Hok). unfold next_answer in Hb. rewrite !count_fetch_log in Hb.
  simpl.
  now replace (count is_fetch (trace w) + 2)
    with (S (S (count is_fetch (trace w)))) by lia.
Qed.

Lemma storeInMemoryVault_sink u m env w (P : HttpRequest -> Prop) :
  P (store_request u m) ->
  exists b w1,
    MemoryCalendarSync.storeInMemoryVault u m env w = (Ok b, w1) /\
    sink_run env w P [[POST]] b w1.
Proof.
  intros HP. rewrite storeInMemoryVault_run. do 2 eexists.
  split; [reflexivity |].
  now apply (sink_run_one env w P (store_request u m)).
Qed.

Lemma updateInMemoryVault_sink u m env w (P : HttpRequest -> Prop) :
  P (search_request u (event_id (metadata m))) ->
  (forall existing, P (update_request u m existing)) ->
  P (store_request u m) ->
  exists b w1,
    MemoryCalendarSync.updateInMemoryVault u m env w = (Ok b, w1) /\
    sink_run env w P [[GET]; [GET; PUT]; [GET; POST]; [GET; PUT; POST]] b w1.
Proof.
  intros Hsearch Hput Hstore.
  pose proof (updateInMemoryVault_run u m env w) as H. cbv zeta in H.
  rewrite H. clear H.
  set (search := search_request u (event_id (metadata m))) in *.
  destruct (lookup_of (next_answer env w search)) as [| | |existing].
  - do 2 eexists. split; [reflexivity |].
    eapply sink_run_weaken;
      [| apply (sink_run_one env w P search); [assumption | discriminate]].
    simpl. intuition.
  - rewrite storeInMemoryVault_run. do 2 eexists. split; [reflexivity |].
    eapply sink_run_weaken;
      [| now apply (sink_run_two env w P search (store_request u m))].
    simpl. intuition.
  - rewrite storeInMemoryVault_run. do 2 eexists. split; [reflexivity |].
    eapply sink_run_weaken;
      [| now apply (sink_run_two env w P search (store_request u m))].
    simpl. intuition.
  - cbv zeta.
    destruct (next_answer env _ (update_request u m existing)) as [resp|e] eqn:Hans.
    + destruct (ok resp) eqn:Hok.
      * do 2 eexists. split; [reflexivity |].
        eapply sink_run_weaken;
          [| apply (sink_run_two env w P search (update_request u m existing));
             [assumption | apply Hput |]].
        -- simpl. intuition.
        -- intros _. rewrite Hans. exact Hok.
      * rewrite storeInMemoryVault_run. do 2 eexists. split; [reflexivity |].
        eapply sink_run_weaken;
          [| now apply (sink_run_three env w P search
                          (update_request u m existing) (store_request u m))].
        simpl. intuition.
    + do 2 eexists. split; [reflexivity |].
      eapply sink_run_weaken;
        [| apply (sink_run_two env w P search (update_request u m existing));
           [assumption | apply Hput | discriminate]].
      simpl. intuition.
Qed.

Lemma lookup_absent_answered env w req :
  lookup_of (next_answer env w req) = lookup_absent ->
  answered_ok (next_answer env w req) = true.
Proof.
  unfold lookup_of. destruct (next_answer env w req) as [resp|e]; [| discriminate].
  simpl. destruct (ok resp); [reflexivity | discriminate].
Qed.

Lemma removeFromMemoryVault_sink u eventId env w (P : HttpRequest -> Prop) :
  P (search_request u eventId) ->
  (forall existing, P (delete_request existing)) ->
  exists b w1,
    MemoryCalendarSync.removeFromMemoryVault u eventId env w = (Ok b, w1) /\
    sink_run env w P [[GET]; [GET; DELETE]] b w1.
Proof.
  intros Hsearch Hdelete.
  pose proof (removeFromMemoryVault_run u eventId env w) as H. cbv zeta in H.
  rewrite H. clear H.
  set (search := search_request u eventId) in *.
  destruct (lookup_of (next_answer env w search)) as [| | |existing] eqn:Hl.
  - do 2 eexists. split; [reflexivity |].
    eapply sink_run_weaken;
      [| apply (sink_run_one env w P search); [assumption | discriminate]].
    simpl. intuition.
  - do 2 eexists. split; [reflexivity |].
    eapply sink_run_weaken;
      [| apply (sink_run_one env w P search); [assumption | discriminate]].
    simpl. intuition.
  - do 2 eexists. split; [reflexivity |].
    eapply sink_run_weaken;
      [| apply (sink_run_one env w P search); [assumption |]].
    + simpl. intuition.
    + intros _. now apply lookup_absent_answered.
  - do 2 eexists. split; [reflexivity |].
    eapply sink_run_weaken;
      [| now apply (sink_run_two env w P search (delete_request existing))].
    simpl. intuition.
Qed.

(** ** Errors raised while a change is applied *)

Lemma errors_caught_nil env w b : errors_caught env w [] b.
Proof. intros i req H. destruct i; discriminate. Qed.

Lemma errors_caught_cons env w req reqs b :
  (raises (next_answer env w req) req -> b = false) ->
  errors_caught env (log (EFetch req) w) reqs b ->
  errors_caught env w (req :: reqs) b.
Proof.
  intros Hhead Htail [|i] r Hr Hraises; simpl in Hr.
  - injection Hr as <-. apply Hhead. unfold next_answer.
    now rewrite Nat.add_0_r in Hraises.
  - apply (Htail i r Hr). rewrite count_fetch_log.
    now replace (S (count is_fetch (trace w)) + i)
      with (count is_fetch (trace w) + S i) by lia.
Qed.

Lemma raises_lookup_failed answer req :
  raises answer req -> lookup_of answer = lookup_failed.
Proof.
  unfold raises, lookup_of. destruct answer as [resp|e]; [| reflexivity].
  intros (_ & -> & e & ->). reflexivity.
Qed.

Lemma raises_not_answered answer req :
  method req <> GET -> raises answer req -> answered_ok answer = false.
Proof.
  unfold raises. destruct answer as [resp|e]; [| reflexivity].
  intros Hm (Hget & _). contradiction.
Qed.

Lemma storeInMemoryVault_errors u m env w :
  errors_caught env w [store_request u m]
    (answered_ok (next_answer env w (store_request u m))).
Proof.
  apply errors_caught_cons; [| apply errors_caught_nil].
  now apply raises_not_answered.
Qed.

Lemma updateInMemoryVault_errors u m env w :
  exists b w1 reqs,
    MemoryCalendarSync.updateInMemoryVault u m env w = (Ok b, w1) /\
    trace w1 = trace w ++ map EFetch reqs /\
    errors_caught env w reqs b.
Proof.
  pose proof (updateInMemoryVault_run u m env w) as H. cbv zeta in H.
  rewrite H. clear H.
  set (search := search_request u (event_id (metadata m))) in *.
  destruct (lookup_of (next_answer env w search)) as [| | |existing] eqn:Hl.
  - exists false, (log (EFetch search) w), [search].
    split; [reflexivity |]. split; [reflexivity |]. now intros i req _ _.
  - rewrite storeInMemoryVault_run.
    eexists _, _, [search; store_request u m].
    split; [reflexivity |]. split; [simpl; now rewrite <- app_assoc |].
    apply errors_caught_cons; [| apply storeInMemoryVault_errors].
    intros Hr. apply raises_lookup_failed in Hr. congruence.
  - rewrite storeInMemoryVault_run.
    eexists _, _, [search; store_request u m].
    split; [reflexivity |]. split; [simpl; now rewrite <- app_assoc |].
    apply errors_caught_cons; [| apply storeInMemoryVault_errors].
    intros Hr. apply raises_lookup_failed in Hr. congruence.
  - cbv zeta.
    assert (Hsearch : raises (next_answer env w search) search -> False).
    { intros Hr. apply raises_lookup_failed in Hr. congruence. }
    destruct (next_answer env _ (update_request u m existing)) as [resp|e] eqn:Hans.
    + destruct (ok resp) eqn:Hok.
      * eexists _, _, [search; update_request u m existing].
        split; [reflexivity |]. split; [simpl; now rewrite <- app_assoc |].
        apply errors_caught_cons; [intros Hr; now destruct Hsearch |].
        apply errors_caught_cons; [| apply errors_caught_nil].
        rewrite Hans. simpl. intros (Hget & _). discriminate.
      * rewrite storeInMemoryVault_run.
        eexists _, _, [search; update_request u m existing; store_request u m].
        split; [reflexivity |]. split; [simpl; now rewrite <- !app_assoc |].
        apply errors_caught_cons; [intros Hr; now destruct Hsearch |].
        apply errors_caught_cons; [| apply storeInMemoryVault_errors].
        rewrite Hans. simpl. intros (Hget & _). discriminate.
    + eexists _, _, [search; update_request u m existing].
      split; [reflexivity |]. split; [simpl; now rewrite <- app_assoc |].
      now intros i req _ _.
Qed.

Lemma removeFromMemoryVault_errors u eventId env w :
  exists b w1 reqs,
    MemoryCalendarSync.removeFromMemoryVault u eventId env w = (Ok b, w1) /\
    trace w1 = trace w ++ map EFetch reqs /\
    errors_caught env w reqs b.
Proof.
  pose proof (removeFromMemoryVault_run u eventId env w) as H. cbv zeta in H.
  rewrite H. clear H.
  set (search := search_request u eventId) in *.
  destruct (lookup_of (next_answer env w search)) as [| | |existing] eqn:Hl.
  - exists false, (log (EFetch search) w), [search].
    split; [reflexivity |]. split; [reflexivity |]. now intros i req _ _.
  - exists false, (log (EFetch search) w), [search].
    split; [reflexivity |]. split; [reflexivity |]. now intros i req _ _.
  - exists true, (log (EFetch search) w), [search].
    split; [reflexivity |]. split; [reflexivity |].
    apply errors_caught_cons; [| apply errors_caught_nil].
    intros Hr. apply raises_lookup_failed in Hr. congruence.
  - eexists _, _, [search; delete_request existing].
    split; [reflexivity |]. split; [simpl; now rewrite <- app_assoc |].
    apply errors_caught_cons.
    + intros Hr. apply raises_lookup_failed in Hr. congruence.
    + apply errors_caught_cons; [| apply errors_caught_nil].
      now apply raises_not_answered.
Qed.

Lemma processCalendarChange_body_errors u ev c env w :
  exists b w1 reqs,
    MemoryCalendarSync.processCalendarChange_body u ev c env w = (Ok b, w1) /\
    trace w1 = trace w ++ map EFetch reqs /\
    errors_caught env w reqs b /\
    (c <> deleted_ -> converter_throws env ev -> b = false /\ w1 = w) /\
    (c <> created_ ->
     lookup_of (next_answer env w (search_request u (id ev))) = lookup_failed ->
     b = false).
Proof.
  rewrite processCalendarChange_body_run. destruct c.
  - rewrite convertEventToMemory_run.
    destruct (generateMemoryContent env ev) as [text|e] eqn:Htext;
      [destruct (generateEventTags env ev) as [eventTags|e] eqn:Htags |].
    + rewrite storeInMemoryVault_run. eexists _, _, [_].
      split; [reflexivity |]. split; [reflexivity |].
      split; [apply storeInMemoryVault_errors |].
      split; [| congruence].
      intros _ [[e He]|(t & e & Ht & He)]; congruence.
    + exists false, w, []. simpl. rewrite app_nil_r.
      repeat split; auto using errors_caught_nil.
    + exists false, w, []. simpl. rewrite app_nil_r.
      repeat split; auto using errors_caught_nil.
  - rewrite convertEventToMemory_run.
    destruct (generateMemoryContent env ev) as [text|e] eqn:Htext;
      [destruct (generateEventTags env ev) as [eventTags|e] eqn:Htags |].
    + destruct (updateInMemoryVault_errors u (entry_of ev updated_ text eventTags)
                  env w) as (b & w1 & reqs & Hrun & Htr & Herr).
      exists b, w1, reqs. split; [exact Hrun |]. split; [exact Htr |].
      split; [exact Herr |]. split.
      * intros _ [[e He]|(t & e & Ht & He)]; congruence.
      * intros _ Hl.
        pose proof (updateInMemoryVault_run u (entry_of ev updated_ text eventTags)
                      env w) as H.
        cbv zeta in H. cbn [entry_of metadata event_id] in H.
        rewrite Hl, Hrun in H. congruence.
    + exists false, w, []. simpl. rewrite app_nil_r.
      repeat split; auto using errors_caught_nil.
    + exists false, w, []. simpl. rewrite app_nil_r.
      repeat split; auto using errors_caught_nil.
  - destruct (removeFromMemoryVault_errors u (id ev) env w)
      as (b & w1 & reqs & Hrun & Htr & Herr).
    exists b, w1, reqs. split; [exact Hrun |]. split; [exact Htr |].
    split; [exact Herr |]. split; [congruence |].
    intros _ Hl. pose proof (removeFromMemoryVault_run u (id ev) env w) as H.
    cbv zeta in H. rewrite Hl, Hrun in H. congruence.
Qed.

(** C10.  Applying one change record returns a boolean for every user id,
    event and change type and for every behaviour of the collaborators: no
    error leaves [processCalendarChange], and the completed call is in the
    trace with the boolean it returned.  Every error raised on the way is
    answered with [false]: an error thrown while the event is converted, in
    which case no request is sent; a rejected request to the sink, be it
    the lookup, the POST, the PUT or the DELETE; and a lookup whose answer
    cannot be read. *)
Theorem processCalendarChange_never_throws
    (userId : string) (ev : Event) (c : ChangeType) (env : Env) (w : World) :
  exists (success : bool) (w' : World) (reqs : list HttpRequest),
    MemoryCalendarSync.processCalendarChange userId ev c env w
      = (Ok success, log (EApplied userId ev c success) w') /\
    trace w' = trace w ++ map EFetch reqs /\
    (forall i req,
       reqs !! i = Some req ->
       raises (http_fetch env (count is_fetch (trace w) + i) req) req ->
       success = false) /\
    (c <> deleted_ -> converter_throws env ev -> success = false /\ w' = w) /\
    (c <> created_ ->
     lookup_of (http_fetch env (count is_fetch (trace w))
                  (search_request userId (id ev))) = lookup_failed ->
     success = false).
Proof.
  destruct (processCalendarChange_body_errors userId ev c env w)
    as (b & w1 & reqs & Hrun & Htr & Herr & Hconv & Hlookup).
  exists b, w1, reqs. rewrite processCalendarChange_unfold, Hrun. auto.
Qed.

Lemma processCalendarChange_never_throws_witness :
  (exists w',
     MemoryCalendarSync.processCalendarChange "alice" Scenario.fresh_event
       created_ Scenario.broken_converter Scenario.alice_world
       = (Ok false,
          log (EApplied "alice" Scenario.fresh_event created_ false) w') /\
     w' = Scenario.alice_world) /\
  (exists w',
     MemoryCalendarSync.processCalendarChange "alice" Scenario.cancelled_event
       deleted_ Scenario.vault_down Scenario.alice_world
       = (Ok false,
          log (EApplied "alice" Scenario.cancelled_event deleted_ false) w')) /\
  (exists w',
     MemoryCalendarSync.processCalendarChange "alice" Scenario.fresh_event
       created_ Scenario.vault_down Scenario.alice_world
       = (Ok false,
          log (EApplied "alice" Scenario.fresh_event created_ false) w')).
Proof.
  split; [| split].
  - destruct (processCalendarChange_never_throws "alice" Scenario.fresh_event
                created_ Scenario.broken_converter Scenario.alice_world)
      as (b & w' & reqs & Hrun & _ & _ & Hconv & _).
    destruct Hconv as [-> ->]; [discriminate | left; eexists; reflexivity |].
    now exists Scenario.alice_world.
  - destruct (processCalendarChange_never_throws "alice"
                Scenario.cancelled_event deleted_ Scenario.vault_down
                Scenario.alice_world)
      as (b & w' & reqs & Hrun & _ & _ & _ & Hlookup).
    rewrite (Hlookup ltac:(discriminate) eq_refl) in Hrun. now exists w'.
  - destruct (processCalendarChange_never_throws "alice" Scenario.fresh_event
                created_ Scenario.vault_down Scenario.alice_world)
      as (b & w' & reqs & Hrun & Htr & Herr & _ & _).
    destruct reqs as [|req reqs].
    + exfalso.
      assert (Hlen : length (trace (snd (MemoryCalendarSync.processCalendarChange
                "alice" Scenario.fresh_event created_ Scenario.vault_down
                Scenario.alice_world))) = 2) by (vm_compute; reflexivity).
      rewrite Hrun in Hlen. simpl in Hlen. rewrite length_app, Htr in Hlen.
      simpl in Hlen. discriminate.
    + rewrite (Herr 0 req eq_refl I) in Hrun. now exists w'.
Defined.

(** X8.  The type of a change bounds what the sink asks of the vault.  A
    created event costs at most one request, a POST; a deleted event a GET
    and at most one DELETE, never a POST or PUT; an updated event a GET, at
    most one PUT and at most one POST, in this order.  Every request is
    keyed by the change: the lookup searches the memories of the user for
    the id of the event, an entry is stored under [/memories] and carries
    the user id, the event id and the change type, and a PUT or DELETE goes
    to the memory with some id under [/memories/], the PUT carrying the
    user id and the event id.  No table changes, and the call reports
    success only when the last request it sent was answered with a success
    status. *)
Theorem change_type_bounds_requests
    (u : string) (ev : Event) (c : ChangeType) (env : Env) (w : World) :
  exists (b : bool) (w1 : World) (reqs : list HttpRequest),
    MemoryCalendarSync.processCalendarChange u ev c env w
      = (Ok b, log (EApplied u ev c b) w1) /\
    trace w1 = trace w ++ map EFetch reqs /\
    In (map method reqs) (methods_for c) /\
    Forall (keyed u ev c) reqs /\
    same_tables w w1 /\
    (b = true ->
     exists init req,
       reqs = init ++ [req] /\
       answered_ok (http_fetch env (count is_fetch (trace w) + length init) req)
         = true).
Proof.
  assert (Hbody : exists b w1,
    MemoryCalendarSync.processCalendarChange_body u ev c env w = (Ok b, w1) /\
    sink_run env w (keyed u ev c) (methods_for c) b w1).
  { rewrite processCalendarChange_body_run. destruct c.
    - rewrite convertEventToMemory_run.
      destruct (generateMemoryContent env ev) as [text|e];
        [destruct (generateEventTags env ev) as [eventTags|e] |].
      + destruct (storeInMemoryVault_sink u (entry_of ev created_ text eventTags)
                    env w (keyed u ev created_)) as (b & w1 & Hrun & Hsink).
        { repeat split. }
        exists b, w1. split; [exact Hrun |].
        eapply sink_run_weaken; [| exact Hsink]. simpl. intuition.
      + exists false, w. split; [reflexivity |].
        eapply sink_run_weaken; [| apply sink_run_none]. simpl. intuition.
      + exists false, w. split; [reflexivity |].
        eapply sink_run_weaken; [| apply sink_run_none]. simpl. intuition.
    - rewrite convertEventToMemory_run.
      destruct (generateMemoryContent env ev) as [text|e];
        [destruct (generateEventTags env ev) as [eventTags|e] |].
      + destruct (updateInMemoryVault_sink u (entry_of ev updated_ text eventTags)
                    env w (keyed u ev updated_)) as (b & w1 & Hrun & Hsink).
        { reflexivity. }
        { intros existing. simpl. repeat (split; [reflexivity |]).
          now exists (memory_id existing). }
        { repeat split. }
        exists b, w1. split; [exact Hrun |].
        eapply sink_run_weaken; [| exact Hsink]. simpl. intuition.
      + exists false, w. split; [reflexivity |].
        eapply sink_run_weaken; [| apply sink_run_none]. simpl. intuition.
      + exists false, w. split; [reflexivity |].
        eapply sink_run_weaken; [| apply sink_run_none]. simpl. intuition.
    - apply removeFromMemoryVault_sink; [reflexivity |].
      intros existing. split; [reflexivity | now exists (memory_id existing)]. }
  destruct Hbody as (b & w1 & Hrun & [Htab (reqs & Htr & Hin & HP & Hok)]).
  exists b, w1, reqs. rewrite processCalendarChange_unfold, Hrun. auto 10.
Qed.

Lemma change_type_bounds_requests_witness :
  (exists w1 reqs init req,
     MemoryCalendarSync.processCalendarChange "alice" Scenario.fresh_event
       created_ Scenario.quiet Scenario.alice_world
       = (Ok true, log (EApplied "alice" Scenario.fresh_event created_ true) w1) /\
     map method reqs = [POST] /\
     reqs = init ++ [req] /\
     answered_ok (http_fetch Scenario.quiet (0 + length init) req) = true) /\
  trace (snd (MemoryCalendarSync.processCalendarChange "alice"
                Scenario.cancelled_event deleted_ Scenario.quiet
                Scenario.alice_world))
    = [EFetch
         {| url := "http://localhost:8000/memories/search?user_id=alice&query=event_id:ev1&limit=1";
            method := GET; body := NoBody |};
       EApplied "alice" Scenario.cancelled_event deleted_ true].
Proof.
  split; [| vm_compute; reflexivity].
  destruct (change_type_bounds_requests "alice" Scenario.fresh_event created_
              Scenario.quiet Scenario.alice_world)
    as (b & w1 & reqs & Hrun & Htr & Hin & _ & _ & Hok).
  assert (Hb : b = true).
  { assert (Hfst : fst (MemoryCalendarSync.processCalendarChange "alice"
                          Scenario.fresh_event created_ Scenario.quiet
                          Scenario.alice_world) = Ok true)
      by (vm_compute; reflexivity).
    rewrite Hrun in Hfst. now injection Hfst. }
  subst b. destruct (Hok eq_refl) as (init & req & Hreqs & Hans).
  exists w1, reqs, init, req. split; [exact Hrun |].
  split; [| split; [exact Hreqs | exact Hans]].
  destruct Hin as [Hnil | [Hpost | []]]; [| now symmetry].
  rewrite Hreqs in Hnil. rewrite map_app in Hnil.
  now destruct (map method init).
Defined.


(** X9.  An update is an upsert.  When the vault knows no memory for the
    event (the lookup is answered with an error status, or with no
    memory), and when the PUT of the memory found is answered with an
    error status, [updateInMemoryVault] POSTs the whole entry as a new
    memory and returns what that POST achieved.  A lookup or a PUT that
    fails without an answer ends the call with [false] and no POST. *)
Theorem update_falls_back_to_store
    (u : string) (m : MemoryEntry) (env : Env) (w : World) :
  let search := search_request u (event_id (metadata m)) in
  let w1 := log (EFetch search) w in
  let stored w0 :=
    (Ok (answered_ok (next_answer env w0 (store_request u m))),
     log (EFetch (store_request u m)) w0) in
  (lookup_of (next_answer env w search) = lookup_absent \/
   lookup_of (next_answer env w search) = lookup_refused ->
   MemoryCalendarSync.updateInMemoryVault u m env w = stored w1) /\
  (forall existing,
     lookup_of (next_answer env w search) = lookup_found existing ->
     let put := update_request u m existing in
     let w2 := log (EFetch put) w1 in
     (forall response,
        next_answer env w1 put = Resolves response ->
        MemoryCalendarSync.updateInMemoryVault u m env w =
          if ok response then (Ok true, w2) else stored w2) /\
     (forall e,
        next_answer env w1 put = Rejects e ->
        MemoryCalendarSync.updateInMemoryVault u m env w = (Ok false, w2))) /\
  (lookup_of (next_answer env w search) = lookup_failed ->
   MemoryCalendarSync.updateInMemoryVault u m env w = (Ok false, w1)).
Proof.
  cbv zeta. pose proof (updateInMemoryVault_run u m env w) as H.
  cbv zeta in H. rewrite H. clear H. split; [| split].
  - intros [-> | ->]; apply storeInMemoryVault_run.
  - intros existing ->. split.
    + intros response ->. destruct (ok response); [reflexivity |].
      apply storeInMemoryVault_run.
    + now intros e ->.
  - now intros ->.
Qed.

Lemma update_falls_back_to_store_witness :
  MemoryCalendarSync.updateInMemoryVault "alice" Cases.standup_entry
    Scenario.quiet Scenario.alice_world
    = (Ok true,
       log (EFetch (store_request "alice" Cases.standup_entry))
         (log (EFetch (search_request "alice" (Js.Val "ev3")))
            Scenario.alice_world)).
Proof.
  pose proof (update_falls_back_to_store "alice" Cases.standup_entry
                Scenario.quiet Scenario.alice_world) as H.
  cbv zeta in H. destruct H as (Habsent & _).
  apply Habsent. left. reflexivity.
Defined.

(** X10.  When the lookup, a GET of the search endpoint keyed by the user
    id and the event id, finds a memory, [removeFromMemoryVault] sends one
    DELETE for the first memory found, to [/memories/] followed by its id,
    and returns whether it was answered with a success status; a lookup
    that is answered with an error status, or not at all, gives [false]
    without any DELETE. *)
Theorem remove_deletes_found_memory
    (u : string) (eventId : Js.opt string) (env : Env) (w : World) :
  let search :=
    {| url := "http://localhost:8000/memories/search?user_id=" +:+ u
                +:+ "&query=event_id:" +:+ id_text eventId +:+ "&limit=1";
       method := GET; body := NoBody |} in
  let w1 := log (EFetch search) w in
  (forall existing,
     lookup_of (next_answer env w search) = lookup_found existing ->
     let delete :=
       {| url := "http://localhost:8000/memories/" +:+ memory_id existing;
          method := DELETE; body := NoBody |} in
     MemoryCalendarSync.removeFromMemoryVault u eventId env w
       = (Ok (answered_ok (next_answer env w1 delete)),
          log (EFetch delete) w1)) /\
  (lookup_of (next_answer env w search) = lookup_refused \/
   lookup_of (next_answer env w search) = lookup_failed ->
   MemoryCalendarSync.removeFromMemoryVault u eventId env w = (Ok false, w1)).
Proof.
  cbv zeta. pose proof (removeFromMemoryVault_run u eventId env w) as H.
  cbv zeta in H. unfold search_request, delete_request in H.
  rewrite H. clear H. split.
  - now intros existing ->.
  - now intros [-> | ->].
Qed.

Lemma remove_deletes_found_memory_witness :
  MemoryCalendarSync.removeFromMemoryVault "alice" (Js.Val "ev1")
    Cases.vault_with_memory Scenario.alice_world
    = (Ok true,
       log (EFetch {| url := "http://localhost:8000/memories/mem-42";
                      method := DELETE; body := NoBody |})
         (log (EFetch {| url := "http://localhost:8000/memories/search?user_id=alice&query=event_id:ev1&limit=1";
                      method := GET; body := NoBody |})
            Scenario.alice_world)).
Proof.
  pose proof (remove_deletes_found_memory "alice" (Js.Val "ev1")
                Cases.vault_with_memory Scenario.alice_world) as H.
  cbv zeta in H. destruct H as (Hfound & _).
  apply (Hfound Cases.known_memory). reflexivity.
Defined.

(** ** The resource locator *)

Lemma strip_prefix_Some p : forall s t,
  WebhookHandler.strip_prefix p s = Some t <-> s = p +:+ t.
Proof.
  induction p as [|a p IH]; intros s t; simpl.
  - split; [now intros [= ->] | now intros ->].
  - destruct s as [|b s]; [split; discriminate |].
    destruct (Ascii.eqb_spec a b) as [->|Hne].
    + rewrite IH. split; [now intros -> | now intros [= ->]].
    + split; [discriminate | intros [= ? ?]; congruence].
Qed.

Lemma prefix_append p : forall s, String.prefix p (p +:+ s) = true.
Proof.
  induction p as [|a p IH]; intros s; simpl; [now destruct s |].
  destruct (ascii_dec a a); [apply IH | contradiction].
Qed.

Lemma prefix_inv p : forall s,
  String.prefix p s = true -> exists t, s = p +:+ t.
Proof.
  induction p as [|a p IH]; intros s; [now exists s |].
  destruct s as [|b s]; simpl; [discriminate |].
  destruct (ascii_dec a b) as [->|]; [| discriminate].
  intros H. destruct (IH s H) as [t ->]. now exists t.
Qed.

Lemma span_no_slash_spec s :
  let '(seg, rest) := WebhookHandler.span_no_slash s in
  s = seg +:+ rest /\ slash_free seg = true.
Proof.
  induction s as [|c s IH]; simpl; [easy |].
  destruct (Ascii.eqb c "/") eqn:Hc; [easy |].
  destruct (WebhookHandler.span_no_slash s) as [seg rest].
  destruct IH as [-> Hfree]. simpl. now rewrite Hc.
Qed.

Lemma span_no_slash_append seg : forall rest,
  slash_free seg = true ->
  WebhookHandler.span_no_slash (seg +:+ "/" +:+ rest) = (seg, "/" +:+ rest).
Proof.
  induction seg as [|c seg IH]; intros rest Hfree; simpl in *; [reflexivity |].
  apply andb_prop in Hfree as [Hc Hfree].
  destruct (Ascii.eqb c "/"); [discriminate |]. now rewrite IH.
Qed.

Lemma truthy_string_nonempty s : Js.truthy_string s = true <-> s <> EmptyString.
Proof.
  unfold Js.truthy_string. destruct s; simpl; split; intros; congruence.
Qed.

Lemma match_here_sound s seg :
  WebhookHandler.match_here s = Some seg ->
  seg <> EmptyString /\ slash_free seg = true /\
  exists post, s = "calendars/" +:+ seg +:+ "/events" +:+ post.
Proof.
  unfold WebhookHandler.match_here.
  destruct (WebhookHandler.strip_prefix "calendars/" s) as [t|] eqn:Hp;
    [| discriminate].
  apply strip_prefix_Some in Hp. subst s.
  pose proof (span_no_slash_spec t) as Hspan.
  destruct (WebhookHandler.span_no_slash t) as [seg' rest].
  destruct Hspan as [-> Hfree].
  destruct (Js.truthy_string seg') eqn:Ht; [| discriminate]. simpl.
  destruct (String.prefix "/events" rest) eqn:Hev; [| discriminate].
  intros [= <-]. apply prefix_inv in Hev as [post ->].
  split; [now apply truthy_string_nonempty |]. split; [exact Hfree |].
  now exists post.
Qed.

Lemma match_here_complete seg post :
  seg <> EmptyString -> slash_free seg = true ->
  WebhookHandler.match_here ("calendars/" +:+ seg +:+ "/events" +:+ post)
    = Some seg.
Proof.
  intros Hne Hfree. unfold WebhookHandler.match_here.
  assert (Hp : WebhookHandler.strip_prefix "calendars/"
                 ("calendars/" +:+ seg +:+ "/events" +:+ post)
               = Some (seg +:+ "/events" +:+ post)).
  { now apply strip_prefix_Some. }
  rewrite Hp.
  change (seg +:+ "/events" +:+ post) with (seg +:+ "/" +:+ ("events" +:+ post)).
  rewrite span_no_slash_append by exact Hfree.
  apply truthy_string_nonempty in Hne. rewrite Hne.
  change ("/" +:+ "events" +:+ post) with ("/events" +:+ post).
  now rewrite prefix_append.
Qed.

Lemma regex_match_sound : forall s seg,
  WebhookHandler.regex_match s = Some seg -> locates s seg.
Proof.
  induction s as [|c s IH]; intros seg.
  - simpl. discriminate.
  - simpl. destruct (WebhookHandler.match_here (String c s)) as [seg'|] eqn:Hm.
    + intros [= <-]. apply match_here_sound in Hm as (Hne & Hfree & post & Hs).
      split; [exact Hne |]. split; [exact Hfree |].
      exists EmptyString, post. exact Hs.
    + intros H. apply IH in H as (Hne & Hfree & pre & post & ->).
      split; [exact Hne |]. split; [exact Hfree |].
      now exists (String c pre), post.
Qed.

Lemma regex_match_complete : forall pre seg post,
  seg <> EmptyString -> slash_free seg = true ->
  WebhookHandler.regex_match
    (pre +:+ "calendars/" +:+ seg +:+ "/events" +:+ post) <> None.
Proof.
  induction pre as [|c pre IH]; intros seg post Hne Hfree.
  - change (EmptyString +:+ "calendars/" +:+ seg +:+ "/events" +:+ post)
      with ("calendars/" +:+ seg +:+ "/events" +:+ post).
    change (WebhookHandler.regex_match
              ("calendars/" +:+ seg +:+ "/events" +:+ post))
      with (match WebhookHandler.match_here
                    ("calendars/" +:+ seg +:+ "/events" +:+ post) with
            | Some seg' => Some seg'
            | None =>
                WebhookHandler.regex_match
                  ("alendars/" +:+ seg +:+ "/events" +:+ post)
            end).
    now rewrite match_here_complete.
  - change (String c pre +:+ "calendars/" +:+ seg +:+ "/events" +:+ post)
      with (String c (pre +:+ "calendars/" +:+ seg +:+ "/events" +:+ post)).
    simpl WebhookHandler.regex_match.
    destruct (WebhookHandler.match_here _); [discriminate |].
    now apply IH.
Qed.

Lemma regex_match_None s :
  WebhookHandler.regex_match s = None <-> ~ exists seg, locates s seg.
Proof.
  split.
  - intros Hnone (seg & Hne & Hfree & pre & post & ->).
    now apply (regex_match_complete pre seg post).
  - intros Hno. destruct (WebhookHandler.regex_match s) as [seg|] eqn:Hm;
      [| reflexivity].
    elim Hno. exists seg. now apply regex_match_sound.
Qed.

(** X11.  The locator pattern.  [regex_match] answers with a group exactly
    when the string contains [calendars/], a non-empty group without a
    slash and [/events]; the group it answers with is such a group. *)
Theorem locator_pattern (s : string) :
  (forall seg, WebhookHandler.regex_match s = Some seg -> locates s seg) /\
  (WebhookHandler.regex_match s = None <-> ~ exists seg, locates s seg).
Proof. split; [apply regex_match_sound | apply regex_match_None]. Qed.

Lemma locator_pattern_witness :
  locates (resourceUri Scenario.primary_headers) "primary".
Proof.
  destruct (locator_pattern (resourceUri Scenario.primary_headers))
    as [Hsound _].
  apply Hsound. reflexivity.
Defined.

Lemma regex_match_here s seg :
  WebhookHandler.match_here s = Some seg ->
  WebhookHandler.regex_match s = Some seg.
Proof.
  intros H. destruct s; [vm_compute in H; discriminate |].
  cbn [WebhookHandler.regex_match]. now rewrite H.
Qed.

Lemma regex_match_events_locator calendarId query :
  calendarId <> EmptyString -> slash_free calendarId = true ->
  WebhookHandler.regex_match (events_locator calendarId query) = Some calendarId.
Proof.
  intros Hne Hfree. unfold events_locator.
  pose proof (match_here_complete calendarId query Hne Hfree) as Hm.
  apply regex_match_here in Hm.
  repeat match goal with
         | |- WebhookHandler.regex_match (String ?c ?s +:+ ?t) = _ =>
             change (String c s +:+ t) with (String c (s +:+ t));
             change (WebhookHandler.regex_match (String c (s +:+ t)))
               with (WebhookHandler.regex_match (s +:+ t))
         end.
  exact Hm.
Qed.

(** X12.  The calendar a notification is about.  For the locator Google
    sends for the events of a calendar the id is the decoded path segment
    between [calendars/] and [/events]; a locator without such a segment
    stands for the calendar [primary], and the decoder is not consulted. *)
Theorem calendar_id_extraction (env : Env) (w : World) :
  (forall calendarId query,
     calendarId <> EmptyString -> slash_free calendarId = true ->
     WebhookHandler.extractCalendarIdFromResourceUri
       (events_locator calendarId query) env w
       = (settle_result (decodeURIComponent env calendarId), w)) /\
  (forall uri,
     (~ exists seg, locates uri seg) ->
     WebhookHandler.extractCalendarIdFromResourceUri uri env w
       = (Ok "primary", w)).
Proof.
  split.
  - intros calendarId query Hne Hfree.
    rewrite extractCalendarId_run. unfold calendar_id_of.
    now rewrite regex_match_events_locator.
  - intros uri Hno. rewrite extractCalendarId_run. unfold calendar_id_of.
    apply regex_match_None in Hno. now rewrite Hno.
Qed.

Lemma calendar_id_extraction_witness :
  WebhookHandler.extractCalendarIdFromResourceUri
    (events_locator "team%40example.org" "?alt=json") Scenario.quiet
    Scenario.alice_world
    = (Ok "team%40example.org", Scenario.alice_world) /\
  WebhookHandler.extractCalendarIdFromResourceUri
    "https://www.googleapis.com/calendar/v3/users/me/calendarList"
    Scenario.quiet Scenario.alice_world
    = (Ok "primary", Scenario.alice_world).
Proof.
  destruct (calendar_id_extraction Scenario.quiet Scenario.alice_world)
    as [Hid Hdefault].
  split.
  - apply (Hid "team%40example.org" "?alt=json"); [discriminate | reflexivity].
  - apply Hdefault. apply regex_match_None. reflexivity.
Defined.

(** ** Requests of the incremental fetch *)

Lemma list_requests_refresh (l : list Effect) :
  forallb refresh_effect l = true -> list_requests l = [].
Proof.
  induction l as [|e l IH]; simpl; [easy |].
  intros H. apply andb_prop in H as [He Hl]. rewrite (IH Hl).
  now destruct e.
Qed.

Lemma fetch_attempt_with_client u h env w client wa calId :
  Auth.getAuthenticatedClient u env w = (Ok (Some client), wa) ->
  calendar_id_of env (resourceUri h) = Resolves calId ->
  WebhookHandler.fetch_attempt u h env w =
    (lastSyncToken ← Db.getSyncToken u calId;
     listParams ← choose_params calId lastSyncToken;
     request_changes u calId listParams) env wa.
Proof.
  intros Hauth Hcal. rewrite fetch_attempt_eq, run_bind, Hauth.
  cbv beta iota. rewrite run_bind, extractCalendarId_run, Hcal. reflexivity.
Qed.

Lemma list_requests_request_changes u calId p env w :
  list_requests (trace (snd (request_changes u calId p env w)))
    = list_requests (trace w) ++ [p].
Proof.
  rewrite request_changes_run.
  destruct (events_list env _ p) as [data|e]; simpl.
  - destruct (Js.or_undefined (nextSyncToken data)) as [tok|].
    + destruct (updateSyncToken_trace u calId (Some tok) env
                  (log (EEventsList p) w)) as [b ->].
      simpl. rewrite !list_requests_app. simpl. now rewrite app_nil_r.
    + simpl. now rewrite list_requests_app.
  - now rewrite list_requests_app.
Qed.

Lemma clock_log_query env q b w : clock env (log (EQuery q b) w) = clock env w.
Proof. unfold clock. now rewrite count_log, Nat.add_0_r. Qed.

Lemma request_changes_trace u calId p env w :
  exists tail,
    trace (snd (request_changes u calId p env w))
      = trace w ++ EEventsList p :: tail /\
    forallb is_query tail = true.
Proof.
  rewrite request_changes_run.
  destruct (events_list env _ p) as [data|e]; simpl.
  - destruct (Js.or_undefined (nextSyncToken data)) as [tok|].
    + destruct (updateSyncToken_trace u calId (Some tok) env
                  (log (EEventsList p) w)) as [b ->].
      exists [EQuery (UpsertSyncToken u calId (Some tok)) b].
      simpl. now rewrite <- app_assoc.
    + now exists [].
  - now exists [].
Qed.

Lemma list_requests_queries (l : list Effect) :
  forallb is_query l = true -> list_requests l = [].
Proof.
  induction l as [|e l IH]; simpl; [easy |]. intros H.
  apply andb_prop in H as [He Hl]. rewrite (IH Hl). now destruct e.
Qed.

Lemma attempt_request_cases u h env w wa client calId :
  Auth.getAuthenticatedClient u env w = (Ok (Some client), wa) ->
  calendar_id_of env (resourceUri h) = Resolves calId ->
  let w' := snd (WebhookHandler.fetch_attempt u h env w) in
  let stored := default None (sync_tokens w !! (u, calId)) in
  let now := clock env wa in
  (forall tok,
     executes env wa (SelectSyncToken u calId) ->
     usable_token stored = Some tok ->
     list_requests (trace w')
       = list_requests (trace w) ++ [token_request calId tok] /\
     exists tail,
       trace w' = trace wa ++
         [EQuery (SelectSyncToken u calId) true;
          EEventsList (token_request calId tok)] ++ tail /\
       forallb is_query tail = true) /\
  (~ executes env wa (SelectSyncToken u calId) \/ usable_token stored = None ->
   list_requests (trace w')
     = list_requests (trace w) ++ [initial_window_params calId now] /\
   exists read tail,
     trace w' = trace wa ++
       [EQuery (SelectSyncToken u calId) read;
        ENewDate (Js.Date now 0);
        EEventsList (initial_window_params calId now)] ++ tail /\
     forallb is_query tail = true).
Proof.
  intros Hauth Hcal w' stored now. subst w' stored now.
  rewrite (fetch_attempt_with_client u h env w client wa calId Hauth Hcal).
  destruct (getAuthenticatedClient_run u env w)
    as (client' & wa' & Hrun & Htok & b & sfx & Htr & Hsfx).
  rewrite Hauth in Hrun. injection Hrun as <- <-.
  assert (Hreq : list_requests (trace wa) = list_requests (trace w)).
  { rewrite Htr, list_requests_app. simpl.
    rewrite (list_requests_refresh sfx Hsfx). now rewrite app_nil_r. }
  assert (Hinit : forall read,
    let wb := log (EQuery (SelectSyncToken u calId) read) wa in
    let p := initial_window_params calId (clock env wa) in
    let w' := snd ((listParams ← choose_params calId None;
                    request_changes u calId listParams) env wb) in
    list_requests (trace w') = list_requests (trace w) ++ [p] /\
    exists tail,
      trace w' = trace wa ++
        [EQuery (SelectSyncToken u calId) read;
         ENewDate (Js.Date (clock env wa) 0); EEventsList p] ++ tail /\
      forallb is_query tail = true).
  { intros read. cbv zeta. rewrite run_bind, choose_params_run.
    simpl usable_token. cbv zeta.
    change (Date_now env (count is_new_date
              (trace (log (EQuery (SelectSyncToken u calId) read) wa))))
      with (clock env (log (EQuery (SelectSyncToken u calId) read) wa)).
    rewrite clock_log_query.
    set (p := initial_window_params calId (clock env wa)).
    set (wc := log (ENewDate _) _).
    destruct (request_changes_trace u calId p env wc) as (tail & Htail & Hq).
    split.
    - rewrite Htail, list_requests_app. subst wc.
      rewrite !list_requests_log. simpl.
      rewrite (list_requests_queries tail Hq), !app_nil_r, Hreq. reflexivity.
    - exists tail. split; [| exact Hq]. rewrite Htail. subst wc. simpl.
      now rewrite <- !app_assoc. }
  rewrite run_bind, getSyncToken_run. unfold executes. split.
  - intros tok Hex Hstored. rewrite Hex. rewrite run_bind, choose_params_run.
    rewrite Htok, Hstored.
    set (wb := log _ wa).
    destruct (request_changes_trace u calId (token_request calId tok) env wb)
      as (tail & Htail & Hq).
    split.
    + rewrite Htail, list_requests_app. subst wb.
      rewrite list_requests_log. simpl.
      rewrite (list_requests_queries tail Hq), !app_nil_r, Hreq. reflexivity.
    + exists tail. split; [| exact Hq]. rewrite Htail. subst wb. simpl.
      now rewrite <- !app_assoc.
  - intros Hno.
    destruct (query_error env _ (SelectSyncToken u calId)) as [e|] eqn:Hq.
    + destruct (Hinit false) as (Hreqs & tail & Htail & Hqs).
      split; [exact Hreqs |]. now exists false, tail.
    + destruct Hno as [Hno | Hno]; [now elim Hno |].
      rewrite Htok.
      destruct (Hinit true) as (Hreqs & tail & Htail & Hqs).
      assert (Hnone : forall stored w0,
        usable_token stored = None ->
        (listParams ← choose_params calId stored;
         request_changes u calId listParams) env w0
        = (listParams ← choose_params calId None;
           request_changes u calId listParams) env w0).
      { intros stored w0 Hs. now rewrite !run_bind, !choose_params_run, Hs. }
      rewrite (Hnone _ _ Hno).
      split; [exact Hreqs |]. now exists true, tail.
Qed.

Lemma attempt_without_client u h env w wa :
  Auth.getAuthenticatedClient u env w = (Ok None, wa) ->
  WebhookHandler.fetch_attempt u h env w = (Throw (auth_failure u), wa) /\
  list_requests (trace wa) = list_requests (trace w).
Proof.
  intros Hauth. rewrite fetch_attempt_eq, run_bind, Hauth. split; [reflexivity |].
  destruct (getAuthenticatedClient_run u env w)
    as (client' & wa' & Hrun & Htok & b & sfx & Htr & Hsfx).
  rewrite Hauth in Hrun. injection Hrun as <- <-.
  rewrite Htr, list_requests_app. simpl.
  rewrite (list_requests_refresh sfx Hsfx). now rewrite app_nil_r.
Qed.

(** ** A rejected sync token *)

(** C6.  Let an attempt that is not the last one ([attempt + 1 <
    maxRetries]) fail with an error that rejects the sync token (code 410
    or a message containing 'Sync token is no longer valid').  The handler
    then issues the upsert that writes NULL over the stored token, which
    the trace records as executed exactly when the database executes it,
    and goes straight to the next attempt, without sleeping.  When the
    database executes that statement, the store holds no token for the
    calendar and the next attempt sends no list request at all (it has no
    client and throws) or exactly one: it carries no sync token but the
    initial window whose [timeMin] is 30 days before the clock reading the
    attempt takes just before the request.  When the database rejects the statement the store is left as
    it was.  If the next attempt succeeds, its change list is what the loop
    returns: the rejection does not reach the caller. *)
Theorem rejected_sync_token_recovered
    (u : string) (h : GoogleWebhookHeaders) (env : Env) (fuel a : nat)
    (w w1 : World) (e : Js.error) (calId : string) :
  S a < WebhookHandler.maxRetries ->
  WebhookHandler.fetch_attempt u h env w = (Throw e, w1) ->
  WebhookHandler.sync_token_rejected e = true ->
  calendar_id_of env (resourceUri h) = Resolves calId ->
  let clear := UpsertSyncToken u calId None in
  let w2 := snd (Db.updateSyncToken u calId None env w1) in
  (exists cleared : bool,
     trace w2 = trace w1 ++ [EQuery clear cleared] /\
     (cleared = true <-> executes env w1 clear)) /\
  WebhookHandler.fetch_loop (S fuel) u h a env w
    = WebhookHandler.fetch_loop fuel u h (S a) env w2 /\
  (executes env w1 clear ->
   sync_tokens w2 !! (u, calId) = Some None /\
   forall r w3,
     WebhookHandler.fetch_attempt u h env w2 = (r, w3) ->
     (r = Throw (auth_failure u) /\
      list_requests (trace w3) = list_requests (trace w2)) \/
     exists pre post now,
       trace w3 = trace w2 ++ pre ++
         [ENewDate (Js.Date now 0);
          EEventsList (initial_window_params calId now)] ++ post /\
       now = Date_now env (count is_new_date (trace w2 ++ pre)) /\
       list_requests pre = [] /\ list_requests post = []) /\
  (~ executes env w1 clear -> sync_tokens w2 = sync_tokens w1) /\
  (forall fuel' changes w3,
     fuel = S fuel' ->
     WebhookHandler.fetch_attempt u h env w2 = (Ok changes, w3) ->
     WebhookHandler.fetch_loop (S fuel) u h a env w = (Ok changes, w3)).
Proof.
  intros Ha Hatt Hrej Hcal clear w2.
  assert (Hstep : WebhookHandler.fetch_loop (S fuel) u h a env w
                  = WebhookHandler.fetch_loop fuel u h (S a) env w2).
  { rewrite fetch_loop_step by lia. rewrite Hatt, Hrej, Hcal.
    apply Nat.ltb_lt in Ha. now rewrite Ha. }
  split; [| split; [exact Hstep | split; [| split]]].
  - subst w2 clear. rewrite updateSyncToken_run. unfold executes.
    destruct (query_error env _ _) as [err|].
    + exists false. split; [reflexivity |]. split; discriminate.
    + exists true. split; [reflexivity |]. now split.
  - intros Hex. unfold executes in Hex.
    assert (Hw2 : sync_tokens w2 !! (u, calId) = Some None).
    { subst w2 clear. rewrite updateSyncToken_run, Hex. simpl.
      apply lookup_insert_eq. }
    split; [exact Hw2 |].
    intros r w3 Hretry.
    destruct (getAuthenticatedClient_run u env w2)
      as (client & wa & Hauth & Htok & b & sfx & Htr & Hsfx).
    destruct client as [client|].
    + right.
      pose proof (attempt_request_cases u h env w2 wa client calId Hauth Hcal)
        as Hcases.
      cbv zeta in Hcases. destruct Hcases as [_ Hinit].
      destruct Hinit as (_ & read & tail & Htail & Hq).
      { right. now rewrite Hw2. }
      rewrite Hretry in Htail. cbn [snd] in Htail.
      exists (EQuery (SelectUserTokens u) b :: sfx
              ++ [EQuery (SelectSyncToken u calId) read]), tail, (clock env wa).
      split; [| split; [| split]].
      * rewrite Htail, Htr. repeat (rewrite <- app_assoc; simpl). reflexivity.
      * unfold clock. rewrite app_comm_cons, app_assoc, <- Htr, count_app.
        unfold count at 3. simpl. now rewrite Nat.add_0_r.
      * change (EQuery (SelectUserTokens u) b :: sfx ++ ?l)
          with ([EQuery (SelectUserTokens u) b] ++ sfx ++ l).
        rewrite !list_requests_app, (list_requests_refresh sfx Hsfx).
        reflexivity.
      * now apply list_requests_queries.
    + left. destruct (attempt_without_client u h env w2 wa Hauth) as [Hrun Hreq].
      rewrite Hretry in Hrun. injection Hrun as -> ->. now split.
  - intros Hno. subst w2 clear. rewrite updateSyncToken_run. unfold executes in Hno.
    destruct (query_error env _ _); [reflexivity | now elim Hno].
  - intros fuel' changes w3 -> Hok. rewrite Hstep.
    rewrite fetch_loop_step by lia. now rewrite Hok.
Qed.

(** C6 does not hold as stated: when the database rejects the statement
    that clears the token, every retry reads the stored token again and
    sends it again, and the rejection of the provider reaches the caller
    after the third attempt. *)
Lemma rejected_clear_resends_token :
  fst Scenario.clear_rejected_fetch = Throw Scenario.gone /\
  count (fun e => match e with
                  | EQuery (UpsertSyncToken "alice" "primary" None) false => true
                  | _ => false
                  end) (trace (snd Scenario.clear_rejected_fetch)) = 3 /\
  list_requests (trace (snd Scenario.clear_rejected_fetch))
    = [token_request "primary" "CPDAlvWDx70CEPDAlvWDx70CGAU=";
       token_request "primary" "CPDAlvWDx70CEPDAlvWDx70CGAU=";
       token_request "primary" "CPDAlvWDx70CEPDAlvWDx70CGAU="] /\
  sync_tokens (snd Scenario.clear_rejected_fetch) !! ("alice", "primary")
    = Some (Some "CPDAlvWDx70CEPDAlvWDx70CGAU=").
Proof. vm_compute. repeat split. Qed.

Lemma rejected_sync_token_recovered_witness :
  WebhookHandler.fetchIncrementalChanges "alice" Scenario.primary_headers
    Scenario.expired_token Scenario.alice_world
    = (Ok [WebhookHandler.to_change Scenario.fresh_event],
       snd (WebhookHandler.fetch_attempt "alice" Scenario.primary_headers
              Scenario.expired_token
              (snd (Db.updateSyncToken "alice" "primary" None
                      Scenario.expired_token (snd Scenario.expired_first))))) /\
  list_requests
    (trace (snd (WebhookHandler.fetchIncrementalChanges "alice"
                   Scenario.primary_headers Scenario.expired_token
                   Scenario.alice_world)))
    = [{| calendarId := "primary";
          showDeleted := Some true;
          singleEvents := Some true;
          maxResults := 250;
          syncToken := Some "CPDAlvWDx70CEPDAlvWDx70CGAU=";
          timeMin := None;
          timeMax := None;
          orderBy := None;
          pageToken := None |};
       {| calendarId := "primary";
          showDeleted := Some true;
          singleEvents := Some true;
          maxResults := 250;
          syncToken := None;
          timeMin := Some {| Js.clock_ms := 1700000000000; Js.day_shift := -30 |};
          timeMax := None;
          orderBy := None;
          pageToken := None |}].
Proof.
  split; [| vm_compute; reflexivity].
  destruct (rejected_sync_token_recovered "alice" Scenario.primary_headers
              Scenario.expired_token 2 0 Scenario.alice_world
              (snd Scenario.expired_first) Scenario.gone "primary")
    as (_ & _ & _ & _ & Hrecovered).
  - unfold WebhookHandler.maxRetries. lia.
  - vm_compute. reflexivity.
  - reflexivity.
  - reflexivity.
  - apply (Hrecovered 1); [reflexivity |]. vm_compute. reflexivity.
Defined.

(** X13.  The request of an attempt follows the sync-token store.  For an
    attempt that has a client, the one list request it sends carries the
    stored token, and no time window, when the token is a non-empty string
    and the database executes its read; no clock is read then.  When the
    read is rejected, or the store holds no token, NULL or the empty string
    for the calendar, the attempt reads the clock and the request carries
    no token and a [timeMin] 30 days before that reading.  In both cases
    the request has [showDeleted] and [singleEvents] set and [maxResults]
    250, and only database statements follow it. *)
Theorem attempt_request_follows_store
    (u : string) (h : GoogleWebhookHeaders) (env : Env) (w wa : World)
    (client : OAuth2Client) (calId : string) :
  Auth.getAuthenticatedClient u env w = (Ok (Some client), wa) ->
  calendar_id_of env (resourceUri h) = Resolves calId ->
  let w' := snd (WebhookHandler.fetch_attempt u h env w) in
  let stored := default None (sync_tokens w !! (u, calId)) in
  let now := clock env wa in
  (forall tok,
     executes env wa (SelectSyncToken u calId) ->
     usable_token stored = Some tok ->
     list_requests (trace w')
       = list_requests (trace w) ++ [token_request calId tok] /\
     exists tail,
       trace w' = trace wa ++
         [EQuery (SelectSyncToken u calId) true;
          EEventsList (token_request calId tok)] ++ tail /\
       forallb is_query tail = true) /\
  (~ executes env wa (SelectSyncToken u calId) \/ usable_token stored = None ->
   list_requests (trace w')
     = list_requests (trace w) ++ [initial_window_params calId now] /\
   exists read tail,
     trace w' = trace wa ++
       [EQuery (SelectSyncToken u calId) read;
        ENewDate (Js.Date now 0);
        EEventsList (initial_window_params calId now)] ++ tail /\
     forallb is_query tail = true).
Proof. apply attempt_request_cases. Qed.

Lemma attempt_request_follows_store_witness :
  list_requests
    (trace (snd (WebhookHandler.fetch_attempt "alice" Scenario.primary_headers
                   Scenario.quiet Scenario.alice_world)))
    = [{| calendarId := "primary";
          showDeleted := Some true;
          singleEvents := Some true;
          maxResults := 250;
          syncToken := Some "CPDAlvWDx70CEPDAlvWDx70CGAU=";
          timeMin := None;
          timeMax := None;
          orderBy := None;
          pageToken := None |}] /\
  list_requests
    (trace (snd (WebhookHandler.fetch_attempt "alice" Cases.work_headers
                   Scenario.quiet Scenario.alice_world)))
    = [{| calendarId := "work";
          showDeleted := Some true;
          singleEvents := Some true;
          maxResults := 250;
          syncToken := None;
          timeMin := Some {| Js.clock_ms := 1700000000000; Js.day_shift := -30 |};
          timeMax := None;
          orderBy := None;
          pageToken := None |}].
Proof.
  split.
  - pose proof (attempt_request_follows_store "alice" Scenario.primary_headers
                  Scenario.quiet Scenario.alice_world
                  (log (EQuery (SelectUserTokens "alice") true)
                     Scenario.alice_world)
                  {| client_access_token := Js.Val "ya29.a0";
                     client_refresh_token := Js.Val "1//0g" |}
                  "primary" eq_refl eq_refl) as H.
    cbv zeta in H. destruct H as [Hstored _].
    destruct (Hstored "CPDAlvWDx70CEPDAlvWDx70CGAU=" eq_refl eq_refl)
      as [Hreqs _].
    exact Hreqs.
  - pose proof (attempt_request_follows_store "alice" Cases.work_headers
                  Scenario.quiet Scenario.alice_world
                  (log (EQuery (SelectUserTokens "alice") true)
                     Scenario.alice_world)
                  {| client_access_token := Js.Val "ya29.a0";
                     client_refresh_token := Js.Val "1//0g" |}
                  "work" eq_refl eq_refl) as H.
    cbv zeta in H. destruct H as [_ Hwindow].
    destruct (Hwindow (or_intror eq_refl)) as [Hreqs _].
    exact Hreqs.
Defined.

Lemma fetch_attempt_no_tokens u h env w :
  stored_tokens w u = None ->
  exists b,
    WebhookHandler.fetch_attempt u h env w
      = (Throw (auth_failure u), log (EQuery (SelectUserTokens u) b) w).
Proof.
  intros Hnone. rewrite fetch_attempt_eq, run_bind.
  unfold Auth.getAuthenticatedClient. rewrite run_try_catch, run_bind.
  rewrite getUserTokens_run.
  destruct (query_error env _ (SelectUserTokens u)).
  - now exists false.
  - unfold stored_tokens in Hnone. rewrite Hnone. now exists true.
Qed.

(** X14.  A notification for a user without stored tokens.  Every attempt
    fails before the provider is asked, so the fetch reads the [users]
    table three times, sleeps 2 and 4 seconds in between, sends no list
    request, changes no table and throws the error of the missing
    client. *)
Theorem unknown_user_fetch_fails
    (u : string) (h : GoogleWebhookHeaders) (env : Env) (w : World) :
  stored_tokens w u = None ->
  WebhookHandler.sync_token_rejected (auth_failure u) = false ->
  let r := WebhookHandler.fetchIncrementalChanges u h env w in
  fst r = Throw (auth_failure u) /\
  same_tables w (snd r) /\
  (exists b1 b2 b3,
     trace (snd r) = trace w ++
       [EQuery (SelectUserTokens u) b1; ESleep 2000;
        EQuery (SelectUserTokens u) b2; ESleep 4000;
        EQuery (SelectUserTokens u) b3]).
Proof.
  intros Hnone Hrej r. subst r. unfold WebhookHandler.fetchIncrementalChanges.
  destruct (fetch_attempt_no_tokens u h env w Hnone) as [b1 H1].
  set (w1 := log (ESleep (WebhookHandler.backoff_delay 1))
               (log (EQuery (SelectUserTokens u) b1) w)).
  destruct (fetch_attempt_no_tokens u h env w1 Hnone) as [b2 H2].
  set (w2 := log (ESleep (WebhookHandler.backoff_delay 2))
               (log (EQuery (SelectUserTokens u) b2) w1)).
  destruct (fetch_attempt_no_tokens u h env w2 Hnone) as [b3 H3].
  assert (Hrun :
    WebhookHandler.fetch_loop 3 u h 0 env w
      = (Throw (auth_failure u), log (EQuery (SelectUserTokens u) b3) w2)).
  { rewrite fetch_loop_step by (unfold WebhookHandler.maxRetries; lia).
    rewrite H1, Hrej. change (1 <? WebhookHandler.maxRetries)%nat with true.
    cbv iota. fold w1.
    rewrite fetch_loop_step by (unfold WebhookHandler.maxRetries; lia).
    rewrite H2, Hrej. change (2 <? WebhookHandler.maxRetries)%nat with true.
    cbv iota. fold w2.
    rewrite fetch_loop_step by (unfold WebhookHandler.maxRetries; lia).
    rewrite H3, Hrej. reflexivity. }
  change WebhookHandler.maxRetries with 3. rewrite Hrun.
  split; [reflexivity |]. split; [repeat split |].
  exists b1, b2, b3. simpl. now rewrite <- !app_assoc.
Qed.

Lemma unknown_user_fetch_fails_witness :
  fst (WebhookHandler.fetchIncrementalChanges "bob" Scenario.primary_headers
         Scenario.quiet Scenario.alice_world)
    = Throw (auth_failure "bob") /\
  sleeps (trace (snd (WebhookHandler.fetchIncrementalChanges "bob"
                        Scenario.primary_headers Scenario.quiet
                        Scenario.alice_world)))
    = [2000; 4000]%Z.
Proof.
  pose proof (unknown_user_fetch_fails "bob" Scenario.primary_headers
                Scenario.quiet Scenario.alice_world eq_refl eq_refl) as H.
  cbv zeta in H. destruct H as (Hres & _ & b1 & b2 & b3 & Htr).
  split; [exact Hres |]. rewrite Htr. reflexivity.
Defined.

Lemma includes_spec : forall s sub,
  Js.includes s sub = true <-> exists pre post, s = pre +:+ sub +:+ post.
Proof.
  induction s as [|c s IH]; intros sub.
  - cbn [Js.includes]. rewrite orb_false_r. split.
    + intros H. apply prefix_inv in H as [t Ht]. now exists EmptyString, t.
    + intros (pre & post & H). destruct pre; [| discriminate].
      destruct sub; [reflexivity | discriminate].
  - cbn [Js.includes]. rewrite orb_true_iff, IH. split.
    + intros [H | (pre & post & ->)].
      * apply prefix_inv in H as [t Ht]. now exists EmptyString, t.
      * now exists (String c pre), post.
    + intros (pre & post & H). destruct pre as [|c' pre].
      * left. change (EmptyString +:+ sub +:+ post) with (sub +:+ post) in H.
        rewrite H. apply prefix_append.
      * right. injection H as _ ->. now exists pre, post.
Qed.

(** X15.  The test for a rejected sync token.  The [catch] block of the
    incremental fetch takes an error for a rejected token exactly when its
    [code] is the number 410 or its [message] is a string that contains
    "Sync token is no longer valid". *)
Theorem sync_token_rejection_test (e : Js.error) :
  WebhookHandler.sync_token_rejected e = true <->
  Js.err_code e = Js.NumCode 410 \/
  exists m pre post,
    Js.err_message e = Js.Val m /\ m = pre +:+ rejection_notice +:+ post.
Proof.
  unfold WebhookHandler.sync_token_rejected.
  rewrite orb_true_iff, bool_decide_eq_true. apply or_iff_compat_l.
  destruct (Js.err_message e) as [| |m].
  - split; [discriminate | now intros (m & pre & post & H & _)].
  - split; [discriminate | now intros (m & pre & post & H & _)].
  - rewrite andb_true_iff, includes_spec. split.
    + intros [_ (pre & post & H)]. now exists m, pre, post.
    + intros (m' & pre & post & [= <-] & H). split; [| now exists pre, post].
      rewrite H. now destruct pre.
Qed.

Lemma sync_token_rejection_test_witness :
  WebhookHandler.sync_token_rejected
    {| Js.err_code := Js.StrCode "410";
       Js.err_message :=
         Js.Val "Sync token is no longer valid, a full sync is required." |}
    = true.
Proof.
  apply sync_token_rejection_test. right.
  exists "Sync token is no longer valid, a full sync is required.",
    EmptyString, ", a full sync is required.".
  split; reflexivity.
Defined.

Lemma fetch_effect_prelude (l : list Effect) :
  forallb prelude_effect l = true -> forallb fetch_effect l = true.
Proof.
  induction l as [|e l IH]; simpl; [easy |].
  intros H. apply andb_prop in H as [He Hl]. rewrite (IH Hl), andb_true_r.
  destruct e as [q b| | |p| | | |]; try discriminate; reflexivity.
Qed.

Lemma fetch_effect_attempt_params env u h w p :
  attempt_params env u h w p -> fetch_effect (EEventsList p) = true.
Proof.
  intros (calId & _ & [(tok & _ & ->) | (now & ->)]); simpl;
    now rewrite bool_decide_eq_true_2.
Qed.

Lemma appends_fetch_attempt u h :
  respects (appends fetch_effect) (WebhookHandler.fetch_attempt u h).
Proof.
  intros env w.
  destruct (fetch_attempt_outcome u h env w)
    as [e w1 b pre Htr Hpre _
       | e w1 b pre p Htr Hpre _ Hp _
       | data w1 b pre p Htr Hpre _ Hp _ _
       | data tok stored w1 b pre p Htr Hpre _ Hp _ _];
    eexists; (split; [exact Htr |]); cbn [forallb];
    rewrite ?forallb_app, (fetch_effect_prelude pre Hpre); cbn [forallb];
    rewrite ?(fetch_effect_attempt_params env u h w p Hp); reflexivity.
Qed.

Lemma appends_fetch_loop u h : forall fuel attempt,
  respects (appends fetch_effect) (WebhookHandler.fetch_loop fuel u h attempt).
Proof.
  induction fuel as [|fuel IH]; intros attempt; simpl;
    destruct (attempt <? WebhookHandler.maxRetries)%nat;
    try (unfold WebhookHandler.extractCalendarIdFromResourceUri,
           Db.updateSyncToken);
    solve_appends; try apply appends_fetch_attempt; apply IH.
Qed.

Lemma fetch_effect_incremental p :
  fetch_effect (EEventsList p) = true -> incremental_request p.
Proof.
  simpl. intros H. apply andb_prop in H as [Hp Hk].
  apply bool_decide_eq_true in Hp. unfold incremental_request.
  rewrite Hp in *. simpl in *.
  destruct (syncToken p), (timeMin p); try discriminate;
    repeat split; congruence.
Qed.

Lemma in_list_requests p (tr : list Effect) :
  In p (list_requests tr) -> In (EEventsList p) tr.
Proof.
  unfold list_requests. rewrite in_flat_map. intros (e & He & Hp).
  destruct e; simpl in Hp; try contradiction.
  destruct Hp as [<- | []]. exact He.
Qed.

(** X16.  The incremental fetch reads one page per attempt.  Every list
    request it sends asks for at most 250 events with deleted events
    included, carries either a sync token or a lower time bound, and never
    a page token: the [nextPageToken] of an answer is not followed.  The
    fetch does not contact the vault. *)
Theorem incremental_fetch_reads_one_page
    (u : string) (h : GoogleWebhookHeaders) (env : Env) (w : World) :
  exists sfx,
    trace (snd (WebhookHandler.fetchIncrementalChanges u h env w))
      = trace w ++ sfx /\
    (forall p, In (EEventsList p) sfx -> incremental_request p) /\
    (forall req, ~ In (EFetch req) sfx).
Proof.
  destruct (appends_fetch_loop u h WebhookHandler.maxRetries 0 env w)
    as (sfx & Htr & Hall).
  exists sfx. split; [exact Htr |]. rewrite forallb_forall in Hall. split.
  - intros p Hin. now apply fetch_effect_incremental, Hall.
  - intros req Hin. apply Hall in Hin. discriminate.
Qed.

Lemma incremental_fetch_reads_one_page_witness :
  Forall incremental_request
    (list_requests
       (trace (snd (WebhookHandler.fetchIncrementalChanges "alice"
                      Scenario.primary_headers Scenario.flaky
                      Scenario.alice_world)))) /\
  length
    (list_requests
       (trace (snd (WebhookHandler.fetchIncrementalChanges "alice"
                      Scenario.primary_headers Scenario.flaky
                      Scenario.alice_world)))) = 3.
Proof.
  destruct (incremental_fetch_reads_one_page "alice" Scenario.primary_headers
              Scenario.flaky Scenario.alice_world) as (sfx & Htr & Hp & _).
  split; [| reflexivity].
  rewrite Htr. apply List.Forall_forall. intros p Hin. apply Hp.
  now apply in_list_requests.
Defined.

(** ** Outcomes of the orchestrator and of the full sync *)

Lemma doProcessWebhook_catch_outcome u env w :
  fst (WebhookHandler.doProcessWebhook_catch u env w) <> Diverges /\
  forall e,
    fst (WebhookHandler.doProcessWebhook_catch u env w) = Throw e ->
    snd (WebhookHandler.doProcessWebhook_catch u env w)
      = unwritten env u "error" w /\
    write_rejected env u "error" w e.
Proof.
  rewrite doProcessWebhook_catch_run. unfold write_rejected.
  destruct (query_error env _ (UpdateConnection u (status_update "error" _)))
    as [e0|] eqn:Hq.
  - simpl. split; [discriminate |]. intros e He. injection He as <-.
    split; reflexivity.
  - clear Hq. rewrite scheduleFullSync_run.
    destruct (query_error env _ _); simpl; split; intros; discriminate.
Qed.

Lemma doProcessWebhook_outcome u h env w :
  fst (WebhookHandler.doProcessWebhook u h env w) <> Diverges /\
  forall e,
    fst (WebhookHandler.doProcessWebhook u h env w) = Throw e ->
    exists wf,
      snd (WebhookHandler.doProcessWebhook u h env w)
        = unwritten env u "error" wf /\
      write_rejected env u "error" wf e.
Proof.
  destruct (WebhookHandler.fetchIncrementalChanges u h env w)
    as [[changes|e0|] w1] eqn:Hf.
  - destruct changes as [|change rest].
    + rewrite (doProcessWebhook_no_change u h env w w1 Hf). simpl.
      split; intros; discriminate.
    + destruct (apply_changes_run u (change :: rest) 0 env w1)
        as (results & w2 & Happly & _).
      rewrite (doProcessWebhook_applied u h env w (change :: rest) w1 _ w2 Hf
                 ltac:(discriminate) Happly).
      cbv zeta. destruct (query_error env _ _) as [e1|].
      * destruct (doProcessWebhook_catch_outcome u env
                    (unwritten env u
                       (outcome_status (0 + count_true results)
                          (length (change :: rest))) w2)) as [Hd Ht].
        split; [exact Hd |]. intros e He. eexists. now apply Ht.
      * simpl. split; intros; discriminate.
  - rewrite (doProcessWebhook_failed u h env w e0 w1 Hf).
    destruct (doProcessWebhook_catch_outcome u env w1) as [Hd Ht].
    split; [exact Hd |]. intros e He. eexists. now apply Ht.
  - exfalso.
    apply (fetch_loop_terminates WebhookHandler.maxRetries u h 0 env w);
      [lia |].
    unfold WebhookHandler.fetchIncrementalChanges in Hf. now rewrite Hf.
Qed.

(** X17.  [doProcessWebhook] contains its errors.  A run always comes to an
    end, and whatever the provider, the vault and the database answer to
    the fetch, to the changes and to the first status update, it throws
    only in one situation: the database rejects the update that would
    record status [error]; the error thrown is the one of that update,
    which is then the last thing the run did. *)
Theorem doProcessWebhook_contains_errors
    (u : string) (h : GoogleWebhookHeaders) (env : Env) (w : World) :
  fst (WebhookHandler.doProcessWebhook u h env w) <> Diverges /\
  forall e,
    fst (WebhookHandler.doProcessWebhook u h env w) = Throw e ->
    exists wf,
      snd (WebhookHandler.doProcessWebhook u h env w)
        = unwritten env u "error" wf /\
      write_rejected env u "error" wf e.
Proof. apply doProcessWebhook_outcome. Qed.

Lemma doProcessWebhook_contains_errors_witness :
  exists wf,
    snd (WebhookHandler.doProcessWebhook "alice" Scenario.primary_headers
           Scenario.status_unwritable Scenario.alice_world)
      = unwritten Scenario.status_unwritable "alice" "error" wf /\
    write_rejected Scenario.status_unwritable "alice" "error" wf
      Scenario.connection_terminated.
Proof.
  destruct (doProcessWebhook_contains_errors "alice" Scenario.primary_headers
              Scenario.status_unwritable Scenario.alice_world) as [_ Hthrow].
  apply Hthrow. vm_compute. reflexivity.
Defined.

Lemma full_sync_catch_run u env w :
  (now ← new_Date;
   Db.updateCalendarConnection u
     {| upd_sync_status := Some "error"; upd_last_sync_at := Some now |};;
   mret false) env w = full_sync_failed env u w.
Proof.
  unfold full_sync_failed, written, unwritten, status_update,
    after_new_Date, clock.
  rewrite run_bind. unfold new_Date. cbv beta zeta.
  rewrite run_bind, updateCalendarConnection_run.
  now destruct (query_error _ _ _).
Qed.

Lemma performFullSync_unfold fuel u env w :
  WebhookHandler.performFullSync fuel u env w =
    match Auth.getAuthenticatedClient u env w with
    | (Ok None, wa) | (Throw _, wa) => full_sync_failed env u wa
    | (Diverges, wa) => (Diverges, wa)
    | (Ok (Some _), wa) =>
        match calendarList_list env (count is_calendar_list (trace wa)) with
        | Rejects _ => full_sync_failed env u (log ECalendarList wa)
        | Resolves calendarList =>
            match calendar_items calendarList with
            | None => (Ok true, log ECalendarList wa)
            | Some calendarIds =>
                match WebhookHandler.sync_calendars fuel u calendarIds env
                        (log ECalendarList wa) with
                | (Ok _, wc) =>
                    match query_error env
                            (count is_query (trace (after_new_Date env wc)))
                            (UpdateConnection u
                               (status_update "synced" (clock env wc))) with
                    | None => (Ok true, written env u "synced" wc)
                    | Some _ =>
                        full_sync_failed env u (unwritten env u "synced" wc)
                    end
                | (Throw _, wc) => full_sync_failed env u wc
                | (Diverges, wc) => (Diverges, wc)
                end
            end
        end
    end.
Proof.
  unfold WebhookHandler.performFullSync. rewrite run_try_catch, run_bind.
  destruct (Auth.getAuthenticatedClient u env w) as [[[client|]|e|] wa];
    try reflexivity; try apply full_sync_catch_run.
  rewrite run_bind. unfold calendar_calendarList_list at 1.
  destruct (calendarList_list env _) as [calendarList|e];
    cbn [settle_result]; [| apply full_sync_catch_run].
  destruct (calendar_items calendarList) as [calendarIds|]; [| reflexivity].
  rewrite run_bind.
  destruct (WebhookHandler.sync_calendars fuel u calendarIds env _)
    as [[[]|e|] wc]; try reflexivity; [| apply full_sync_catch_run].
  pose proof (write_status_run u "synced" env wc) as Hw.
  rewrite run_bind.
  rewrite run_bind in Hw. unfold new_Date at 1. unfold new_Date at 1 in Hw.
  cbv beta zeta in Hw |- *. rewrite run_bind, Hw.
  destruct (query_error env _ _); [apply full_sync_catch_run | reflexivity].
Qed.

Lemma performFullSync_cases u env w bound fuel :
  paging_ends env bound -> bound <= fuel ->
  let r := WebhookHandler.performFullSync (S fuel) u env w in
  match fst r with
  | Ok true =>
      (exists wc, snd r = written env u "synced" wc) \/
      (exists wa calendarList,
         snd r = log ECalendarList wa /\
         calendarList_list env (count is_calendar_list (trace wa))
           = Resolves calendarList /\
         calendar_items calendarList = None)
  | Ok false => exists wf, snd r = written env u "error" wf
  | Throw e =>
      exists wf, snd r = unwritten env u "error" wf /\
                 write_rejected env u "error" wf e
  | Diverges => False
  end.
Proof.
  intros Hends Hfuel r. subst r. rewrite performFullSync_unfold.
  assert (Hfailed : forall wf,
    match fst (full_sync_failed env u wf) with
    | Ok true =>
        (exists wc, snd (full_sync_failed env u wf) = written env u "synced" wc) \/
        (exists wa calendarList,
           snd (full_sync_failed env u wf) = log ECalendarList wa /\
           calendarList_list env (count is_calendar_list (trace wa))
             = Resolves calendarList /\
           calendar_items calendarList = None)
    | Ok false => exists wf', snd (full_sync_failed env u wf) = written env u "error" wf'
    | Throw e =>
        exists wf', snd (full_sync_failed env u wf) = unwritten env u "error" wf' /\
                    write_rejected env u "error" wf' e
    | Diverges => False
    end).
  { intros wf. unfold full_sync_failed, write_rejected.
    destruct (query_error env _ _) as [e|] eqn:Hq; simpl; eauto. }
  destruct (getAuthenticatedClient_run u env w) as (client & wa & Hauth & _).
  rewrite Hauth. destruct client as [client|]; [| apply Hfailed].
  destruct (calendarList_list env _) as [calendarList|e] eqn:Hlist;
    [| apply Hfailed].
  destruct (calendar_items calendarList) as [calendarIds|] eqn:Hitems.
  - destruct (sync_calendars_run env bound fuel u Hends Hfuel calendarIds
                (log ECalendarList wa)) as (wc & requests & Hsync & _).
    rewrite Hsync. destruct (query_error env _ _); [apply Hfailed |].
    simpl. left. now exists wc.
  - simpl. right. now exists wa, calendarList.
Qed.

(** X18.  What [performFullSync] reports agrees with the status it leaves.
    When the provider stops handing out page tokens and the model has fuel
    for the pages before that, a full sync comes to an end and
    - returns [true] after the executed update to status [synced], or
      without any status update when the calendar list has no [items];
    - returns [false] after the executed update to status [error];
    - throws when the database rejects the update to status [error]. *)
Theorem performFullSync_outcome
    (u : string) (env : Env) (w : World) (bound fuel : nat) :
  paging_ends env bound -> bound <= fuel ->
  let r := WebhookHandler.performFullSync (S fuel) u env w in
  match fst r with
  | Ok true =>
      (exists wc, snd r = written env u "synced" wc) \/
      (exists wa calendarList,
         snd r = log ECalendarList wa /\
         calendarList_list env (count is_calendar_list (trace wa))
           = Resolves calendarList /\
         calendar_items calendarList = None)
  | Ok false => exists wf, snd r = written env u "error" wf
  | Throw e =>
      exists wf, snd r = unwritten env u "error" wf /\
                 write_rejected env u "error" wf e
  | Diverges => False
  end.
Proof. apply performFullSync_cases. Qed.

Lemma paging_ends_quiet : paging_ends Scenario.quiet 0.
Proof. intros n p data _ [= <-]. reflexivity. Qed.

Lemma performFullSync_outcome_witness :
  exists wc,
    snd (WebhookHandler.performFullSync 1 "alice" Scenario.quiet
           Scenario.alice_world)
      = written Scenario.quiet "alice" "synced" wc.
Proof.
  pose proof (performFullSync_outcome "alice" Scenario.quiet Scenario.alice_world
                0 0 paging_ends_quiet (le_n 0)) as H.
  cbv zeta in H.
  assert (Hres : fst (WebhookHandler.performFullSync 1 "alice" Scenario.quiet
                        Scenario.alice_world) = Ok true)
    by (vm_compute; reflexivity).
  rewrite Hres in H.
  destruct H as [H | (wa & calendarList & _ & Hlist & Hnone)]; [exact H |].
  exfalso. injection Hlist as <-. discriminate.
Defined.

Lemma never_expires_valid env t w :
  never_expires env t -> token_valid t (clock env w).
Proof.
  intros [Ha Hv]. split; [exact Ha |].
  destruct (tok_token_expires_at t); [apply Hv | exact I].
Qed.

Lemma count_events_list_token_check env u t w :
  count is_events_list (trace (after_token_check env u t w))
    = count is_events_list (trace w).
Proof.
  unfold after_token_check, tokens_read, after_new_Date.
  destruct (tok_token_expires_at t); rewrite !count_log; simpl; lia.
Qed.

Lemma healthy_attempt u h env w t calId data tok :
  database_healthy env ->
  stored_tokens w u = Some t -> never_expires env t ->
  calendar_id_of env (resourceUri h) = Resolves calId ->
  (forall p, events_list env (count is_events_list (trace w)) p = Resolves data) ->
  Js.or_undefined (nextSyncToken data) = Some tok ->
  exists w1,
    WebhookHandler.fetch_attempt u h env w
      = (Ok (map WebhookHandler.to_change (default [] (items data))), w1) /\
    users w1 = users w /\
    sync_tokens w1 = <[(u, calId) := Some tok]> (sync_tokens w).
Proof.
  intros Hdb Ht Hvalid Hcal Hlist Hnext.
  pose proof (getAuthenticatedClient_valid u env w t (Hdb _ _) Ht
                (never_expires_valid env t _ Hvalid)) as Hauth.
  rewrite (fetch_attempt_with_client u h env w _ _ calId Hauth Hcal).
  rewrite run_bind, getSyncToken_run, Hdb.
  rewrite run_bind, choose_params_run.
  set (wa := after_token_check env u t w).
  assert (Hwa : count is_events_list (trace wa) = count is_events_list (trace w))
    by apply count_events_list_token_check.
  assert (Hrun : forall p wc,
    count is_events_list (trace wc) = count is_events_list (trace w) ->
    users wc = users w -> sync_tokens wc = sync_tokens w ->
    exists w1,
      request_changes u calId p env wc
        = (Ok (map WebhookHandler.to_change (default [] (items data))), w1) /\
      users w1 = users w /\
      sync_tokens w1 = <[(u, calId) := Some tok]> (sync_tokens w)).
  { intros p wc Hc Hu Hs. rewrite request_changes_run, Hc, Hlist, Hnext.
    rewrite updateSyncToken_run, Hdb. eexists. split; [reflexivity |].
    simpl. now rewrite Hu, Hs. }
  assert (Hsame : same_tables w wa) by apply same_tables_token_check.
  destruct Hsame as (Hu & _ & Hs).
  destruct (usable_token _); cbv zeta; apply Hrun;
    try (rewrite !count_log; simpl; lia); simpl; assumption.
Qed.

Lemma usable_token_or_undefined (a : Js.opt string) tok :
  Js.or_undefined a = Some tok -> usable_token (Some tok) = Some tok.
Proof.
  destruct a as [| |s]; simpl; try discriminate.
  destruct (Js.truthy_string s) eqn:Hs; [| discriminate].
  intros [= <-]. now rewrite Hs.
Qed.

(** X19.  The cursor handed out to one run is the cursor of the next.  With
    a database that executes every statement and a stored access token
    that does not expire, a webhook run whose list request is answered
    with a [nextSyncToken] ends without an error and leaves that token in
    the store for the calendar of the notification, whatever the sink did
    with the changes; the next attempt for the same notification channel
    then sends exactly that token and no time window. *)
Theorem cursor_carried_to_next_run
    (u : string) (h : GoogleWebhookHeaders) (env : Env) (w : World)
    (t : UserTokens) (calId : string) (data : EventsData) (tok : string) :
  database_healthy env ->
  stored_tokens w u = Some t -> never_expires env t ->
  calendar_id_of env (resourceUri h) = Resolves calId ->
  (forall p, events_list env (count is_events_list (trace w)) p = Resolves data) ->
  Js.or_undefined (nextSyncToken data) = Some tok ->
  let w1 := snd (WebhookHandler.doProcessWebhook u h env w) in
  fst (WebhookHandler.doProcessWebhook u h env w) = Ok tt /\
  sync_tokens w1 !! (u, calId) = Some (Some tok) /\
  list_requests (trace (snd (WebhookHandler.fetch_attempt u h env w1)))
    = list_requests (trace w1)
      ++ [{| calendarId := calId;
             showDeleted := Some true;
             singleEvents := Some true;
             maxResults := 250;
             syncToken := Some tok;
             timeMin := None;
             timeMax := None;
             orderBy := None;
             pageToken := None |}].
Proof.
  intros Hdb Ht Hvalid Hcal Hlist Hnext.
  destruct (healthy_attempt u h env w t calId data tok Hdb Ht Hvalid Hcal
              Hlist Hnext) as (wf & Hattempt & Hu & Hs).
  assert (Hfetch : WebhookHandler.fetchIncrementalChanges u h env w
            = (Ok (map WebhookHandler.to_change (default [] (items data))), wf)).
  { unfold WebhookHandler.fetchIncrementalChanges.
    change WebhookHandler.maxRetries with 3.
    rewrite fetch_loop_step by (unfold WebhookHandler.maxRetries; lia).
    now rewrite Hattempt. }
  assert (Hrun : exists w1,
    WebhookHandler.doProcessWebhook u h env w = (Ok tt, w1) /\
    users w1 = users w /\
    sync_tokens w1 = <[(u, calId) := Some tok]> (sync_tokens w)).
  { destruct (map WebhookHandler.to_change (default [] (items data)))
      as [|change rest] eqn:Hchanges.
    - exists wf. split; [| now split].
      now apply doProcessWebhook_no_change.
    - destruct (apply_changes_run u (change :: rest) 0 env wf)
        as (results & w2 & Happly & _ & _ & _ & Hu2 & _ & Hs2).
      eexists. split.
      + rewrite (doProcessWebhook_applied u h env w (change :: rest) wf _ w2
                   Hfetch ltac:(discriminate) Happly).
        cbv zeta. rewrite Hdb. reflexivity.
      + simpl. now rewrite Hu2, Hs2. }
  destruct Hrun as (w1 & Hrun & Hu1 & Hs1). rewrite Hrun. cbn [fst snd].
  split; [reflexivity |]. split; [rewrite Hs1; apply lookup_insert_eq |].
  assert (Ht1 : stored_tokens w1 u = Some t).
  { unfold stored_tokens in *. now rewrite Hu1. }
  pose proof (getAuthenticatedClient_valid u env w1 t (Hdb _ _) Ht1
                (never_expires_valid env t _ Hvalid)) as Hauth.
  pose proof (attempt_request_cases u h env w1 _ _ calId Hauth Hcal) as Hcases.
  cbv zeta in Hcases. destruct Hcases as [Hstored _].
  apply Hstored; [apply Hdb |].
  rewrite Hs1, lookup_insert_eq. simpl.
  now apply (usable_token_or_undefined (nextSyncToken data)).
Qed.

Lemma database_healthy_steady : database_healthy Scenario.steady.
Proof. intros n q. reflexivity. Qed.

Lemma cursor_carried_to_next_run_witness :
  sync_tokens (snd Scenario.steady_run) !! ("alice", "primary")
    = Some (Some "CJjA7vWDx70CEJjA7vWDx70CGAU=") /\
  list_requests
    (trace (snd (WebhookHandler.fetch_attempt "alice" Scenario.primary_headers
                   Scenario.steady (snd Scenario.steady_run))))
    = list_requests (trace (snd Scenario.steady_run))
      ++ [{| calendarId := "primary";
             showDeleted := Some true;
             singleEvents := Some true;
             maxResults := 250;
             syncToken := Some "CJjA7vWDx70CEJjA7vWDx70CGAU=";
             timeMin := None;
             timeMax := None;
             orderBy := None;
             pageToken := None |}].
Proof.
  pose proof (cursor_carried_to_next_run "alice" Scenario.primary_headers
                Scenario.steady Scenario.alice_world
                {| tok_access_token := "ya29.a0";
                   tok_refresh_token := Some "1//0g";
                   tok_token_expires_at := None;
                   tok_email := "alice@example.org" |}
                "primary" Scenario.one_change "CJjA7vWDx70CEJjA7vWDx70CGAU="
                database_healthy_steady eq_refl (conj eq_refl I) eq_refl
                (fun p => eq_refl) eq_refl) as H.
  cbv zeta in H. destruct H as (_ & Hstore & Hnext).
  split; [exact Hstore | exact Hnext].
Defined.

(** ** The rows a run touches *)

#[global] Instance footprint_preorder u : PreOrder (footprint u).
Proof.
  split.
  - intros w. split; try reflexivity; auto.
  - intros w1 w2 w3 H12 H23. destruct H12, H23. split.
    + intros u' Hne. now rewrite other_users1, other_users0.
    + intros u' Hne. now rewrite other_connections1, other_connections0.
    + intros u' c Hne. now rewrite other_sync_tokens1, other_sync_tokens0.
    + intros u'. now rewrite same_user_rows1, same_user_rows0.
    + intros u'. now rewrite same_connection_rows1, same_connection_rows0.
    + now rewrite own_email1, own_email0.
    + destruct own_status1 as [Heq | Hrow]; [| now right].
      rewrite Heq. exact own_status0.
Qed.

Lemma footprint_same_tables u w w' : same_tables w w' -> footprint u w w'.
Proof.
  intros (Hu & Hc & Hs). split; rewrite ?Hu, ?Hc, ?Hs; try reflexivity; auto.
Qed.

Lemma footprint_log u e w : footprint u w (log e w).
Proof. apply footprint_same_tables, same_tables_log. Qed.

Lemma footprint_updateUserTokens u a r e :
  respects (footprint u) (Db.updateUserTokens u a r e).
Proof.
  unfold Db.updateUserTokens. apply respects_try_catch; [typeclasses eauto | |].
  - apply tables_pool_query; [typeclasses eauto | apply footprint_log |].
    intros w. split; simpl; try reflexivity; auto.
    + intros u' Hne. now apply lookup_alter_ne.
    + intros u'. destruct (decide (u' = u)) as [->|Hne].
      * rewrite lookup_alter_eq. now rewrite fmap_is_Some.
      * now rewrite lookup_alter_ne.
    + rewrite lookup_alter_eq. now destruct (users w !! u).
  - intros err. apply respects_throw. typeclasses eauto.
Qed.

Lemma footprint_updateCalendarConnection u s d :
  In s engine_statuses ->
  respects (footprint u)
    (Db.updateCalendarConnection u
       {| upd_sync_status := Some s; upd_last_sync_at := d |}).
Proof.
  intros Hs. unfold Db.updateCalendarConnection.
  apply respects_try_catch; [typeclasses eauto | |].
  - apply tables_pool_query; [typeclasses eauto | apply footprint_log |].
    intros w. split; simpl; try reflexivity; auto.
    + intros u' Hne. now apply lookup_alter_ne.
    + intros u'. destruct (decide (u' = u)) as [->|Hne].
      * rewrite lookup_alter_eq. now rewrite fmap_is_Some.
      * now rewrite lookup_alter_ne.
    + rewrite lookup_alter_eq. destruct (connections w !! u) as [row|].
      * right. eexists. split; [reflexivity |]. exact Hs.
      * now left.
  - intros err. apply respects_throw. typeclasses eauto.
Qed.

Lemma footprint_updateSyncToken u c t :
  respects (footprint u) (Db.updateSyncToken u c t).
Proof.
  unfold Db.updateSyncToken. apply respects_try_catch; [typeclasses eauto | |].
  - apply tables_pool_query; [typeclasses eauto | apply footprint_log |].
    intros w. split; simpl; try reflexivity; auto.
    intros u' c' Hne. apply lookup_insert_ne. congruence.
  - intros err. apply respects_ret. typeclasses eauto.
Qed.

Lemma footprint_getUserTokens u :
  respects (footprint u) (Db.getUserTokens u).
Proof.
  intros env w. rewrite getUserTokens_run.
  destruct (query_error _ _ _); apply footprint_log.
Qed.

Lemma footprint_getSyncToken u c :
  respects (footprint u) (Db.getSyncToken u c).
Proof.
  intros env w. rewrite getSyncToken_run.
  destruct (query_error _ _ _); apply footprint_log.
Qed.

Create HintDb footprint.

#[export] Hint Resolve footprint_updateUserTokens footprint_updateSyncToken
  footprint_getUserTokens footprint_getSyncToken : footprint.

#[export] Hint Extern 1 (respects (footprint _)
                           (Db.updateCalendarConnection _ _)) =>
  apply footprint_updateCalendarConnection; unfold engine_statuses; simpl; tauto
  : footprint.

Ltac solve_footprint :=
  repeat (step_tables footprint_log); auto with footprint.

Lemma footprint_refreshUserToken u r :
  respects (footprint u) (Auth.refreshUserToken u r).
Proof. unfold Auth.refreshUserToken. solve_footprint. Qed.

#[export] Hint Resolve footprint_refreshUserToken : footprint.

Lemma footprint_getAuthenticatedClient u :
  respects (footprint u) (Auth.getAuthenticatedClient u).
Proof. unfold Auth.getAuthenticatedClient. solve_footprint. Qed.

#[export] Hint Resolve footprint_getAuthenticatedClient : footprint.

Lemma footprint_extractCalendarId u uri :
  respects (footprint u) (WebhookHandler.extractCalendarIdFromResourceUri uri).
Proof.
  intros env w. rewrite extractCalendarId_run. reflexivity.
Qed.

#[export] Hint Resolve footprint_extractCalendarId : footprint.

Lemma footprint_fetch_attempt u h :
  respects (footprint u) (WebhookHandler.fetch_attempt u h).
Proof. unfold WebhookHandler.fetch_attempt. solve_footprint. Qed.

#[export] Hint Resolve footprint_fetch_attempt : footprint.

Lemma footprint_fetch_loop u h : forall fuel attempt,
  respects (footprint u) (WebhookHandler.fetch_loop fuel u h attempt).
Proof.
  induction fuel as [|fuel IH]; intros attempt; simpl;
    destruct (attempt <? WebhookHandler.maxRetries)%nat;
    solve_footprint; apply IH.
Qed.

Lemma footprint_processCalendarChange u ev c :
  respects (footprint u) (MemoryCalendarSync.processCalendarChange u ev c).
Proof.
  intros env w.
  destruct (processCalendarChange_run u ev c env w) as (b & w1 & -> & _ & Ht).
  simpl. etransitivity; [apply footprint_same_tables, Ht | apply footprint_log].
Qed.

#[export] Hint Resolve footprint_processCalendarChange : footprint.

Lemma footprint_apply_changes u : forall changes n,
  respects (footprint u) (WebhookHandler.apply_changes u changes n).
Proof.
  induction changes as [|change rest IH]; intros n; simpl;
    solve_footprint; apply IH.
Qed.

Lemma footprint_apply_created u : forall events,
  respects (footprint u) (WebhookHandler.apply_created u events).
Proof.
  induction events as [|ev rest IH]; simpl; solve_footprint.
Qed.

#[export] Hint Resolve footprint_apply_changes footprint_apply_created
  footprint_fetch_loop : footprint.

Lemma footprint_scheduleFullSync u :
  respects (footprint u) (WebhookHandler.scheduleFullSync u).
Proof. unfold WebhookHandler.scheduleFullSync. solve_footprint. Qed.

#[export] Hint Resolve footprint_scheduleFullSync : footprint.

Lemma footprint_doProcessWebhook u h :
  respects (footprint u) (WebhookHandler.doProcessWebhook u h).
Proof.
  unfold WebhookHandler.doProcessWebhook, WebhookHandler.doProcessWebhook_try,
    WebhookHandler.doProcessWebhook_catch,
    WebhookHandler.fetchIncrementalChanges.
  solve_footprint.
  match goal with |- context [ (?n =? ?m)%nat ] => destruct (n =? m)%nat end;
    auto with footprint.
Qed.

Lemma footprint_page_loop u calId past future : forall fuel tok,
  respects (footprint u) (WebhookHandler.page_loop fuel u calId past future tok).
Proof.
  induction fuel as [|fuel IH]; intros tok; simpl; solve_footprint; apply IH.
Qed.

#[export] Hint Resolve footprint_page_loop : footprint.

Lemma footprint_sync_calendars fuel u : forall calendarIds,
  respects (footprint u) (WebhookHandler.sync_calendars fuel u calendarIds).
Proof.
  induction calendarIds as [|calId rest IH]; simpl;
    unfold WebhookHandler.sync_calendar, WebhookHandler.sync_calendar_try;
    solve_footprint.
Qed.

#[export] Hint Resolve footprint_sync_calendars : footprint.

Lemma footprint_performFullSync fuel u :
  respects (footprint u) (WebhookHandler.performFullSync fuel u).
Proof. unfold WebhookHandler.performFullSync. solve_footprint. Qed.


(** X20.  A run for one user leaves the others alone.  Whatever the
    collaborators answer, processing a webhook for [u] and a full sync of
    [u] change no row of another user in [users],
    [user_calendar_connections] and the sync-token store, create and
    delete no row of the first two tables, and keep the e-mail address of
    [u]. *)
Theorem run_touches_only_own_rows
    (u : string) (h : GoogleWebhookHeaders) (fuel : nat) (env : Env)
    (w w' : World) :
  w' = snd (WebhookHandler.doProcessWebhook u h env w) \/
  w' = snd (WebhookHandler.performFullSync fuel u env w) ->
  (forall u', u' <> u ->
     users w' !! u' = users w !! u' /\
     connections w' !! u' = connections w !! u' /\
     forall c, sync_tokens w' !! (u', c) = sync_tokens w !! (u', c)) /\
  (forall u', is_Some (users w' !! u') <-> is_Some (users w !! u')) /\
  (forall u', is_Some (connections w' !! u') <-> is_Some (connections w !! u')) /\
  email <$> users w' !! u = email <$> users w !! u.
Proof.
  intros Hw'.
  assert (Hfp : footprint u w w').
  { destruct Hw' as [-> | ->];
      [apply footprint_doProcessWebhook | apply footprint_performFullSync]. }
  destruct Hfp. repeat split; auto; apply same_user_rows0 || apply same_connection_rows0.
Qed.

Lemma run_touches_only_own_rows_witness :
  users (snd (WebhookHandler.doProcessWebhook "alice" Scenario.primary_headers
                Scenario.steady Cases.shared_world)) !! "carol"
    = Some Cases.carol_row /\
  sync_status <$>
    connections (snd (WebhookHandler.performFullSync 1 "alice" Scenario.steady
                        Cases.shared_world)) !! "carol"
    = Some "active".
Proof.
  split.
  - destruct (run_touches_only_own_rows "alice" Scenario.primary_headers 1
                Scenario.steady Cases.shared_world _ (or_introl eq_refl))
      as (Hothers & _).
    destruct (Hothers "carol" ltac:(discriminate)) as (Hu & _).
    rewrite Hu. reflexivity.
  - destruct (run_touches_only_own_rows "alice" Scenario.primary_headers 1
                Scenario.steady Cases.shared_world _ (or_intror eq_refl))
      as (Hothers & _).
    destruct (Hothers "carol" ltac:(discriminate)) as (_ & Hc & _).
    rewrite Hc. reflexivity.
Defined.

(** X21.  The engine never sets status [active].  After a webhook run or a
    full sync for [u], the connection row of [u] is the one from before
    the run or carries one of the statuses [synced], [partial_sync],
    [error] and [scheduled_full_sync]; a row that reads [active]
    afterwards was not written by the run. *)
Theorem engine_never_sets_active
    (u : string) (h : GoogleWebhookHeaders) (fuel : nat) (env : Env)
    (w w' : World) :
  w' = snd (WebhookHandler.doProcessWebhook u h env w) \/
  w' = snd (WebhookHandler.performFullSync fuel u env w) ->
  (connections w' !! u = connections w !! u \/
   exists row, connections w' !! u = Some row /\
               In (sync_status row) engine_statuses) /\
  (sync_status <$> connections w' !! u = Some "active" ->
   connections w' !! u = connections w !! u).
Proof.
  intros Hw'.
  assert (Hfp : footprint u w w').
  { destruct Hw' as [-> | ->];
      [apply footprint_doProcessWebhook | apply footprint_performFullSync]. }
  destruct Hfp as [_ _ _ _ _ _ Hstatus]. split; [exact Hstatus |].
  intros Hactive. destruct Hstatus as [Heq | (row & Hrow & Hin)]; [exact Heq |].
  rewrite Hrow in Hactive. simpl in Hactive. injection Hactive as Hactive.
  rewrite Hactive in Hin. simpl in Hin.
  destruct Hin as [H | [H | [H | [H | []]]]]; discriminate.
Qed.

Lemma engine_never_sets_active_witness :
  exists row,
    connections (snd Scenario.steady_run) !! "alice" = Some row /\
    In (sync_status row) engine_statuses.
Proof.
  destruct (engine_never_sets_active "alice" Scenario.primary_headers 1
              Scenario.steady Scenario.alice_world _ (or_introl eq_refl))
    as [[Heq | Hrow] _]; [| exact Hrow].
  exfalso. revert Heq. vm_compute. discriminate.
Defined.

(** ** The endpoints *)

Lemma settle_settles env h p r :
  Dispatcher.promises h !! p = Some r ->
  Dispatcher.settled (Dispatcher.settle env h p) p = true.
Proof.
  intros Hr. unfold Dispatcher.settle. rewrite Hr.
  assert (Hlen : p < length (Dispatcher.promises h))
    by (eapply lookup_lt_Some; eauto).
  destruct r as [userId headers [| |e]].
  - destruct (doProcessWebhook_outcome userId headers env (Dispatcher.world h))
      as [Hd _].
    destruct (WebhookHandler.doProcessWebhook userId headers env
                (Dispatcher.world h))
      as [[[]|e|] w']; [| | now elim Hd];
      unfold Dispatcher.settled; simpl; now rewrite list_lookup_insert_eq.
  - unfold Dispatcher.settled. now rewrite Hr.
  - unfold Dispatcher.settled. now rewrite Hr.
Qed.

Lemma settle_suspended env h p :
  Dispatcher.suspended (Dispatcher.settle env h p) = Dispatcher.suspended h.
Proof.
  unfold Dispatcher.settle.
  destruct (Dispatcher.promises h !! p) as [[userId headers [| |e]]|];
    try reflexivity.
  now destruct (WebhookHandler.doProcessWebhook userId headers env
                  (Dispatcher.world h))
    as [[[]|e|] w'].
Qed.

(** X22.  No key stays in the registry.  In every state the handler can
    reach, a key of [processingQueue] belongs to a call that is suspended
    on a promise of [doProcessWebhook]; that run comes to an end, fulfilled
    or rejected, and once the call has resumed the key is gone, so the next
    notification for it is processed. *)
Theorem registered_key_is_released
    (env : Env) (w : World) (schedule : list Dispatcher.Action)
    (key : string) (p : nat) :
  let h := Dispatcher.run env (Dispatcher.init w) schedule in
  Dispatcher.processingQueue h !! key = Some p ->
  In (key, p) (Dispatcher.suspended h) /\
  Dispatcher.settled (Dispatcher.step env h (Dispatcher.Settle p)) p = true /\
  Dispatcher.processingQueue
    (Dispatcher.run env h [Dispatcher.Settle p; Dispatcher.Resume key p])
    !! key = None.
Proof.
  intros h Hkey.
  assert (HI : Dispatcher.Inv h)
    by apply DispatcherFacts.Inv_run, DispatcherFacts.Inv_init.
  destruct HI as [I1 I2 I3].
  assert (Hin : In (key, p) (Dispatcher.suspended h)) by now apply I1.
  destruct (I2 _ _ Hin) as (r & Hr & _).
  pose proof (settle_settles env h p r Hr) as Hs.
  split; [exact Hin |]. split; [exact Hs |].
  simpl. unfold Dispatcher.resume.
  rewrite settle_suspended, Hs.
  rewrite bool_decide_eq_true_2 by now apply list_elem_of_In.
  simpl. apply lookup_delete_eq.
Qed.

Lemma registered_key_is_released_witness :
  Dispatcher.processingQueue
    (Dispatcher.run Scenario.status_unwritable
       (Dispatcher.run Scenario.status_unwritable
          (Dispatcher.init Scenario.alice_world) Scenario.one_trigger)
       [Dispatcher.Settle 0; Dispatcher.Resume Scenario.alice_key 0])
    !! Scenario.alice_key = None.
Proof.
  pose proof (registered_key_is_released Scenario.status_unwritable
                Scenario.alice_world Scenario.one_trigger Scenario.alice_key 0)
    as H.
  cbv zeta in H. destruct (H eq_refl) as (_ & _ & Hgone). exact Hgone.
Defined.

(** X23.  A notification is acknowledged before it is processed.  The
    handler answers 400 exactly when the request has no user id, and then
    does nothing; every other notification is answered 200, whatever the
    state of the registry.  When the response is sent no run has touched
    the world yet, at most one run was started, and a notification for a
    pair (user, channel) with a run in flight starts none. *)
Theorem webhook_acknowledged_before_processing
    (env : Env) (w : World) (schedule : list Dispatcher.Action)
    (userId : option string) (headers : GoogleWebhookHeaders) :
  let h := Dispatcher.run env (Dispatcher.init w) schedule in
  let res := fst (Endpoint.handleCalendarWebhook h userId headers) in
  let h' := snd (Endpoint.handleCalendarWebhook h userId headers) in
  (Endpoint.status_code res = 400%Z <-> userId = None \/ userId = Some EmptyString) /\
  (Endpoint.status_code res = 400%Z -> h' = h) /\
  (Endpoint.status_code res <> 400%Z ->
   res = {| Endpoint.status_code := 200; Endpoint.sent := "OK" |}) /\
  Dispatcher.world h' = Dispatcher.world h /\
  length (Dispatcher.promises h') <= S (length (Dispatcher.promises h)) /\
  (forall u,
     userId = Some u ->
     Dispatcher.in_flight h u (channelId headers) <> [] -> h' = h).
Proof.
  intros h res h'. subst res h'. unfold Endpoint.handleCalendarWebhook.
  assert (HI : Dispatcher.Inv h)
    by apply DispatcherFacts.Inv_run, DispatcherFacts.Inv_init.
  assert (Hworld : forall u,
    Dispatcher.world (Dispatcher.processWebhookAsync h u headers)
      = Dispatcher.world h).
  { intros u. unfold Dispatcher.processWebhookAsync.
    now destruct (Dispatcher.processingQueue h !! _). }
  assert (Hlen : forall u,
    length (Dispatcher.promises (Dispatcher.processWebhookAsync h u headers))
      <= S (length (Dispatcher.promises h))).
  { intros u. unfold Dispatcher.processWebhookAsync.
    destruct (Dispatcher.processingQueue h !! _); simpl; [lia |].
    rewrite length_app. simpl. lia. }
  assert (Hdup : forall u,
    Dispatcher.in_flight h u (channelId headers) <> [] ->
    Dispatcher.processWebhookAsync h u headers = h).
  { intros u Hne.
    destruct (Dispatcher.in_flight h u (channelId headers)) as [|p l] eqn:Hfl;
      [now elim Hne |].
    assert (Hin : In p (Dispatcher.in_flight h u (channelId headers)))
      by (rewrite Hfl; now left).
    pose proof (DispatcherFacts.in_flight_registered h u (channelId headers) p
                  HI Hin) as Hreg.
    unfold Dispatcher.processWebhookAsync, Dispatcher.processingKey.
    now rewrite Hreg. }
  destruct userId as [[|c u]|]; simpl;
    (split; [| split; [| split; [| split; [| split]]]]).
  - split; [now right | reflexivity].
  - reflexivity.
  - intros Hne. now elim Hne.
  - reflexivity.
  - lia.
  - reflexivity.
  - split; [discriminate | intros [H | H]; discriminate].
  - discriminate.
  - reflexivity.
  - apply Hworld.
  - apply Hlen.
  - intros u0 [= <-]. apply Hdup.
  - split; [now left | reflexivity].
  - reflexivity.
  - intros Hne. now elim Hne.
  - reflexivity.
  - lia.
  - discriminate.
Qed.

Lemma webhook_acknowledged_before_processing_witness :
  Endpoint.handleCalendarWebhook
    (Dispatcher.run Scenario.quiet (Dispatcher.init Scenario.alice_world)
       Scenario.one_trigger)
    (Some "alice") Scenario.primary_headers
    = ({| Endpoint.status_code := 200; Endpoint.sent := "OK" |},
       Dispatcher.run Scenario.quiet (Dispatcher.init Scenario.alice_world)
         Scenario.one_trigger).
Proof.
  pose proof (webhook_acknowledged_before_processing Scenario.quiet
                Scenario.alice_world Scenario.one_trigger (Some "alice")
                Scenario.primary_headers) as H.
  cbv zeta in H. destruct H as (_ & _ & Hok & _ & _ & Hdup).
  apply injective_projections.
  - apply Hok. vm_compute. discriminate.
  - apply (Hdup "alice" eq_refl). vm_compute. discriminate.
Defined.

(** X24.  The full-sync endpoint always answers.  When the provider stops
    handing out page tokens, [handleFullSync] answers 200 exactly when
    [performFullSync] returned [true], 500 with "Full sync failed" when it
    returned [false], and 500 with "Internal server error" when it threw;
    the handler itself does nothing else to the world. *)
Theorem full_sync_endpoint_answers
    (u : string) (env : Env) (w : World) (bound fuel : nat) :
  paging_ends env bound -> bound <= fuel ->
  let r := WebhookHandler.performFullSync (S fuel) u env w in
  HttpTransport.handleFullSync (S fuel) u env w =
    (Ok match fst r with
        | Ok true =>
            {| HttpTransport.code := 200;
               HttpTransport.reply := HttpTransport.FullSyncCompleted u |}
        | Ok false =>
            {| HttpTransport.code := 500;
               HttpTransport.reply := HttpTransport.FullSyncFailed u |}
        | _ =>
            {| HttpTransport.code := 500;
               HttpTransport.reply := HttpTransport.InternalServerError |}
        end,
     snd r) /\
  fst r <> Diverges.
Proof.
  intros Hends Hfuel r.
  pose proof (performFullSync_cases u env w bound fuel Hends Hfuel) as H.
  cbv zeta in H. subst r. unfold HttpTransport.handleFullSync.
  rewrite run_try_catch, run_bind.
  destruct (WebhookHandler.performFullSync (S fuel) u env w)
    as [[[|]|e|] w']; simpl in *; try (split; [reflexivity | discriminate]).
  contradiction.
Qed.

Lemma full_sync_endpoint_answers_witness :
  fst (HttpTransport.handleFullSync 1 "alice" Scenario.quiet
         Scenario.alice_world)
    = Ok {| HttpTransport.code := 200;
            HttpTransport.reply := HttpTransport.FullSyncCompleted "alice" |} /\
  fst (HttpTransport.handleFullSync 1 "bob" Scenario.quiet
         Scenario.alice_world)
    = Ok {| HttpTransport.code := 500;
            HttpTransport.reply := HttpTransport.FullSyncFailed "bob" |}.
Proof.
  split.
  - pose proof (full_sync_endpoint_answers "alice" Scenario.quiet
                  Scenario.alice_world 0 0 paging_ends_quiet (le_n 0)) as H.
    cbv zeta in H. destruct H as [H _]. rewrite H. reflexivity.
  - pose proof (full_sync_endpoint_answers "bob" Scenario.quiet
                  Scenario.alice_world 0 0 paging_ends_quiet (le_n 0)) as H.
    cbv zeta in H. destruct H as [H _]. rewrite H. reflexivity.
Defined.

Lemma split_slash_nonempty s : HttpTransport.split_slash s <> [].
Proof.
  destruct s as [|c s]; simpl; [discriminate |].
  destruct (Ascii.eqb c "/"); [discriminate |].
  now destruct (HttpTransport.split_slash s).
Qed.

Lemma split_slash_free s : Forall (fun p => slash_free p = true) (HttpTransport.split_slash s).
Proof.
  induction s as [|c s IH]; simpl.
  - now repeat constructor.
  - destruct (Ascii.eqb c "/") eqn:Hc; [now constructor |].
    destruct (HttpTransport.split_slash s) as [|part rest].
    + repeat constructor. simpl. now rewrite Hc.
    + inversion IH as [|? ? Hp Hrest]; subst. constructor; [| exact Hrest].
      simpl. now rewrite Hc, Hp.
Qed.

Lemma split_slash_one s : slash_free s = true -> HttpTransport.split_slash s = [s].
Proof.
  induction s as [|c s IH]; simpl; [reflexivity |].
  intros H. apply andb_prop in H as [Hc Hs].
  destruct (Ascii.eqb c "/"); [discriminate |]. now rewrite (IH Hs).
Qed.

Lemma split_slash_join a : forall b,
  HttpTransport.split_slash (a +:+ "/" +:+ b)
    = HttpTransport.split_slash a ++ HttpTransport.split_slash b.
Proof.
  induction a as [|c a IH]; intros b; [reflexivity |].
  change (String c a +:+ "/" +:+ b) with (String c (a +:+ "/" +:+ b)).
  simpl. rewrite IH. destruct (Ascii.eqb c "/"); [reflexivity |].
  destruct (HttpTransport.split_slash a) as [|part rest] eqn:Ha; [| reflexivity].
  now elim (split_slash_nonempty a).
Qed.

Lemma append_empty_r (s : string) : s +:+ EmptyString = s.
Proof.
  induction s as [|c s IH]; [reflexivity |].
  change (String c s +:+ EmptyString) with (String c (s +:+ EmptyString)).
  now rewrite IH.
Qed.

Lemma pathParts_spec pathname :
  Forall (fun p => p <> EmptyString /\ slash_free p = true)
    (HttpTransport.pathParts pathname).
Proof.
  unfold HttpTransport.pathParts. apply List.Forall_forall. intros p Hin.
  apply List.filter_In in Hin as [Hin Ht]. split.
  - now apply truthy_string_nonempty.
  - pose proof (split_slash_free pathname) as Hall.
    rewrite List.Forall_forall in Hall. now apply Hall.
Qed.

Lemma pathParts_lookup pathname i p :
  HttpTransport.pathParts pathname !! i = Some p ->
  p <> EmptyString /\ slash_free p = true.
Proof.
  intros H. pose proof (pathParts_spec pathname) as Hall.
  rewrite List.Forall_forall in Hall. apply Hall.
  apply list_elem_of_In. now apply list_elem_of_lookup_2 in H.
Qed.

(** X25.  The transport hands a user id to the handlers only when the path
    has one.  A path [/webhook/calendar/<id>] or [/webhook/full-sync/<id>]
    with a non-empty id without a slash is routed to the handler with that
    id, a trailing slash or not.  Whatever the path, the id passed to
    [handleCalendarWebhook] or [handleFullSync] is a non-empty path segment
    without a slash, so the webhook handler answers 200 and its own 400 is
    never sent through the transport; a path without the segment is
    answered 400 by the transport itself. *)
Theorem transport_passes_user_id (pathname : string) :
  (forall userId,
     HttpTransport.handleWebhookRequest pathname = HttpTransport.CalendarWebhook userId \/
     HttpTransport.handleWebhookRequest pathname = HttpTransport.FullSync userId ->
     userId <> EmptyString /\ slash_free userId = true) /\
  (forall userId h headers,
     HttpTransport.handleWebhookRequest pathname = HttpTransport.CalendarWebhook userId ->
     Endpoint.status_code
       (fst (Endpoint.handleCalendarWebhook h (Some userId) headers))
       = 200%Z) /\
  (forall userId slash,
     userId <> EmptyString -> slash_free userId = true ->
     slash = EmptyString \/ slash = "/" ->
     (pathname = "/webhook/calendar/" +:+ userId +:+ slash ->
      HttpTransport.handleWebhookRequest pathname = HttpTransport.CalendarWebhook userId) /\
     (pathname = "/webhook/full-sync/" +:+ userId +:+ slash ->
      HttpTransport.handleWebhookRequest pathname = HttpTransport.FullSync userId)) /\
  (pathname = "/webhook/calendar" \/ pathname = "/webhook/calendar/" \/
   pathname = "/webhook/full-sync" \/ pathname = "/webhook/full-sync/" ->
   HttpTransport.handleWebhookRequest pathname = HttpTransport.UserIdRequired).
Proof.
  assert (Hid : forall userId,
    HttpTransport.handleWebhookRequest pathname = HttpTransport.CalendarWebhook userId \/
    HttpTransport.handleWebhookRequest pathname = HttpTransport.FullSync userId ->
    userId <> EmptyString /\ slash_free userId = true).
  { intros userId Hroute.
    assert (Hpart : exists i, HttpTransport.pathParts pathname !! i = Some userId).
    { unfold HttpTransport.handleWebhookRequest in Hroute. cbv zeta in Hroute.
      destruct (length (HttpTransport.pathParts pathname) <? 2)%nat;
        [destruct Hroute; discriminate |].
      destruct (HttpTransport.pathParts pathname !! 1) as [action|];
        [| destruct Hroute; discriminate].
      destruct (String.eqb action "register"); [destruct Hroute; discriminate |].
      destruct (String.eqb action "unregister");
        [destruct Hroute; discriminate |].
      destruct (String.eqb action "calendar").
      - destruct (HttpTransport.pathParts pathname !! 2) as [p|] eqn:Hp;
          [| destruct Hroute; discriminate].
        exists 2. destruct Hroute as [[= <-] | H]; [exact Hp | discriminate].
      - destruct (String.eqb action "full-sync");
          [| destruct Hroute; discriminate].
        destruct (HttpTransport.pathParts pathname !! 2) as [p|] eqn:Hp;
          [| destruct Hroute; discriminate].
        exists 2. destruct Hroute as [H | [= <-]]; [discriminate | exact Hp]. }
    destruct Hpart as [i Hi]. exact (pathParts_lookup pathname i userId Hi). }
  split; [exact Hid |]. split; [| split].
  - intros userId h headers Hroute.
    destruct (Hid userId (or_introl Hroute)) as [Hne _].
    unfold Endpoint.handleCalendarWebhook.
    apply truthy_string_nonempty in Hne. now rewrite Hne.
  - intros userId slash Hne Hfree Hslash.
    assert (Hparts : forall action,
      slash_free action = true -> action <> EmptyString ->
      HttpTransport.pathParts ("/webhook/" +:+ action +:+ "/" +:+ userId +:+ slash)
        = ["webhook"; action; userId]).
    { intros action Hfa Hna. unfold HttpTransport.pathParts.
      change ("/webhook/" +:+ action +:+ "/" +:+ userId +:+ slash)
        with (EmptyString +:+ "/" +:+
              ("webhook" +:+ "/" +:+ (action +:+ "/" +:+ (userId +:+ slash)))).
      rewrite !split_slash_join.
      rewrite (split_slash_one action Hfa).
      assert (Hlast : List.filter Js.truthy_string
                        (HttpTransport.split_slash (userId +:+ slash)) = [userId]).
      { destruct Hslash as [-> | ->].
        - rewrite append_empty_r.
          rewrite (split_slash_one userId Hfree). simpl.
          apply truthy_string_nonempty in Hne. now rewrite Hne.
        - change (userId +:+ "/") with (userId +:+ "/" +:+ EmptyString).
          rewrite split_slash_join, (split_slash_one userId Hfree). simpl.
          apply truthy_string_nonempty in Hne. now rewrite Hne. }
      simpl. apply truthy_string_nonempty in Hna. now rewrite Hna, Hlast. }
    split; intros ->.
    + change ("/webhook/calendar/" +:+ userId +:+ slash)
        with ("/webhook/" +:+ "calendar" +:+ "/" +:+ userId +:+ slash).
      unfold HttpTransport.handleWebhookRequest.
      now rewrite (Hparts "calendar" eq_refl ltac:(discriminate)).
    + change ("/webhook/full-sync/" +:+ userId +:+ slash)
        with ("/webhook/" +:+ "full-sync" +:+ "/" +:+ userId +:+ slash).
      unfold HttpTransport.handleWebhookRequest.
      now rewrite (Hparts "full-sync" eq_refl ltac:(discriminate)).
  - intros [-> | [-> | [-> | ->]]]; reflexivity.
Qed.

Lemma transport_passes_user_id_witness :
  HttpTransport.handleWebhookRequest "/webhook/calendar/alice"
    = HttpTransport.CalendarWebhook "alice" /\
  HttpTransport.handleWebhookRequest "/webhook/calendar/" = HttpTransport.UserIdRequired.
Proof.
  split.
  - destruct (transport_passes_user_id "/webhook/calendar/alice")
      as (_ & _ & Hroute & _).
    destruct (Hroute "alice" EmptyString ltac:(discriminate) eq_refl
                (or_introl eq_refl)) as [Hcal _].
    apply Hcal. reflexivity.
  - destruct (transport_passes_user_id "/webhook/calendar/")
      as (_ & _ & _ & Hnone).
    apply Hnone. right. left. reflexivity.
Defined.
